(** * printGZHeader: header report and member boundaries of a
      concatenated gzip file

    Shallow embedding of [printGZHeader.c].  The program drives zlib's
    [inflate] over a [FILE]; both libraries are modelled here as far as
    the program observes them:

    - [Crc32], [Bits], [Huffman], [Inflate]: zlib's gzip decoder
      (RFC 1952 wrapper, RFC 1951 body), as a state machine with the
      modes of zlib's [inflate.c];
    - [Stdio]: a [FILE] over an in-memory byte sequence, with its
      position and end-of-file indicator;
    - [get_header_for_zstream] and [main]: the two functions of the
      program, statement by statement. *)

From Stdlib Require Import ZArith List Bool Lia.
Import ListNotations.
Local Open Scope Z_scope.

(** ** C integer conversions *)

(** A byte is a [Z] in [0, 256). *)
Abbreviation byte := Z (only parsing).

Definition is_byte (b : Z) : Prop := 0 <= b < 256.

(** Conversion to [uInt] (32 bits, unsigned), as in
    [zs.avail_in = fread(...)] and [zs.avail_out = OUTBUF_MULT*filesize]. *)
Definition to_uInt (x : Z) : Z := x mod 2 ^ 32.

(** Conversion to [int] (32 bits, two's complement), as in
    [fposreset = zs.total_in]. *)
Definition to_int (x : Z) : Z := (x + 2 ^ 31) mod 2 ^ 32 - 2 ^ 31.

(** Length of a list as a [Z]. *)
Definition zlen {A} (l : list A) : Z := Z.of_nat (length l).

(** ** CRC-32, as zlib's [crc32(crc, buf, len)] *)
Module Crc32.

Definition poly : Z := 0xEDB88320.

Fixpoint shift8 (n : nat) (c : Z) : Z :=
    match n with
    | O => c
    | S n' =>
        shift8 n' (if Z.odd c then Z.lxor (Z.shiftr c 1) poly
                   else Z.shiftr c 1)
    end.

Definition step (c : Z) (b : byte) : Z := shift8 8 (Z.lxor c (Z.land b 255)).

Definition update (crc : Z) (buf : list byte) : Z :=
    Z.lxor (fold_left step buf (Z.lxor crc 0xFFFFFFFF)) 0xFFFFFFFF.

End Crc32.

(** ** zlib constants (zlib.h) *)

Definition Z_OK : Z := 0.
Definition Z_STREAM_END : Z := 1.
Definition Z_NEED_DICT : Z := 2.
Definition Z_ERRNO : Z := -1.
Definition Z_STREAM_ERROR : Z := -2.
Definition Z_DATA_ERROR : Z := -3.
Definition Z_MEM_ERROR : Z := -4.
Definition Z_BUF_ERROR : Z := -5.

Definition Z_DEFLATED : Z := 8.
Definition MAX_WBITS : Z := 15.

(** Flush arguments of [inflate] used by the program. *)
Inductive flush := Z_NO_FLUSH | Z_BLOCK.

(** The program's own constants. *)
Definition OUTBUF_MULT : Z := 5.
Definition STR_LEN : Z := 512.

(** ** The decoder state of zlib's [inflate] *)

(** Modes of [inflate.c] for a gzip stream.  [TABLE] stands for zlib's
    [TABLE], [LENLENS] and [CODELENS]; [LEN] for [LEN], [LENEXT],
    [DIST] and [DISTEXT]; [STORED] and [COPY], [LIT] and [MATCH] are
    zlib's. *)
Inductive imode :=
| HEAD | FLAGS | TIME | OS | EXLEN | EXTRA | NAME | COMMENT | HCRC
| TYPE | STORED | COPY | TABLE | LEN | LIT | MATCH
| CHECK | LENGTH | DONE | BAD.

(** A canonical Huffman code: for each code length 1, 2, ..., 15 the
    symbols of that length, in increasing order. *)
Definition huffman := list (list Z).

(** A cell of the program's [char zname[STR_LEN]]: the array is never
    initialised by the program, so a cell holds a byte only once zlib has
    written it. *)
Definition cell := option byte.

(** [struct inflate_state], together with the working copies [next]
    (input not yet pulled) and [left] (output space) that [inflate] loads
    from the [z_stream], and with the [gz_header] the program registered
    ([h_time], [h_name], [h_name_max], [h_done]) and the buffer
    [zname] its [name] field points to.  [h_name = false] is a null
    [name] pointer.  [h_time = None] is a time field that was never
    written.  [window] holds the output produced so far, most recent byte
    first. *)
Record inflate_state := mkState {
  mode : imode;
  last : bool;
  flags : Z;
  check : Z;
  total : Z;
  hold : list bool;
  length_ : Z;
  offset : Z;
  lit : byte;
  lencode : huffman;
  distcode : huffman;
  window : list byte;
  next : list byte;
  left : Z;
  h_time : option Z;
  h_name : bool;
  h_name_max : Z;
  h_done : Z;
  zname : list cell
}.

Definition set_mode (m : imode) (s : inflate_state) : inflate_state :=
  mkState m (last s) (flags s) (check s) (total s) (hold s) (length_ s)
    (offset s) (lit s) (lencode s) (distcode s) (window s) (next s) (left s)
    (h_time s) (h_name s) (h_name_max s) (h_done s) (zname s).

Definition set_last (b : bool) (s : inflate_state) : inflate_state :=
  mkState (mode s) b (flags s) (check s) (total s) (hold s) (length_ s)
    (offset s) (lit s) (lencode s) (distcode s) (window s) (next s) (left s)
    (h_time s) (h_name s) (h_name_max s) (h_done s) (zname s).

Definition set_flags (f : Z) (s : inflate_state) : inflate_state :=
  mkState (mode s) (last s) f (check s) (total s) (hold s) (length_ s)
    (offset s) (lit s) (lencode s) (distcode s) (window s) (next s) (left s)
    (h_time s) (h_name s) (h_name_max s) (h_done s) (zname s).

Definition set_check (c : Z) (s : inflate_state) : inflate_state :=
  mkState (mode s) (last s) (flags s) c (total s) (hold s) (length_ s)
    (offset s) (lit s) (lencode s) (distcode s) (window s) (next s) (left s)
    (h_time s) (h_name s) (h_name_max s) (h_done s) (zname s).

Definition set_length (n : Z) (s : inflate_state) : inflate_state :=
  mkState (mode s) (last s) (flags s) (check s) (total s) (hold s) n
    (offset s) (lit s) (lencode s) (distcode s) (window s) (next s) (left s)
    (h_time s) (h_name s) (h_name_max s) (h_done s) (zname s).

Definition set_offset (n : Z) (s : inflate_state) : inflate_state :=
  mkState (mode s) (last s) (flags s) (check s) (total s) (hold s) (length_ s)
    n (lit s) (lencode s) (distcode s) (window s) (next s) (left s)
    (h_time s) (h_name s) (h_name_max s) (h_done s) (zname s).

Definition set_lit (b : byte) (s : inflate_state) : inflate_state :=
  mkState (mode s) (last s) (flags s) (check s) (total s) (hold s) (length_ s)
    (offset s) b (lencode s) (distcode s) (window s) (next s) (left s)
    (h_time s) (h_name s) (h_name_max s) (h_done s) (zname s).

Definition set_codes (l d : huffman) (s : inflate_state) : inflate_state :=
  mkState (mode s) (last s) (flags s) (check s) (total s) (hold s) (length_ s)
    (offset s) (lit s) l d (window s) (next s) (left s)
    (h_time s) (h_name s) (h_name_max s) (h_done s) (zname s).

Definition set_hold (h : list bool) (s : inflate_state) : inflate_state :=
  mkState (mode s) (last s) (flags s) (check s) (total s) h (length_ s)
    (offset s) (lit s) (lencode s) (distcode s) (window s) (next s) (left s)
    (h_time s) (h_name s) (h_name_max s) (h_done s) (zname s).

Definition set_next (n : list byte) (s : inflate_state) : inflate_state :=
  mkState (mode s) (last s) (flags s) (check s) (total s) (hold s) (length_ s)
    (offset s) (lit s) (lencode s) (distcode s) (window s) n (left s)
    (h_time s) (h_name s) (h_name_max s) (h_done s) (zname s).

Definition set_left (n : Z) (s : inflate_state) : inflate_state :=
  mkState (mode s) (last s) (flags s) (check s) (total s) (hold s) (length_ s)
    (offset s) (lit s) (lencode s) (distcode s) (window s) (next s) n
    (h_time s) (h_name s) (h_name_max s) (h_done s) (zname s).

(** One byte written to the output: [*put++ = b; left--], with the
    running CRC and output count that zlib brings up to date when it
    leaves [inflate]. *)
Definition put_byte (b : byte) (s : inflate_state) : inflate_state :=
  mkState (mode s) (last s) (flags s) (Crc32.update (check s) [b])
    (total s + 1) (hold s) (length_ s)
    (offset s) (lit s) (lencode s) (distcode s) (b :: window s) (next s)
    (left s - 1)
    (h_time s) (h_name s) (h_name_max s) (h_done s) (zname s).

Definition set_h_time (t : Z) (s : inflate_state) : inflate_state :=
  mkState (mode s) (last s) (flags s) (check s) (total s) (hold s) (length_ s)
    (offset s) (lit s) (lencode s) (distcode s) (window s) (next s) (left s)
    (Some t) (h_name s) (h_name_max s) (h_done s) (zname s).

Definition set_h_name (p : bool) (s : inflate_state) : inflate_state :=
  mkState (mode s) (last s) (flags s) (check s) (total s) (hold s) (length_ s)
    (offset s) (lit s) (lencode s) (distcode s) (window s) (next s) (left s)
    (h_time s) p (h_name_max s) (h_done s) (zname s).

Definition set_h_name_max (n : Z) (s : inflate_state) : inflate_state :=
  mkState (mode s) (last s) (flags s) (check s) (total s) (hold s) (length_ s)
    (offset s) (lit s) (lencode s) (distcode s) (window s) (next s) (left s)
    (h_time s) (h_name s) n (h_done s) (zname s).

Definition set_h_done (d : Z) (s : inflate_state) : inflate_state :=
  mkState (mode s) (last s) (flags s) (check s) (total s) (hold s) (length_ s)
    (offset s) (lit s) (lencode s) (distcode s) (window s) (next s) (left s)
    (h_time s) (h_name s) (h_name_max s) d (zname s).

Definition set_zname (z : list cell) (s : inflate_state) : inflate_state :=
  mkState (mode s) (last s) (flags s) (check s) (total s) (hold s) (length_ s)
    (offset s) (lit s) (lencode s) (distcode s) (window s) (next s) (left s)
    (h_time s) (h_name s) (h_name_max s) (h_done s) z.

(** ** The decoder monad: a computation over the decoder state that
       either finishes or stops *)

(** Why a computation stopped: no input left ([have == 0]), no output
    space left ([left == 0]), or invalid data ([mode = BAD]). *)
Inductive stop := NeedInput | OutFull | DataError.

Inductive res (A : Type) :=
| Ok (a : A) (s : inflate_state)
| Stop (w : stop) (s : inflate_state).
Arguments Ok {A} a s.
Arguments Stop {A} w s.

Definition M (A : Type) := inflate_state -> res A.

Definition ret {A} (a : A) : M A := fun s => Ok a s.

Definition bind {A B} (m : M A) (k : A -> M B) : M B :=
  fun s => match m s with
           | Ok a s' => k a s'
           | Stop w s' => Stop w s'
           end.

Notation "x <- m ;; k" := (bind m (fun x => k))
  (at level 61, m at next level, right associativity).
Notation "m ;;; k" := (bind m (fun _ => k))
  (at level 61, right associativity).

Definition gets {A} (f : inflate_state -> A) : M A := fun s => Ok (f s) s.

Definition modify (g : inflate_state -> inflate_state) : M unit :=
  fun s => Ok tt (g s).

(** [strm->msg = ...; state->mode = BAD] *)
Definition bad {A} : M A := fun s => Stop DataError (set_mode BAD s).

(** ** Bit input: zlib's [hold], [PULLBYTE], [NEEDBITS], [BITS],
       [DROPBITS], [BYTEBITS] *)
Module Bits.

  (** The eight bits of a byte, least significant first. *)
Definition of_byte (b : byte) : list bool :=
    map (Z.testbit b) [0; 1; 2; 3; 4; 5; 6; 7].

Definition of_bytes (l : list byte) : list bool := flat_map of_byte l.

  (** Value of a bit string, least significant bit first. *)
Fixpoint value (l : list bool) : Z :=
    match l with
    | [] => 0
    | b :: l' => Z.b2z b + 2 * value l'
    end.

  (** One bit: taken from [hold], after a [PULLBYTE] when [hold] is
      empty. *)
Definition getbit : M bool := fun s =>
    match hold s with
    | b :: h => Ok b (set_hold h s)
    | [] =>
        match next s with
        | [] => Stop NeedInput s
        | x :: n =>
            Ok (Z.testbit x 0)
               (set_hold (map (Z.testbit x) [1; 2; 3; 4; 5; 6; 7])
                  (set_next n s))
        end
    end.

  (** [NEEDBITS(n); v = BITS(n); DROPBITS(n)] *)
Fixpoint getbits (n : nat) : M Z :=
    match n with
    | O => ret 0
    | S n' => b <- getbit ;; v <- getbits n' ;; ret (Z.b2z b + 2 * v)
    end.

  (** [BYTEBITS()]: drop the bits up to the next byte boundary. *)
Definition bytebits : M unit := fun s =>
    Ok tt (set_hold (skipn (length (hold s) mod 8)%nat (hold s)) s).

  (** A byte taken from [next] directly, as the header fields and stored
      blocks are read. *)
Definition take_byte : M byte := fun s =>
    match next s with
    | [] => Stop NeedInput s
    | x :: n => Ok x (set_next n s)
    end.

  (** All remaining input moved to [hold]: what [NEEDBITS] leaves behind
      when it runs out of input. *)
Definition slurp (s : inflate_state) : inflate_state :=
    set_hold (hold s ++ of_bytes (next s)) (set_next [] s).

  (** A state of [inflate] that needs [n] bits at once: when the input
      runs out, the bits pulled so far stay in [hold] and the state is
      entered again on the next call. *)
Definition atomic {A} (m : M A) : M A := fun s =>
    match m s with
    | Stop NeedInput _ => Stop NeedInput (slurp s)
    | r => r
    end.

End Bits.

(** ** Output: [left], [put] *)

(** [if (left == 0) goto inf_leave;] *)
Definition need_out : M unit := fun s =>
  if left s <=? 0 then Stop OutFull s else Ok tt s.

(** [*put++ = b; left--;], which the code reaches only with
    [left != 0]. *)
Definition emit (b : byte) : M unit := fun s =>
  if left s <=? 0 then Stop OutFull s else Ok tt (put_byte b s).

(** ** Huffman codes: zlib's [inflate_table] and code lookup *)
Module Huffman.

  (** Positions [i] (counted from [i0]) with [lens[i] = l]. *)
Fixpoint symbols_of_len (l : Z) (i0 : Z) (lens : list Z) : list Z :=
    match lens with
    | [] => []
    | x :: lens' =>
        if x =? l then i0 :: symbols_of_len l (i0 + 1) lens'
        else symbols_of_len l (i0 + 1) lens'
    end.

Definition code_lengths : list Z := [1; 2; 3; 4; 5; 6; 7; 8; 9; 10; 11; 12; 13; 14; 15].

Definition build (lens : list Z) : huffman :=
    map (fun l => symbols_of_len l 0 lens) code_lengths.

  (** [left] of [inflate_table] after the lengths of [h]: [None] for an
      over-subscribed set, [Some 0] for a complete one. *)
Fixpoint left_over (h : huffman) (lft : Z) : option Z :=
    match h with
    | [] => Some lft
    | syms :: h' =>
        let lft' := 2 * lft - zlen syms in
        if lft' <? 0 then None else left_over h' lft'
    end.

Definition all_empty (h : huffman) : bool :=
    forallb (fun syms => match syms with [] => true | _ => false end) h.

  (** Whether [inflate_table] accepts the set: no code at all is
      accepted; an over-subscribed set is refused; an incomplete set is
      accepted only for a single code of length 1, and never for the code
      length code ([codes = true]). *)
Definition accepted (codes : bool) (h : huffman) : bool :=
    if all_empty h then true
    else match left_over h 1 with
         | None => false
         | Some lft =>
             if 0 <? lft
             then negb codes && all_empty (tl h)
             else true
         end.

  (** Code lookup, one bit at a time: [code] is the code read so far,
      [first] the first code of the current length. *)
Fixpoint decode (h : huffman) (code first : Z) : M Z :=
    match h with
    | [] => bad
    | syms :: h' =>
        b <- Bits.getbit ;;
        let code := code + Z.b2z b in
        let count := zlen syms in
        if code - count <? first
        then ret (nth (Z.to_nat (code - first)) syms 0)
        else if all_empty h' then bad
        else decode h' (2 * code) (2 * (first + count))
    end.

  (** The fixed codes of RFC 1951, 3.2.6. *)
Definition fixed_lens : list Z :=
    repeat 8 144 ++ repeat 9 112 ++ repeat 7 24 ++ repeat 8 8.
Definition fixed_len : huffman := Eval vm_compute in build fixed_lens.
Definition fixed_dist : huffman := Eval vm_compute in build (repeat 5 30%nat).

  (** Length and distance symbols: base value and number of extra bits. *)
Definition lbase : list Z :=
    [3; 4; 5; 6; 7; 8; 9; 10; 11; 13; 15; 17; 19; 23; 27; 31; 35; 43; 51; 59;
     67; 83; 99; 115; 131; 163; 195; 227; 258].
Definition lext : list nat :=
    [0; 0; 0; 0; 0; 0; 0; 0; 1; 1; 1; 1; 2; 2; 2; 2; 3; 3; 3; 3;
     4; 4; 4; 4; 5; 5; 5; 5; 0]%nat.
Definition dbase : list Z :=
    [1; 2; 3; 4; 5; 7; 9; 13; 17; 25; 33; 49; 65; 97; 129; 193; 257; 385;
     513; 769; 1025; 1537; 2049; 3073; 4097; 6145; 8193; 12289; 16385; 24577].
Definition dext : list nat :=
    [0; 0; 0; 0; 1; 1; 2; 2; 3; 3; 4; 4; 5; 5; 6; 6; 7; 7; 8; 8;
     9; 9; 10; 10; 11; 11; 12; 12; 13; 13]%nat.

  (** Order in which the code length code lengths are stored. *)
Definition order : list nat :=
    [16; 17; 18; 0; 8; 7; 9; 6; 10; 5; 11; 4; 12; 3; 13; 2; 14; 1; 15]%nat.

  (** The lengths of the code length code, from the [lens] read in
      [order] (missing ones are 0). *)
Fixpoint place (ord : list nat) (lens : list Z) (acc : list Z) : list Z :=
    match ord, lens with
    | o :: ord', l :: lens' =>
        place ord' lens' (firstn o acc ++ l :: skipn (S o) acc)
    | _, _ => acc
    end.

End Huffman.

(** ** The states of [inflate] (inflate.c), one function per mode *)
Module Inflate.
  Import Bits.

  (** [if (state->flags & 0x0200) CRCn(state->check, hold)]: the header
      CRC runs over the header bytes when the FHCRC flag is set. *)
Definition crc_header (bytes : list byte) (s : inflate_state) : inflate_state :=
    if Z.testbit (flags s) 9 then set_check (Crc32.update (check s) bytes) s
    else s.

  (** The [n] bytes of a little-endian value read by [NEEDBITS(8*n)]. *)
Fixpoint le_bytes (n : nat) (v : Z) : list byte :=
    match n with
    | O => []
    | S n' => (v mod 256) :: le_bytes n' (v / 256)
    end.

Definition step_HEAD : M unit :=
    atomic (v <- getbits 16 ;;
            if v =? 0x8b1f
            then modify (fun s =>
                   set_mode FLAGS (set_check (Crc32.update 0 (le_bytes 2 v)) s))
            else modify (set_h_done (-1)) ;;; bad).

Definition step_FLAGS : M unit :=
    atomic (v <- getbits 16 ;;
            modify (set_flags v) ;;;
            if negb (Z.land v 0xff =? Z_DEFLATED) then bad
            else if negb (Z.land v 0xe000 =? 0) then bad
            else modify (fun s => set_mode TIME (crc_header (le_bytes 2 v) s))).

Definition step_TIME : M unit :=
    atomic (v <- getbits 32 ;;
            modify (fun s =>
              set_mode OS (crc_header (le_bytes 4 v) (set_h_time v s)))).

Definition step_OS : M unit :=
    atomic (v <- getbits 16 ;;
            modify (fun s => set_mode EXLEN (crc_header (le_bytes 2 v) s))).

Definition step_EXLEN : M unit :=
    f <- gets flags ;;
    if Z.testbit f 10
    then atomic (v <- getbits 16 ;;
                 modify (fun s =>
                   set_mode EXTRA (crc_header (le_bytes 2 v) (set_length v s))))
    else modify (set_mode EXTRA).

  (** The extra field is skipped byte by byte ([extra_max] is 0, nothing
      is stored). *)
Fixpoint skip_extra (n : nat) : M unit :=
    match n with
    | O => ret tt
    | S n' =>
        b <- take_byte ;;
        modify (fun s => crc_header [b] (set_length (length_ s - 1) s)) ;;;
        skip_extra n'
    end.

Definition step_EXTRA : M unit :=
    f <- gets flags ;;
    (if Z.testbit f 10
     then n <- gets length_ ;; skip_extra (Z.to_nat n)
     else ret tt) ;;;
    modify (fun s => set_mode NAME (set_length 0 s)).

  (** [head->name[state->length++] = b] when there is a buffer and room
      in it. *)
Definition store_name (b : byte) (s : inflate_state) : inflate_state :=
    if h_name s && (length_ s <? h_name_max s)
    then set_length (length_ s + 1)
           (set_zname (firstn (Z.to_nat (length_ s)) (zname s)
                       ++ Some b :: skipn (S (Z.to_nat (length_ s))) (zname s)) s)
    else s.

  (** One byte of the file name; the mode stays [NAME] until the
      terminating zero has been read.  Without the FNAME flag the
      header's [name] is set to [Z_NULL]. *)
Definition step_NAME : M unit :=
    f <- gets flags ;;
    if Z.testbit f 11
    then b <- take_byte ;;
         modify (fun s => crc_header [b] (store_name b s)) ;;;
         if b =? 0 then modify (fun s => set_mode COMMENT (set_length 0 s))
         else ret tt
    else modify (fun s => set_mode COMMENT (set_length 0 (set_h_name false s))).

  (** One byte of the comment ([comm_max] is 0: nothing is stored). *)
Definition step_COMMENT : M unit :=
    f <- gets flags ;;
    if Z.testbit f 12
    then b <- take_byte ;;
         modify (crc_header [b]) ;;;
         if b =? 0 then modify (set_mode HCRC) else ret tt
    else modify (set_mode HCRC).

Definition finish_header (s : inflate_state) : inflate_state :=
    set_mode TYPE (set_check (Crc32.update 0 []) (set_h_done 1 s)).

Definition step_HCRC : M unit :=
    f <- gets flags ;;
    if Z.testbit f 9
    then atomic (v <- getbits 16 ;;
                 c <- gets check ;;
                 if negb (v =? Z.land c 0xffff) then bad
                 else modify finish_header)
    else modify finish_header.

Definition step_TYPE : M unit :=
    l <- gets last ;;
    if l : bool then bytebits ;;; modify (set_mode CHECK)
    else atomic (b <- getbits 1 ;;
                 t <- getbits 2 ;;
                 modify (set_last (b =? 1)) ;;;
                 if t =? 0 then modify (set_mode STORED)
                 else if t =? 1
                 then modify (fun s =>
                        set_mode LEN
                          (set_codes Huffman.fixed_len Huffman.fixed_dist s))
                 else if t =? 2 then modify (set_mode TABLE)
                 else bad).

Definition step_STORED : M unit :=
    atomic (bytebits ;;;
            v <- getbits 32 ;;
            if negb (Z.land v 0xffff =? Z.lxor (Z.shiftr v 16) 0xffff) then bad
            else modify (fun s => set_mode COPY (set_length (Z.land v 0xffff) s))).

Fixpoint copy_stored (n : nat) : M unit :=
    match n with
    | O => ret tt
    | S n' =>
        need_out ;;;
        b <- take_byte ;;
        emit b ;;;
        modify (fun s => set_length (length_ s - 1) s) ;;;
        copy_stored n'
    end.

Definition step_COPY : M unit :=
    n <- gets length_ ;;
    copy_stored (Z.to_nat n) ;;;
    modify (set_mode TYPE).

  (** [n] values of [k] bits each. *)
Fixpoint getmany (n : nat) (k : nat) : M (list Z) :=
    match n with
    | O => ret []
    | S n' => v <- getbits k ;; l <- getmany n' k ;; ret (v :: l)
    end.

  (** A symbol of the code length code.  With no code at all zlib's
      table holds one-bit entries of value 0, which [CODELENS] takes as
      they are. *)
Definition decode_codelen (lh : huffman) : M Z :=
    if Huffman.all_empty lh then getbit ;;; ret 0
    else Huffman.decode lh 0 0.

  (** [CODELENS]: the [want] code lengths of the literal/length and
      distance codes; [acc] holds those read so far. *)
Fixpoint read_lens (fuel : nat) (lh : huffman) (want : Z) (acc : list Z)
    : M (list Z) :=
    match fuel with
    | O => ret acc
    | S fuel' =>
        if want <=? zlen acc then ret acc
        else
          sym <- decode_codelen lh ;;
          if sym <? 16 then read_lens fuel' lh want (acc ++ [sym])
          else
            rep <- (if sym =? 16
                    then r <- getbits 2 ;;
                         match rev acc with
                         | [] => bad
                         | prev :: _ => ret (prev, 3 + r)
                         end
                    else if sym =? 17
                    then r <- getbits 3 ;; ret (0, 3 + r)
                    else r <- getbits 7 ;; ret (0, 11 + r)) ;;
            let '(len, copy) := rep in
            if want <? zlen acc + copy then bad
            else read_lens fuel' lh want (acc ++ repeat len (Z.to_nat copy))
    end.

Definition step_TABLE : M unit :=
    atomic (nlen <- getbits 5 ;;
            ndist <- getbits 5 ;;
            ncode <- getbits 4 ;;
            let nlen := nlen + 257 in
            let ndist := ndist + 1 in
            let ncode := ncode + 4 in
            if (286 <? nlen) || (30 <? ndist) then bad
            else
              cl <- getmany (Z.to_nat ncode) 3 ;;
              let lh := Huffman.build
                          (Huffman.place Huffman.order cl (repeat 0 19)) in
              if negb (Huffman.accepted true lh) then bad
              else
                lens <- read_lens 320 lh (nlen + ndist) [] ;;
                if nth 256 lens 0 =? 0 then bad
                else
                  let lc := Huffman.build (firstn (Z.to_nat nlen) lens) in
                  let dc := Huffman.build (skipn (Z.to_nat nlen) lens) in
                  if negb (Huffman.accepted false lc) then bad
                  else if negb (Huffman.accepted false dc) then bad
                  else modify (fun s => set_mode LEN (set_codes lc dc s))).

  (** [LEN], [LENEXT], [DIST], [DISTEXT]: one literal/length symbol and,
      for a length, its distance. *)
Definition step_LEN : M unit :=
    atomic (lc <- gets lencode ;;
            sym <- Huffman.decode lc 0 0 ;;
            if sym <? 256
            then modify (fun s => set_mode LIT (set_lit sym s))
            else if sym =? 256 then modify (set_mode TYPE)
            else
              match nth_error Huffman.lbase (Z.to_nat (sym - 257)),
                    nth_error Huffman.lext (Z.to_nat (sym - 257)) with
              | Some lb, Some le =>
                  e <- getbits le ;;
                  dc <- gets distcode ;;
                  dsym <- Huffman.decode dc 0 0 ;;
                  match nth_error Huffman.dbase (Z.to_nat dsym),
                        nth_error Huffman.dext (Z.to_nat dsym) with
                  | Some db, Some de =>
                      x <- getbits de ;;
                      modify (fun s =>
                        set_mode MATCH
                          (set_offset (db + x) (set_length (lb + e) s)))
                  | _, _ => bad
                  end
              | _, _ => bad
              end).

Definition step_LIT : M unit :=
    b <- gets lit ;;
    emit b ;;;
    modify (set_mode LEN).

  (** [n] bytes copied from [offset] bytes back in the output. *)
Fixpoint copy_match (n : nat) : M unit :=
    match n with
    | O => ret tt
    | S n' =>
        b <- gets (fun s => nth (Z.to_nat (offset s - 1)) (window s) 0) ;;
        emit b ;;;
        modify (fun s => set_length (length_ s - 1) s) ;;;
        copy_match n'
    end.

Definition step_MATCH : M unit :=
    need_out ;;;
    far <- gets (fun s => zlen (window s) <? offset s) ;;
    if far : bool then bad
    else n <- gets length_ ;;
         copy_match (Z.to_nat n) ;;;
         modify (set_mode LEN).

Definition step_CHECK : M unit :=
    atomic (v <- getbits 32 ;;
            c <- gets check ;;
            if negb (v =? c) then bad else modify (set_mode LENGTH)).

Definition step_LENGTH : M unit :=
    atomic (v <- getbits 32 ;;
            t <- gets total ;;
            if negb (v =? Z.land t 0xffffffff) then bad
            else modify (set_mode DONE)).

  (** One turn of the [for (;;) switch (state->mode)] loop. *)
Definition step (m : imode) : M unit :=
    match m with
    | HEAD => step_HEAD
    | FLAGS => step_FLAGS
    | TIME => step_TIME
    | OS => step_OS
    | EXLEN => step_EXLEN
    | EXTRA => step_EXTRA
    | NAME => step_NAME
    | COMMENT => step_COMMENT
    | HCRC => step_HCRC
    | TYPE => step_TYPE
    | STORED => step_STORED
    | COPY => step_COPY
    | TABLE => step_TABLE
    | LEN => step_LEN
    | LIT => step_LIT
    | MATCH => step_MATCH
    | CHECK => step_CHECK
    | LENGTH => step_LENGTH
    | DONE => ret tt
    | BAD => bad
    end.

  (** Why the loop of [inflate] was left: in mode [DONE], in mode [BAD],
      at [TYPE] under [Z_BLOCK], because a state stopped, or (in this
      model only) because the turns granted were used up. *)
Inductive leave :=
  | AtDone
  | AtBad
  | AtBlock
  | Halted (w : stop)
  | Turns.

  (** The value of [ret] at [inf_leave]: [Z_STREAM_END] in mode [DONE],
      [Z_DATA_ERROR] in mode [BAD], [Z_OK] otherwise. *)
Definition ret_code (l : leave) : Z :=
    match l with
    | AtDone => Z_STREAM_END
    | AtBad | Halted DataError => Z_DATA_ERROR
    | _ => Z_OK
    end.

  (** The loop [for (;;) switch (state->mode)]. *)
Fixpoint run (fuel : nat) (fl : flush) (s : inflate_state)
    : leave * inflate_state :=
    match fuel with
    | O => (Turns, s)
    | S fuel' =>
        match mode s, fl with
        | DONE, _ => (AtDone, s)
        | BAD, _ => (AtBad, s)
        | TYPE, Z_BLOCK => (AtBlock, s)
        | m, _ =>
            match step m s with
            | Ok _ s' => run fuel' fl s'
            | Stop w s' => (Halted w, s')
            end
        end
    end.

  (** Number of input bits not yet decoded. *)
Definition bits_left (s : inflate_state) : nat :=
    (length (hold s) + 8 * length (next s))%nat.

  (** Turns of the loop that are enough for the input at hand: every turn
      takes at least one bit or moves to a later mode. *)
Definition enough (s : inflate_state) : nat := (32 * bits_left s + 32)%nat.

End Inflate.

(** ** The zlib interface the program calls *)

(** [z_stream], without the allocator fields and [msg].  [next_in] is the
    content of the input buffer from the pointer on. *)
Record z_stream := mkStream {
  next_in : list byte;
  avail_in : Z;
  avail_out : Z;
  total_in : Z;
  total_out : Z;
  state : inflate_state
}.

Definition set_avail_in (n : Z) (zs : z_stream) : z_stream :=
  mkStream (next_in zs) n (avail_out zs) (total_in zs) (total_out zs) (state zs).

Definition set_next_in (b : list byte) (zs : z_stream) : z_stream :=
  mkStream b (avail_in zs) (avail_out zs) (total_in zs) (total_out zs) (state zs).

Definition set_avail_out (n : Z) (zs : z_stream) : z_stream :=
  mkStream (next_in zs) (avail_in zs) n (total_in zs) (total_out zs) (state zs).

Definition set_state (s : inflate_state) (zs : z_stream) : z_stream :=
  mkStream (next_in zs) (avail_in zs) (avail_out zs) (total_in zs)
    (total_out zs) s.

(** The decoder state after [inflateInit2] and [inflateReset]; the header
    record is the program's [zhead], not yet written by anyone. *)
Definition initial_state : inflate_state :=
  mkState HEAD false 0 0 0 [] 0 0 0 [] [] [] [] 0 None false 0 0 [].

(** [inflateInit2(&zs, windowBits)], for the gzip-only decoder the
    program asks for ([16 + MAX_WBITS]); any other [windowBits] is outside
    this model and answered with [Z_STREAM_ERROR]. *)
Definition inflateInit2 (zs : z_stream) (windowBits : Z) : Z * z_stream :=
  if windowBits =? 16 + MAX_WBITS
  then (Z_OK, mkStream (next_in zs) (avail_in zs) (avail_out zs) 0 0
                initial_state)
  else (Z_STREAM_ERROR, zs).

(** [inflateGetHeader(&zs, &zhead)]: registers the header record and
    sets [zhead.done = 0]. *)
Definition inflateGetHeader (zs : z_stream) : Z * z_stream :=
  (Z_OK, set_state (set_h_done 0 (state zs)) zs).

(** [LOAD()]: the state [inflate] starts from, with [next] (the
    [avail_in] bytes at [next_in]) and [left] taken from the stream. *)
Definition loaded (zs : z_stream) : inflate_state :=
  set_left (avail_out zs)
    (set_next (firstn (Z.to_nat (avail_in zs)) (next_in zs)) (state zs)).

(** [inflate(&zs, flush)]: loads [next] and [left] from the stream, runs
    the decoder, stores them back and accounts for the bytes taken
    ([in]) and produced ([out]).  [Z_OK] with no progress at all becomes
    [Z_BUF_ERROR]. *)
Definition inflate (zs : z_stream) (fl : flush) : Z * z_stream :=
  let s0 := loaded zs in
  let '(l, s1) := Inflate.run (Inflate.enough s0) fl s0 in
  let r := Inflate.ret_code l in
  let in_ := zlen (next s0) - zlen (next s1) in
  let out := avail_out zs - left s1 in
  let zs' := mkStream (skipn (Z.to_nat in_) (next_in zs))
               (zlen (next s1)) (left s1)
               (total_in zs + in_) (total_out zs + out) s1 in
  (if (in_ =? 0) && (out =? 0) && (r =? Z_OK) then Z_BUF_ERROR else r, zs').

(** ** The C library's [FILE], over the bytes of a regular file *)
Module Stdio.

Record FILE := mkFile {
    contents : list byte;
    pos : Z;
    eof : bool;
    err : bool
  }.

  (** [fopen(name, "r")] on a file with the given content. *)
Definition fopen (content : list byte) : FILE := mkFile content 0 false false.

  (** [fstat]'s [st_size]. *)
Definition st_size (f : FILE) : Z := zlen (contents f).

Definition ftell (f : FILE) : Z := pos f.
Definition feof (f : FILE) : bool := eof f.
Definition ferror (f : FILE) : bool := err f.

  (** [fread(buf, 1, n, f)]: the bytes read and the stream afterwards.  A
      short read sets the end-of-file indicator, and the indicator is
      sticky: once set, nothing is read until [fseek] clears it. *)
Definition fread (n : Z) (f : FILE) : list byte * FILE :=
    if eof f || (n <=? 0) then ([], f)
    else
      let data := firstn (Z.to_nat n) (skipn (Z.to_nat (pos f)) (contents f)) in
      (data, mkFile (contents f) (pos f + zlen data)
               (zlen data <? n) (err f)).

  (** [fseek(f, off, SEEK_SET)]: fails (stream unchanged) on a negative
      offset, otherwise moves the position and clears the end-of-file
      indicator. *)
Definition fseek (off : Z) (f : FILE) : FILE :=
    if off <? 0 then f else mkFile (contents f) off false (err f).

End Stdio.
Import Stdio.

(** ** What the program prints and how it ends *)

(** The argument of [printf("GZHeader Name Field is: %s\n", zhead.name)]:
    a null pointer, or the buffer [zname] as it stands. *)
Inductive name_arg :=
| NullName
| NameAt (buf : list cell).

(** The text of [zdone_descrip]. *)
Inductive done_text :=
| HeaderIncomplete      (* "Header is incomplete." *)
| HeaderComplete        (* "Header is complete." *)
| HeaderUnavailable     (* "Header is unavailable." *)
| HeaderUndefined.      (* "Undefined" *)

(** The lines written to standard output, with the arguments passed to
    [printf].  The time line carries [zhead.time] as [%d] shows it, as an
    [int]; the program has no defined way to that line with a time that
    was never written, so no run shows [TimeField None]. *)
Inductive line :=
| Separator
| MemberBegin (member : Z) (position : Z)
| HeaderTitle (member : Z)
| TimeField (time : option Z)
| NameField (name : name_arg)
| DoneField (done : Z) (text : done_text)
| DecompressedSize (bytes : Z)
| MemberEnd (member : Z) (position : Z).

(** The calls of [exit] in the program, by the operation that failed. *)
Inductive site :=
| OpenFailed            (* fopen returned NULL *)
| InitFailed            (* inflateInit2 *)
| GetHeaderFailed       (* inflateGetHeader *)
| ReadFailed            (* ferror after fread *)
| NoData                (* the first fread read nothing *)
| HeaderInflateFailed   (* inflate(&zs, Z_BLOCK) *)
| BodyInflateFailed.    (* inflate(&zs, Z_NO_FLUSH) *)

(** A function returns, the process exits, or the model ran out of loop
    turns; or the program goes on from an object that was never written,
    and what it does from there is not defined: it may fault, and nothing
    is known of what reaches the output, not even of the lines passed to
    [printf] before. *)
Inductive outcome (A : Type) :=
| Return (a : A)
| Exit (at_ : site) (code : Z)
| OutOfFuel
| Undefined.
Arguments Return {A} a.
Arguments Exit {A} at_ code.
Arguments OutOfFuel {A}.
Arguments Undefined {A}.


(** What [printf("%s")] prints for a buffer: the bytes before the first
    zero; [None] when a cell that was never written, or the end of the
    array, comes first (the behaviour is then undefined). *)
Fixpoint c_string (buf : list cell) : option (list byte) :=
  match buf with
  | [] => None
  | None :: _ => None
  | Some b :: buf' =>
      if b =? 0 then Some []
      else match c_string buf' with
           | Some l => Some (b :: l)
           | None => None
           end
  end.

Definition zdone_descrip (done : Z) : done_text :=
  if done =? 0 then HeaderIncomplete
  else if done =? 1 then HeaderComplete
  else if done =? 2 then HeaderUnavailable
  else HeaderUndefined.

(** ** [get_header_for_zstream] *)

(** The [do ... while (ret != Z_STREAM_END)] loop.  Returns the stream,
    the file and the last [ret]. *)
Fixpoint boundary_loop (fuel : nat) (filesize : Z) (zs : z_stream) (f : FILE)
  : z_stream * FILE * outcome Z :=
  match fuel with
  | O => (zs, f, OutOfFuel)
  | S fuel' =>
      let '(ret_, zs) := inflate zs Z_NO_FLUSH in
      if ret_ <? 0 then (zs, f, Exit BodyInflateFailed ret_)
      else
        let '(inbuf, f) := fread filesize f in
        let zs := set_avail_in (to_uInt (zlen inbuf)) zs in
        if ferror f then (zs, f, Exit ReadFailed Z_ERRNO)
        else if avail_in zs =? 0 then (zs, f, Return ret_)
        else
          let zs := set_next_in inbuf zs in
          let zs := set_avail_out (to_uInt (OUTBUF_MULT * filesize)) zs in
          if ret_ =? Z_STREAM_END then (zs, f, Return ret_)
          else boundary_loop fuel' filesize zs f
  end.

(** The result of a call: the lines printed, the file afterwards, and
    the value returned or the exit taken. *)
Record call := mkCall {
  printed : list line;
  file_after : FILE;
  result : outcome Z
}.

(** The four lines of the header report, for a header whose time
    [time] was written.  [zhead.time] is an [uLong] and is printed with
    [%d]: the line shows it as an [int]. *)
Definition header_lines (member_number : Z) (time : Z) (s : inflate_state)
  : list line :=
  [ HeaderTitle member_number;
    TimeField (Some (to_int time));
    NameField (if h_name s then NameAt (zname s) else NullName);
    DoneField (h_done s) (zdone_descrip (h_done s)) ].

Definition get_header_for_zstream (f : FILE) (member_number : Z) (filesize : Z)
  : call :=
  let zs := mkStream [] 0 (to_uInt (OUTBUF_MULT * filesize)) 0 0 initial_state in
  let '(ret_, zs) := inflateInit2 zs (16 + MAX_WBITS) in
  if negb (ret_ =? Z_OK) then mkCall [] f (Exit InitFailed ret_)
  else
    let '(ret_, zs) := inflateGetHeader zs in
    if negb (ret_ =? Z_OK) then mkCall [] f (Exit GetHeaderFailed ret_)
    else
      let zs := set_state
                  (set_h_name true
                     (set_zname (repeat None (Z.to_nat STR_LEN))
                        (set_h_name_max (STR_LEN - 1) (state zs)))) zs in
      let '(inbuf, f) := fread filesize f in
      let zs := set_avail_in (to_uInt (zlen inbuf)) zs in
      if ferror f then mkCall [] f (Exit ReadFailed Z_ERRNO)
      else if avail_in zs =? 0 then mkCall [] f (Exit NoData Z_DATA_ERROR)
      else
        let zs := set_next_in inbuf zs in
        let '(ret_, zs) := inflate zs Z_BLOCK in
        if negb (ret_ =? Z_OK) then mkCall [] f (Exit HeaderInflateFailed ret_)
        else
          match h_time (state zs) with
          | None =>
              (* [mtime = (time_t)zhead.time; localtime; asctime; strlen]
                 on a time that zlib has not written *)
              mkCall [HeaderTitle member_number] f Undefined
          | Some time =>
              let out := header_lines member_number time (state zs) in
              match boundary_loop (Z.to_nat filesize + 1) filesize zs f with
              | (zs, f, Return _) =>
                  mkCall (out ++ [DecompressedSize (total_out zs)]) f
                    (Return (to_int (total_in zs)))
              | (_, f, Exit at_ code) => mkCall out f (Exit at_ code)
              | (_, f, OutOfFuel) => mkCall out f OutOfFuel
              | (_, f, Undefined) => mkCall out f Undefined
              end
          end.

(** ** [main] *)

(** The [while (!feof(f) && fposb != filesize)] loop; [ret_] is [None]
    as long as [ret] has not been assigned. *)
Fixpoint scan (fuel : nat) (filesize : Z) (f : FILE) (fposb : Z) (loopctr : Z)
  (ret_ : option Z) : list line * outcome (option Z) :=
  if negb (feof f) && negb (fposb =? filesize) then
    match fuel with
    | O => ([], OutOfFuel)
    | S fuel' =>
        let fposa := ftell f in
        let begin_ := [Separator; MemberBegin loopctr (ftell f)] in
        let c := get_header_for_zstream f loopctr filesize in
        match result c with
        | Return r =>
            let f := fseek (fposa + r) (file_after c) in
            let fposb := ftell f in
            let end_ := [MemberEnd loopctr (ftell f - 1); Separator] in
            let '(rest, o) := scan fuel' filesize f fposb (loopctr + 1) (Some r) in
            (begin_ ++ printed c ++ end_ ++ rest, o)
        | Exit at_ code => (begin_ ++ printed c, Exit at_ code)
        | OutOfFuel => (begin_ ++ printed c, OutOfFuel)
        | Undefined => (begin_ ++ printed c, Undefined)
        end
    end
  else ([], Return ret_).

(** [main], given what [fopen(argv[1], "r")] finds: [None] when the file
    cannot be opened, otherwise its content. *)
Definition main (file : option (list byte)) : list line * outcome (option Z) :=
  match file with
  | None => ([], Exit OpenFailed 1)
  | Some content =>
      let f := fopen content in
      let filesize := st_size f in
      let fposa := ftell f in
      let fposb := fposa in
      scan (Z.to_nat filesize + 1) filesize f fposb 1 None
  end.

(** * Properties *)

(** ** Vocabulary of the proofs *)

(** The same decoder state with [e] more bytes of input behind the ones
    it has, and [d] more bytes of output space. *)
Definition lift (e : list byte) (d : Z) (s : inflate_state) : inflate_state :=
  mkState (mode s) (last s) (flags s) (check s) (total s) (hold s) (length_ s)
    (offset s) (lit s) (lencode s) (distcode s) (window s) (next s ++ e)
    (left s + d)
    (h_time s) (h_name s) (h_name_max s) (h_done s) (zname s).

(** The input of [s'] is what remains of the input of [s]. *)
Definition suffix (s s' : inflate_state) : Prop :=
  exists p, next s = p ++ next s'.

(** Output accounting between two states of one call: space only
    shrinks, by the number of bytes produced, and never below zero. *)
Definition out_ok (s s' : inflate_state) : Prop :=
  left s' <= left s /\ total s' + left s' = total s + left s /\
  (0 <= left s -> 0 <= left s').

(** A well-behaved decoder computation: it only consumes input and output
    space, and it behaves the same when more input follows or more output
    space is there, except that it then may go on where it had to stop. *)
Record WB {A} (m : M A) : Prop := mkWB {
  wb_ok : forall s a s', m s = Ok a s' ->
      suffix s s' /\ (Inflate.bits_left s' <= Inflate.bits_left s)%nat /\
      out_ok s s';
  wb_stop : forall s w s', m s = Stop w s' ->
      suffix s s' /\ (Inflate.bits_left s' <= Inflate.bits_left s)%nat /\
      out_ok s s';
  wb_sim_ok : forall s e d a s', 0 <= d -> m s = Ok a s' ->
      m (lift e d s) = Ok a (lift e d s');
  wb_sim_data : forall s e d s', 0 <= d -> m s = Stop DataError s' ->
      m (lift e d s) = Stop DataError (lift e d s');
  wb_sim_need : forall s d s', 0 <= d -> m s = Stop NeedInput s' ->
      m (lift [] d s) = Stop NeedInput (lift [] d s');
  wb_sim_full : forall s e s', m s = Stop OutFull s' ->
      m (lift e 0 s) = Stop OutFull (lift e 0 s');
  wb_full_ok : forall s e d s' a s2, 0 <= d -> m s = Stop OutFull s' ->
      m (lift e d s) = Ok a s2 ->
      (length (next s2) <= length (next s') + length e)%nat
}.

(** A computation that takes at least [k] bits when it finishes. *)
Definition consumes {A} (k : nat) (m : M A) : Prop :=
  forall s a s', m s = Ok a s' ->
    (Inflate.bits_left s' + k <= Inflate.bits_left s)%nat.

(** A change of the decoder state that touches neither the input nor the
    output accounting. *)
Definition internal (g : inflate_state -> inflate_state) : Prop :=
  forall s, (forall e d, g (lift e d s) = lift e d (g s)) /\
            next (g s) = next s /\ hold (g s) = hold s /\
            left (g s) = left s /\ total (g s) = total s.

(** A reading of the decoder state that depends neither on the input
    ahead nor on the output space. *)
Definition blind {A} (f : inflate_state -> A) : Prop :=
  forall s e d, f (lift e d s) = f s.

(** Position of a mode in the order in which a stream goes through the
    modes without taking input. *)
Definition rank (m : imode) : nat :=
  match m with
  | HEAD => 19 | FLAGS => 18 | TIME => 17 | OS => 16 | EXLEN => 15
  | EXTRA => 14 | NAME => 13 | COMMENT => 12 | HCRC => 11
  | STORED => 10 | COPY => 10 | TYPE => 9 | TABLE => 8
  | LIT => 8 | MATCH => 8 | LEN => 7
  | CHECK => 6 | LENGTH => 5 | DONE => 0 | BAD => 0
  end%nat.

(** The measure that every turn of the loop of [inflate] decreases. *)
Definition phi (s : inflate_state) : nat :=
  (32 * Inflate.bits_left s + rank (mode s))%nat.

(** A computation that, run in a mode of rank [r], ends below the
    measure it started from. *)
Definition lowers {A} (r : nat) (m : M A) : Prop :=
  forall s a s', m s = Ok a s' ->
    (32 * Inflate.bits_left s' + rank (mode s') <
     32 * Inflate.bits_left s + r)%nat.

(** The three ways in which the loop of [inflate] leaves without a
    turn. *)
Definition leaves (fl : flush) (s : inflate_state) : Prop :=
  mode s = DONE \/ mode s = BAD \/ (mode s = TYPE /\ fl = Z_BLOCK).

(** The modes of the gzip header, with [TYPE], where the header is
    behind, and [BAD]. *)
Definition hmode (m : imode) : bool :=
  match m with
  | HEAD | FLAGS | TIME | OS | EXLEN | EXTRA | NAME | COMMENT | HCRC
  | TYPE | BAD => true
  | _ => false
  end.

(** A computation that produces no output and stays within the header
    modes. *)
Definition quiet {A} (m : M A) : Prop :=
  forall s s', (exists a, m s = Ok a s') \/ (exists w, m s = Stop w s') ->
    left s' = left s /\ total s' = total s /\
    (hmode (mode s) = true -> hmode (mode s') = true).

(** The modes behind the state [TIME] of the header. *)
Definition late (m : imode) : bool :=
  match m with
  | HEAD | FLAGS | TIME => false
  | _ => true
  end.

(** A computation that, behind the state [TIME], leaves the time of the
    header as it is and does not go back before that state, also when it
    stops. *)
Definition timely {A} (m : M A) : Prop :=
  forall s s', (exists a, m s = Ok a s') \/ (exists w, m s = Stop w s') ->
    late (mode s) = true -> h_time s' = h_time s /\ late (mode s') = true.

(** The time of the header has been written once the decoder is past
    the state [TIME]. *)
Definition timed (s : inflate_state) : Prop :=
  late (mode s) = true -> h_time s <> None.

(** The decoder state when the program calls [inflate] for the first
    time: after [inflateInit2], [inflateGetHeader] and the assignments to
    [zhead]. *)
Definition ready_state : inflate_state :=
  set_h_name true
    (set_zname (repeat None (Z.to_nat STR_LEN))
       (set_h_name_max (STR_LEN - 1) (set_h_done 0 initial_state))).

(** The stream at that point, [inbuf] being what the first [fread]
    delivered. *)
Definition open_stream (filesize : Z) (inbuf : list byte) : z_stream :=
  mkStream inbuf (zlen inbuf) (to_uInt (OUTBUF_MULT * filesize)) 0 0
    ready_state.

(** [get_header_for_zstream] on a file of a size that fits [uInt], with
    the branches that cannot be taken removed and the loop, which takes
    one turn, unrolled. *)
Definition member_call (f : FILE) (member_number : Z) : call :=
  let filesize := st_size f in
  let '(inbuf, f1) := fread filesize f in
  if zlen inbuf =? 0 then mkCall [] f1 (Exit NoData Z_DATA_ERROR)
  else
    let '(r1, zs1) := inflate (open_stream filesize inbuf) Z_BLOCK in
    if negb (r1 =? Z_OK) then mkCall [] f1 (Exit HeaderInflateFailed r1)
    else
      match h_time (state zs1) with
      | None => mkCall [HeaderTitle member_number] f1 Undefined
      | Some time =>
          let '(r2, zs2) := inflate zs1 Z_NO_FLUSH in
          if r2 <? 0
          then mkCall (header_lines member_number time (state zs1)) f1
                 (Exit BodyInflateFailed r2)
          else mkCall (header_lines member_number time (state zs1)
                       ++ [DecompressedSize (total_out zs2)])
                 (snd (fread filesize f1))
                 (Return (to_int (total_in zs2)))
      end.

(** The file as the scanner sees it when it starts a member at byte
    [p]: positioned there, with both indicators clear. *)
Definition at_offset (content : list byte) (p : Z) : FILE :=
  mkFile content p false false.

(** The scan of a file, member by member, as the specification tells
    it: from the cursor [p], with member number [n], either the cursor is
    at the end of the file and the scan is done; or the call for the member
    at [p] exits, or goes on from a time that was not written; or it
    returns [r] consumed bytes, the member is reported with the inclusive
    end [p + r - 1], and the scan goes on from the cursor [p + r]. *)
Inductive scan_trace (content : list byte)
  : Z -> Z -> option Z -> list line -> outcome (option Z) -> Prop :=
| trace_done p n ret0 :
    p = zlen content ->
    scan_trace content p n ret0 [] (Return ret0)
| trace_exit p n ret0 at_ code :
    p <> zlen content ->
    result (get_header_for_zstream (at_offset content p) n (zlen content))
      = Exit at_ code ->
    scan_trace content p n ret0
      ([Separator; MemberBegin n p]
       ++ printed (get_header_for_zstream (at_offset content p) n (zlen content)))
      (Exit at_ code)
| trace_undefined p n ret0 :
    p <> zlen content ->
    result (get_header_for_zstream (at_offset content p) n (zlen content))
      = Undefined ->
    scan_trace content p n ret0
      ([Separator; MemberBegin n p]
       ++ printed (get_header_for_zstream (at_offset content p) n (zlen content)))
      Undefined
| trace_member p n ret0 r rest o :
    p <> zlen content ->
    result (get_header_for_zstream (at_offset content p) n (zlen content))
      = Return r ->
    1 <= r <= zlen content - p ->
    scan_trace content (p + r) (n + 1) (Some r) rest o ->
    scan_trace content p n ret0
      ([Separator; MemberBegin n p]
       ++ printed (get_header_for_zstream (at_offset content p) n (zlen content))
       ++ [MemberEnd n (p + r - 1); Separator] ++ rest)
      o.

(** The byte positions at which the output reports a member to begin. *)
Fixpoint begins (l : list line) : list Z :=
  match l with
  | [] => []
  | MemberBegin _ p :: l' => p :: begins l'
  | _ :: l' => begins l'
  end.

(** A computation that, when it finishes, leaves fewer than eight bits
    in [hold] if it found fewer than eight, and does not end the
    stream. *)
Definition neat {A} (m : M A) : Prop :=
  forall s a s', m s = Ok a s' ->
    ((length (hold s) <= 7)%nat -> (length (hold s') <= 7)%nat) /\
    (mode s' = DONE -> mode s = DONE).

(** A computation that never stops for lack of output space. *)
Definition calm {A} (m : M A) : Prop :=
  forall s s', m s <> Stop OutFull s'.

(** A computation that stops for lack of output space only when there is
    none. *)
Definition honest {A} (m : M A) : Prop :=
  forall s s', m s = Stop OutFull s' -> left s' <= 0.

(** The ways of leaving the loop that stay the same when [e] more bytes
    of input follow and [d] more bytes of output space are there. *)
Definition lasting (e : list byte) (d : Z) (l : Inflate.leave) : Prop :=
  match l with
  | Inflate.Halted NeedInput => e = []
  | Inflate.Halted OutFull => d = 0
  | _ => True
  end.

(** The decoder as the program starts it on a member: input [m], room
    for [size] bytes of output. *)
Definition member_start (m : list byte) (size : Z) : inflate_state :=
  set_left size (set_next m ready_state).

(** [m] is a well-formed gzip member that expands to [size] bytes: the
    decoder, given the bytes of [m] and room for [size] bytes, reaches the
    end of the stream having taken all of [m] and written [size] bytes. *)
Definition gzip_member (m : list byte) (size : Z) : Prop :=
  exists s',
    Inflate.run (Inflate.enough (member_start m size)) Z_NO_FLUSH
      (member_start m size) = (Inflate.AtDone, s') /\
    next s' = [] /\ total s' = size.

(** The same, as a check that computes. *)
Definition is_gzip_member (m : list byte) (size : Z) : bool :=
  match Inflate.run (Inflate.enough (member_start m size)) Z_NO_FLUSH
          (member_start m size) with
  | (Inflate.AtDone, s') =>
      match next s' with [] => total s' =? size | _ => false end
  | _ => false
  end.

(** The boundary loop as [get_header_for_zstream] enters it on the file
    [f]: the stream and the file when the loop is left, and the last value
    of [ret]. *)
Definition body_call (f : FILE) : z_stream * FILE * outcome Z :=
  let filesize := st_size f in
  let '(inbuf, f1) := fread filesize f in
  let '(_, zs1) := inflate (open_stream filesize inbuf) Z_BLOCK in
  boundary_loop (Z.to_nat filesize + 1) filesize zs1 f1.

(** ** Files used as examples *)

(** [gzip -9] of 200 zero bytes: 24 bytes on disk. *)
Definition zeros_gz : list byte :=
  [31; 139; 8; 0; 0; 0; 0; 0; 2; 3; 99; 96; 24; 30; 0; 0; 118; 168; 113; 201;
   200; 0; 0; 0].

(** The text "hello hello hello" compressed, with the name "a.txt" and
    the modification time 77: 34 bytes on disk. *)
Definition hello_gz : list byte :=
  [31; 139; 8; 8; 77; 0; 0; 0; 2; 3; 97; 46; 116; 120; 116; 0; 203; 72; 205;
   201; 201; 87; 200; 64; 144; 0; 128; 136; 249; 229; 17; 0; 0; 0].

(** An empty stored block with its trailer: the body of a member that
    expands to nothing. *)
Definition empty_body : list byte := [1; 0; 0; 255; 255; 0; 0; 0; 0; 0; 0; 0; 0].

(** A member whose name field holds 511 times the letter N. *)
Definition long_name_gz : list byte :=
  [31; 139; 8; 8; 0; 0; 0; 0; 0; 3] ++ repeat 78 511 ++ [0] ++ empty_body.

(** The lines of the header report, whatever else is printed. *)
Definition is_header_line (l : line) : bool :=
  match l with
  | HeaderTitle _ | TimeField _ | NameField _ | DoneField _ _ => true
  | _ => false
  end.

(** The claim about a file cut after five bytes, as the specification
    words it: the program fails while parsing the header or on an empty
    read, and no line of a header report has been printed. *)
Definition fails_before_report (content : list byte) : Prop :=
  exists at_ code,
    snd (main (Some content)) = Exit at_ code /\
    (at_ = HeaderInflateFailed \/ at_ = NoData) /\
    existsb is_header_line (fst (main (Some content))) = false.

(** The claim about the scan of a file made of well-formed members, as
    the specification words it, for one member: the member is reported from
    byte 0 to the end of the file and the scan ends normally. *)
Definition reports_whole_file (content : list byte) : Prop :=
  exists lines,
    main (Some content) = (lines, Return (Some (zlen content))) /\
    begins lines = [0] /\
    In (MemberEnd 1 (zlen content - 1)) lines.




(** Whether, on the file [content], the first call of [inflate]
    returns [Z_OK] with the header not complete and its time not written,
    and the program goes on from that time. *)
Definition goes_on_unwritten (content : list byte) : bool :=
  (let '(r, zs) := inflate (open_stream (zlen content) content) Z_BLOCK in
   (r =? Z_OK) && (h_done (state zs) =? 0)
   && match h_time (state zs) with None => true | Some _ => false end)
  && match snd (main (Some content)) with
     | Undefined => true
     | _ => false
     end.

(** The numbers [0, ..., n - 1]. *)
Definition upto (n : nat) : list Z := map Z.of_nat (seq 0 n).

(** The byte positions that the output reports as the ends of
    members. *)
Fixpoint ends (l : list line) : list Z :=
  match l with
  | [] => []
  | MemberEnd _ p :: l' => p :: ends l'
  | _ :: l' => ends l'
  end.

(** A strictly increasing list. *)
Fixpoint increasing (l : list Z) : Prop :=
  match l with
  | [] => True
  | a :: t => match t with [] => True | b :: _ => a < b end /\ increasing t
  end.

(** The number of bytes of the last member in the output, from its begin
    line and its (inclusive) end line; [None] when no member is reported
    to end. *)
Definition last_consumed (l : list line) : option Z :=
  match rev (begins l), rev (ends l) with
  | b :: _, e :: _ => Some (e + 1 - b)
  | _, _ => None
  end.

(** ** The gzip header, as RFC 1952 lays it out *)

(** The fields of a member header: the FTEXT and FHCRC flags, the
    modification time, the extra flags and the operating system, and the
    optional extra field, file name and comment (without their
    terminating zero). *)
Record gz_fields := mkFields {
  f_text : bool;
  f_hcrc : bool;
  f_mtime : Z;
  f_xfl : Z;
  f_os : Z;
  f_extra : option (list byte);
  f_name : option (list byte);
  f_comment : option (list byte)
}.

Definition is_some {A} (o : option A) : bool :=
  match o with Some _ => true | None => false end.

(** The flag byte FLG. *)
Definition flag_byte (h : gz_fields) : Z :=
  Z.b2z (f_text h) + 2 * Z.b2z (f_hcrc h) + 4 * Z.b2z (is_some (f_extra h))
  + 8 * Z.b2z (is_some (f_name h)) + 16 * Z.b2z (is_some (f_comment h)).

Definition fixed_part (h : gz_fields) : list byte :=
  [31; 139; 8; flag_byte h] ++ Inflate.le_bytes 4 (f_mtime h)
  ++ [f_xfl h; f_os h].

Definition extra_part (h : gz_fields) : list byte :=
  match f_extra h with
  | Some x => Inflate.le_bytes 2 (zlen x) ++ x
  | None => []
  end.

Definition text_part (t : option (list byte)) : list byte :=
  match t with
  | Some l => l ++ [0]
  | None => []
  end.

(** The header up to the header CRC. *)
Definition before_crc (h : gz_fields) : list byte :=
  fixed_part h ++ extra_part h ++ text_part (f_name h)
  ++ text_part (f_comment h).

(** The bytes of the header: with the FHCRC flag, the two low bytes of
    the CRC-32 of what precedes them come last. *)
Definition encode_header (h : gz_fields) : list byte :=
  before_crc h
  ++ (if f_hcrc h
      then Inflate.le_bytes 2 (Z.land (Crc32.update 0 (before_crc h)) 0xffff)
      else []).

(** A zero-terminated text holds no zero byte. *)
Definition text_ok (t : option (list byte)) : Prop :=
  match t with
  | Some l => Forall (fun b => 0 < b < 256) l
  | None => True
  end.

(** A well-formed header: every field fits its place. *)
Definition well_formed_header (h : gz_fields) : Prop :=
  0 <= f_mtime h < 2 ^ 32 /\
  is_byte (f_xfl h) /\ is_byte (f_os h) /\
  match f_extra h with Some x => zlen x < 2 ^ 16 | None => True end /\
  text_ok (f_name h) /\ text_ok (f_comment h).

(** The decoder is in mode [m] of the header [h], has read the bytes
    [seen] of it and has [ahead] before it. *)
Definition hdr (h : gz_fields) (m : imode) (seen ahead : list byte)
  (s : inflate_state) : Prop :=
  mode s = m /\ hold s = [] /\ next s = ahead /\
  (m <> HEAD -> m <> FLAGS -> flags s = 8 + 256 * flag_byte h) /\
  (m <> HEAD -> f_hcrc h = true -> check s = Crc32.update 0 seen) /\
  h_done s = (if hmode m && negb (rank m <=? rank TYPE)%nat then 0 else 1).

(** One state leads to another by turns of the loop of [inflate]. *)
Inductive reaches (fl : flush) : inflate_state -> inflate_state -> Prop :=
| reaches_here s : reaches fl s s
| reaches_turn s u t s' :
    ~ leaves fl s -> Inflate.step (mode s) s = Ok u t ->
    reaches fl t s' -> reaches fl s s'.

(** ** Files made of several members *)

(** The byte positions at which the members [ms], laid out one after
    the other from byte [p], begin. *)
Fixpoint starts (p : Z) (ms : list (list byte)) : list Z :=
  match ms with
  | [] => []
  | m :: ms' => p :: starts (p + zlen m) ms'
  end.

(** The positions of their last bytes. *)
Fixpoint stops (p : Z) (ms : list (list byte)) : list Z :=
  match ms with
  | [] => []
  | m :: ms' => (p + zlen m - 1) :: stops (p + zlen m) ms'
  end.

(** The decompressed sizes that the output reports. *)
Fixpoint sizes (l : list line) : list Z :=
  match l with
  | [] => []
  | DecompressedSize n :: l' => n :: sizes l'
  | _ :: l' => sizes l'
  end.

(** The member numbers that the output reports. *)
Fixpoint numbers (l : list line) : list Z :=
  match l with
  | [] => []
  | MemberBegin n _ :: l' => n :: numbers l'
  | _ :: l' => numbers l'
  end.

(** The length of the last of the members [ms], [ret0] when there is
    none. *)
Definition last_length (ret0 : option Z) (ms : list (list byte)) : option Z :=
  match rev ms with
  | m :: _ => Some (zlen m)
  | [] => ret0
  end.

(** [m] is a well-formed member that expands to [size] bytes, which the
    output buffer for a file of [filesize] bytes can hold. *)
Definition fitting (filesize : Z) (ms : list byte * Z) : Prop :=
  gzip_member (fst ms) (snd ms) /\
  snd ms <= to_uInt (OUTBUF_MULT * filesize).

(** The numbers [n], [n + 1], ..., [k] of them. *)
Fixpoint count_from (n : Z) (k : nat) : list Z :=
  match k with
  | O => []
  | S k' => n :: count_from (n + 1) k'
  end.

(** The file that holds the members [mss] one after the other. *)
Definition file_of (mss : list (list byte * Z)) : list byte :=
  concat (map fst mss).

(** ** What the header report shows *)

(** A computation that leaves a reading [f] of the decoder state as it
    was. *)
Definition keeps {A X} (f : inflate_state -> X) (m : M A) : Prop :=
  forall s a s', m s = Ok a s' -> f s' = f s.

(** A reading of the decoder state that does not look at the input. *)
Definition steady {X} (f : inflate_state -> X) : Prop :=
  (forall h s, f (set_hold h s) = f s) /\ (forall n s, f (set_next n s) = f s).

(** The name field of the registered header and the buffer behind it. *)
Definition name_view (s : inflate_state) : bool * Z * list cell :=
  (h_name s, h_name_max s, zname s).

(** The program's [zname] after zlib has been given the bytes [w] of a
    name field: the first 511 of them are stored, the other cells are as
    they were, never written. *)
Definition written (w : list byte) : list cell :=
  map Some (firstn 511 w) ++ repeat None (512 - length (firstn 511 w)).

(** [zname] after the name [l] and its terminating zero. *)
Definition stored_name (l : list byte) : list cell := written (l ++ [0]).

(** What the name line of the report is given for the header [h]. *)
Definition reported_name (h : gz_fields) : name_arg :=
  match f_name h with
  | None => NullName
  | Some l => NameAt (stored_name l)
  end.

(** The decoder is in the state [NAME] of the header [h], and has given
    the bytes [w] of the name to the program's buffer. *)
Definition naming (h : gz_fields) (w : list byte) (s : inflate_state) : Prop :=
  mode s = NAME /\ hold s = [] /\ flags s = 8 + 256 * flag_byte h /\
  h_done s = 0 /\ h_name s = true /\ h_name_max s = 511 /\
  zname s = written w /\ length_ s = zlen (firstn 511 w).

(** What the header report shows of the decoder state: the time and
    the name. *)
Definition report_view (s : inflate_state) : option Z * name_arg :=
  (h_time s, if h_name s then NameAt (zname s) else NullName).

(** The header of [hello_gz]: the name "a.txt", the time 77. *)
Definition hello_header : gz_fields :=
  mkFields false false 77 2 3 None (Some [97; 46; 116; 120; 116]) None.

(** The header of [long_name_gz]: a name of 511 letters N. *)
Definition long_name_header : gz_fields :=
  mkFields false false 0 0 3 None (Some (repeat 78 511%nat)) None.

(** A header with the name "a" and the comment "cc", the time 77. *)
Definition commented_header : gz_fields :=
  mkFields false false 77 2 3 None (Some [97]) (Some [99; 99]).

(** The first thirteen bytes of that header: a file that ends behind
    the first letter of the comment. *)
Definition cut_comment_gz : list byte :=
  [31; 139; 8; 24; 77; 0; 0; 0; 2; 3; 97; 0; 99].

(** A header with a header CRC: the name "ab", the time 5. *)
Definition crc_header_example : gz_fields :=
  mkFields false true 5 2 3 None (Some [97; 98]) None.

(** A computation that stops for lack of input only when it has pulled
    all the input there was. *)
Definition dry {A} (m : M A) : Prop :=
  forall s t, m s = Stop NeedInput t -> next t = [].

(** ** The ranges that a scan reports *)

(** The begin positions [bs] and end positions [es] lay members side by
    side from byte [p] on, within a file of [size] bytes: each member
    begins at the cursor and ends on one of its own bytes, the next one
    begins on the byte behind it; the last member may be without its
    end. *)
Fixpoint tiled (size p : Z) (bs es : list Z) : Prop :=
  match bs with
  | [] => es = []
  | b :: bs' =>
      b = p /\
      match es with
      | [] => bs' = []
      | e :: es' => p <= e < size /\ tiled size (e + 1) bs' es'
      end
  end.

(** The members that end at [es], the cursor being at [p] before them,
    reach the end of the file. *)
Definition covered (size p : Z) (es : list Z) : Prop :=
  match rev es with
  | e :: _ => e = size - 1
  | [] => p = size
  end.

(** A computation that never stops for lack of input. *)
Definition sated {A} (m : M A) : Prop :=
  forall s t, m s <> Stop NeedInput t.

(** ** The decoder monad is well-behaved *)

Section Closure.

Lemma suffix_refl s : suffix s s.
  Proof. exists []. reflexivity. Qed.

Lemma suffix_trans s t u : suffix s t -> suffix t u -> suffix s u.
  Proof.
    intros [p Hp] [q Hq]. exists (p ++ q).
    rewrite Hp, Hq. now rewrite app_assoc.
  Qed.

Lemma suffix_length s t : suffix s t -> (length (next t) <= length (next s))%nat.
  Proof. intros [p Hp]. rewrite Hp, length_app. lia. Qed.

Lemma out_ok_refl s : out_ok s s.
  Proof. unfold out_ok. lia. Qed.

Lemma out_ok_trans s t u : out_ok s t -> out_ok t u -> out_ok s u.
  Proof. unfold out_ok. intros (?&?&?) (?&?&?). repeat split; lia. Qed.

Lemma bind_ok_inv {A B} (m : M A) (k : A -> M B) s b s' :
    bind m k s = Ok b s' -> exists a t, m s = Ok a t /\ k a t = Ok b s'.
  Proof.
    unfold bind. destruct (m s) as [a t|w t]; intros H; [|discriminate].
    now exists a, t.
  Qed.

Lemma bind_stop_inv {A B} (m : M A) (k : A -> M B) s w s' :
    bind m k s = Stop w s' ->
    m s = Stop w s' \/ exists a t, m s = Ok a t /\ k a t = Stop w s'.
  Proof.
    unfold bind. destruct (m s) as [a t|w' t]; intros H.
    - right. now exists a, t.
    - left. congruence.
  Qed.

Lemma bind_ok {A B} (m : M A) (k : A -> M B) s a t :
    m s = Ok a t -> bind m k s = k a t.
  Proof. unfold bind. now intros ->. Qed.

Lemma bind_stop {A B} (m : M A) (k : A -> M B) s w t :
    m s = Stop w t -> bind m k s = Stop w t.
  Proof. unfold bind. now intros ->. Qed.

Lemma WB_ret {A} (a : A) : WB (ret a).
  Proof.
    constructor; unfold ret; intros; try congruence;
      match goal with
      | H : Ok _ _ = Ok _ _ |- _ => inversion H; subst
      end; repeat split; auto using suffix_refl; lia.
  Qed.

Lemma WB_bind {A B} (m : M A) (k : A -> M B) :
    WB m -> (forall a, WB (k a)) -> WB (bind m k).
  Proof.
    intros Hm Hk. constructor.
    - intros s b s' H. apply bind_ok_inv in H as (a & t & H1 & H2).
      destruct (wb_ok _ Hm _ _ _ H1) as (?&?&?).
      destruct (wb_ok _ (Hk a) _ _ _ H2) as (?&?&?).
      split; [|split]; eauto using suffix_trans, out_ok_trans, Nat.le_trans.
    - intros s w s' H. apply bind_stop_inv in H as [H|(a & t & H1 & H2)].
      + eapply wb_stop; eauto.
      + destruct (wb_ok _ Hm _ _ _ H1) as (?&?&?).
        destruct (wb_stop _ (Hk a) _ _ _ H2) as (?&?&?).
        split; [|split]; eauto using suffix_trans, out_ok_trans, Nat.le_trans.
    - intros s e d b s' Hd H. apply bind_ok_inv in H as (a & t & H1 & H2).
      erewrite bind_ok by (eapply wb_sim_ok; eauto).
      eapply wb_sim_ok; eauto.
    - intros s e d s' Hd H. apply bind_stop_inv in H as [H|(a & t & H1 & H2)].
      + erewrite bind_stop; [reflexivity|]. eapply wb_sim_data; eauto.
      + erewrite bind_ok by (eapply wb_sim_ok; eauto).
        eapply wb_sim_data; eauto.
    - intros s d s' Hd H. apply bind_stop_inv in H as [H|(a & t & H1 & H2)].
      + erewrite bind_stop; [reflexivity|]. eapply wb_sim_need; eauto.
      + erewrite bind_ok by (eapply wb_sim_ok; eauto).
        eapply wb_sim_need; eauto.
    - intros s e s' H. apply bind_stop_inv in H as [H|(a & t & H1 & H2)].
      + erewrite bind_stop; [reflexivity|]. eapply wb_sim_full; eauto.
      + erewrite bind_ok by (eapply wb_sim_ok; eauto; lia).
        eapply wb_sim_full; eauto.
    - intros s e d s' b s2 Hd H H'.
      apply bind_stop_inv in H as [H|(a & t & H1 & H2)].
      + apply bind_ok_inv in H' as (a' & t' & H1' & H2').
        pose proof (wb_full_ok _ Hm _ _ _ _ _ _ Hd H H1').
        destruct (wb_ok _ (Hk a') _ _ _ H2') as (Hs&_&_).
        apply suffix_length in Hs. lia.
      + rewrite (bind_ok _ _ _ _ _ (wb_sim_ok _ Hm _ e d _ _ Hd H1)) in H'.
        exact (wb_full_ok _ (Hk a) _ _ _ _ _ _ Hd H2 H').
  Qed.

Lemma WB_gets {A} (f : inflate_state -> A) : blind f -> WB (gets f).
  Proof.
    intros Hf. constructor; unfold gets; intros; try congruence;
      match goal with
      | H : Ok _ _ = Ok _ _ |- _ => inversion H; subst
      end; rewrite ?Hf; repeat split; auto using suffix_refl; lia.
  Qed.

Lemma WB_modify g : internal g -> WB (modify g).
  Proof.
    intros Hg. constructor; unfold modify; intros; try congruence;
      match goal with
      | H : Ok _ _ = Ok _ _ |- _ => inversion H; subst
      end; destruct (Hg s) as (Hc & Hn & Hh & Hl & Ht).
    - unfold suffix, out_ok, Inflate.bits_left. rewrite Hn, Hh, Hl, Ht.
      repeat split; try lia. now exists [].
    - now rewrite Hc.
  Qed.

Lemma WB_bad {A} : WB (@bad A).
  Proof.
    constructor; unfold bad; intros; try congruence;
      match goal with
      | H : Stop _ _ = Stop _ _ |- _ => inversion H; subst
      end; destruct s; unfold suffix, out_ok, Inflate.bits_left; simpl;
      repeat split; try lia; try reflexivity. now exists [].
  Qed.

End Closure.

Section Primitives.
  Import Bits.

Local Ltac crush :=
    unfold suffix, out_ok, Inflate.bits_left, lift; simpl;
    rewrite ?app_nil_r, ?Z.add_0_r, ?length_app; simpl;
    repeat split; try lia; try reflexivity; try congruence;
    try (now exists []); try (now eexists [_]).

Lemma WB_getbit : WB getbit.
  Proof.
    constructor; unfold getbit; intros s; intros;
      destruct s as [? ? ? ? ? h ? ? ? ? ? ? n ? ? ? ? ? ?]; simpl in *;
      (destruct h as [|b h]; [destruct n as [|x n]|]); simpl in *;
      try congruence;
      repeat match goal with
      | H : Ok _ _ = Ok _ _ |- _ => inversion H; subst; clear H
      | H : Stop _ _ = Stop _ _ |- _ => inversion H; subst; clear H
      end; crush.
  Qed.

Lemma WB_getbits n : WB (getbits n).
  Proof.
    induction n; simpl.
    - apply WB_ret.
    - apply WB_bind; [apply WB_getbit|]. intros b.
      apply WB_bind; [assumption|]. intros v. apply WB_ret.
  Qed.

Lemma WB_bytebits : WB bytebits.
  Proof.
    constructor; unfold bytebits; intros s; intros; try congruence;
      match goal with
      | H : Ok _ _ = Ok _ _ |- _ => inversion H; subst; clear H
      end;
      destruct s as [? ? ? ? ? h ? ? ? ? ? ? n ? ? ? ? ? ?]; crush.
    rewrite length_skipn. lia.
  Qed.

Lemma WB_take_byte : WB take_byte.
  Proof.
    constructor; unfold take_byte; intros s; intros;
      destruct s as [? ? ? ? ? h ? ? ? ? ? ? n ? ? ? ? ? ?]; simpl in *;
      destruct n as [|x n]; simpl in *; try congruence;
      repeat match goal with
      | H : Ok _ _ = Ok _ _ |- _ => inversion H; subst; clear H
      | H : Stop _ _ = Stop _ _ |- _ => inversion H; subst; clear H
      end; crush.
  Qed.

Lemma WB_need_out : WB need_out.
  Proof.
    constructor; unfold need_out; intros s; intros;
      destruct s as [? ? ? ? ? h ? ? ? ? ? ? n l ? ? ? ? ?]; simpl in *;
      repeat match goal with
      | H : context [?a <=? ?b] |- _ => destruct (Z.leb_spec a b)
      | |- context [?a <=? ?b] => destruct (Z.leb_spec a b)
      end; try congruence; try lia;
      repeat match goal with
      | H : Ok _ _ = Ok _ _ |- _ => inversion H; subst; clear H
      | H : Stop _ _ = Stop _ _ |- _ => inversion H; subst; clear H
      end; crush.
  Qed.

Lemma WB_emit b : WB (emit b).
  Proof.
    constructor; unfold emit; intros s; intros;
      destruct s as [? ? ? ? ? h ? ? ? ? ? ? n l ? ? ? ? ?]; simpl in *;
      repeat match goal with
      | H : context [?a <=? ?b] |- _ => destruct (Z.leb_spec a b)
      | |- context [?a <=? ?b] => destruct (Z.leb_spec a b)
      end; try congruence; try lia;
      repeat match goal with
      | H : Ok _ _ = Ok _ _ |- _ => inversion H; subst; clear H
      | H : Stop _ _ = Stop _ _ |- _ => inversion H; subst; clear H
      end; unfold put_byte; crush.
    do 2 f_equal. lia.
  Qed.

Lemma length_of_bytes l : length (of_bytes l) = (8 * length l)%nat.
  Proof.
    unfold of_bytes. induction l as [|b l IH]; simpl; [reflexivity|].
    rewrite IH. lia.
  Qed.

Lemma WB_atomic {A} (m : M A) : WB m -> WB (atomic m).
  Proof.
    intros Hm. constructor; unfold atomic.
    - intros s a s' H. destruct (m s) as [b t|[] t] eqn:E; try discriminate;
        inversion H; subst; eapply wb_ok; eauto.
    - intros s w s' H. destruct (m s) as [b t|[] t] eqn:E; try discriminate;
        inversion H; subst; try (eapply wb_stop; now eauto).
      destruct s; unfold suffix, out_ok, Inflate.bits_left, slurp; simpl.
      rewrite length_app, length_of_bytes. repeat split; try lia.
      eexists. now rewrite app_nil_r.
    - intros s e d a s' Hd H. destruct (m s) as [b t|[] t] eqn:E;
        try discriminate; inversion H; subst.
      now rewrite (wb_sim_ok _ Hm _ e d _ _ Hd E).
    - intros s e d s' Hd H. destruct (m s) as [b t|[] t] eqn:E;
        try discriminate; inversion H; subst.
      now rewrite (wb_sim_data _ Hm _ e d _ Hd E).
    - intros s d s' Hd H. destruct (m s) as [b t|[] t] eqn:E;
        try discriminate; inversion H; subst.
      rewrite (wb_sim_need _ Hm _ d _ Hd E).
      destruct s; unfold slurp, lift; simpl. now rewrite !app_nil_r.
    - intros s e s' H. destruct (m s) as [b t|[] t] eqn:E;
        try discriminate; inversion H; subst.
      now rewrite (wb_sim_full _ Hm _ e _ E).
    - intros s e d s' a s2 Hd H H'. destruct (m s) as [b t|[] t] eqn:E;
        try discriminate; inversion H; subst.
      destruct (m (lift e d s)) as [b' t'|[] t'] eqn:E'; try discriminate;
        inversion H'; subst.
      eapply wb_full_ok; eauto.
  Qed.

End Primitives.

(** Side conditions of [WB_gets] and [WB_modify], and the proof that a
    computation built from the primitives is well-behaved. *)
Ltac side :=
  first
    [ progress (let x := fresh "x" in
                intros x ? ?; destruct x; reflexivity)
    | let x := fresh "x" in
      intros x; destruct x;
      unfold Inflate.crc_header, Inflate.store_name, Inflate.finish_header, lift; simpl;
      repeat split; intros;
      repeat match goal with
             | |- context [if ?c then _ else _] =>
                 destruct c eqn:?; simpl in *
             end; first [reflexivity | congruence] ].

Ltac wb :=
  repeat first
    [ apply WB_ret | apply WB_bad | apply WB_getbit | apply WB_getbits
    | apply WB_bytebits | apply WB_take_byte | apply WB_need_out
    | apply WB_emit | apply WB_atomic
    | apply WB_bind; [|intros]
    | apply WB_gets; side
    | apply WB_modify; side
    | assumption
    | match goal with
      | |- WB (if ?c then _ else _) => destruct c
      | |- WB (match ?x with _ => _ end) => destruct x
      | |- WB (let '(_, _) := ?x in _) => destruct x
      end ].

Section Steps.
  Import Bits Inflate.

Lemma WB_decode h : forall code first, WB (Huffman.decode h code first).
  Proof. induction h as [|syms h IH]; intros; simpl; wb. apply IH. Qed.

Lemma WB_getmany n k : WB (getmany n k).
  Proof. induction n; simpl; wb. Qed.

Lemma WB_decode_codelen lh : WB (decode_codelen lh).
  Proof. unfold decode_codelen. wb. apply WB_decode. Qed.

Lemma WB_read_lens fuel lh want : forall acc, WB (read_lens fuel lh want acc).
  Proof.
    induction fuel as [|fuel IH]; intros; simpl; wb;
      try apply WB_decode_codelen; try apply IH.
  Qed.

Lemma WB_skip_extra n : WB (skip_extra n).
  Proof. induction n; simpl; wb. Qed.

Lemma WB_copy_stored n : WB (copy_stored n).
  Proof. induction n; simpl; wb. Qed.

Lemma WB_copy_match n : WB (copy_match n).
  Proof. induction n; simpl; wb. Qed.

Lemma WB_step m : WB (step m).
  Proof.
    destruct m; simpl;
      unfold step_HEAD, step_FLAGS, step_TIME, step_OS, step_EXLEN, step_EXTRA,
        step_NAME, step_COMMENT, step_HCRC, step_TYPE, step_STORED, step_COPY,
        step_TABLE, step_LEN, step_LIT, step_MATCH, step_CHECK, step_LENGTH;
      wb;
      auto using WB_decode, WB_getmany, WB_read_lens, WB_skip_extra,
        WB_copy_stored, WB_copy_match.
  Qed.

End Steps.

(** ** Every turn of the loop of [inflate] makes progress *)

Section Fuel.
  Import Bits Inflate.

Lemma rank_bound m : (rank m < 32)%nat.
  Proof. destruct m; simpl; lia. Qed.

Lemma consumes_getbit : consumes 1 getbit.
  Proof.
    intros s a s'. unfold getbit, bits_left.
    destruct s as [? ? ? ? ? h ? ? ? ? ? ? n ? ? ? ? ? ?]; simpl.
    destruct h; [destruct n|]; intros H; inversion H; subst; simpl; lia.
  Qed.

Lemma consumes_take_byte : consumes 1 take_byte.
  Proof.
    intros s a s'. unfold take_byte, bits_left.
    destruct s as [? ? ? ? ? h ? ? ? ? ? ? n ? ? ? ? ? ?]; simpl.
    destruct n; intros H; inversion H; subst; simpl; lia.
  Qed.

Lemma consumes_bind_l {A B} k (m : M A) (f : A -> M B) :
    consumes k m -> (forall a, WB (f a)) -> consumes k (bind m f).
  Proof.
    intros Hm Hf s b s' H. apply bind_ok_inv in H as (a & t & H1 & H2).
    apply Hm in H1. destruct (wb_ok _ (Hf a) _ _ _ H2) as (_ & ? & _). lia.
  Qed.

Lemma consumes_getbits n : consumes 1 (getbits (S n)).
  Proof.
    simpl. apply consumes_bind_l; [apply consumes_getbit|]. intros; wb.
  Qed.

Lemma consumes_decode h code first : consumes 1 (Huffman.decode h code first).
  Proof.
    destruct h as [|syms h]; simpl.
    - intros s a s' H. discriminate.
    - apply consumes_bind_l; [apply consumes_getbit|]. intros; wb.
      apply WB_decode.
  Qed.

Lemma consumes_atomic {A} k (m : M A) : consumes k m -> consumes k (atomic m).
  Proof.
    intros Hm s a s' H. unfold atomic in H.
    destruct (m s) as [b t|[] t] eqn:E; try discriminate; inversion H; subst;
      eauto.
  Qed.

Lemma lowers_consumes {A} r (m : M A) : consumes 1 m -> lowers r m.
  Proof.
    intros Hm s a s' H. apply Hm in H. pose proof (rank_bound (mode s')). lia.
  Qed.

Lemma lowers_bind_r {A B} r (m : M A) (f : A -> M B) :
    WB m -> (forall a, lowers r (f a)) -> lowers r (bind m f).
  Proof.
    intros Hm Hf s b s' H. apply bind_ok_inv in H as (a & t & H1 & H2).
    destruct (wb_ok _ Hm _ _ _ H1) as (_ & ? & _). apply Hf in H2. lia.
  Qed.

Lemma lowers_modify r g :
    (forall s, bits_left (g s) = bits_left s /\ (rank (mode (g s)) < r)%nat) ->
    lowers r (modify g).
  Proof.
    intros Hg s a s' H. inversion H; subst. destruct (Hg s). lia.
  Qed.

Lemma lowers_bad {A} r : lowers r (@bad A).
  Proof. intros s a s' H. discriminate. Qed.

Lemma lowers_atomic {A} r (m : M A) : lowers r m -> lowers r (atomic m).
  Proof.
    intros Hm s a s' H. unfold atomic in H.
    destruct (m s) as [b t|[] t] eqn:E; try discriminate; inversion H; subst;
      eauto.
  Qed.

Local Ltac eats :=
    solve [ repeat first
      [ apply consumes_atomic
      | apply consumes_getbit | apply consumes_getbits | apply consumes_take_byte
      | apply consumes_decode
      | apply consumes_bind_l;
        [|intros; wb;
          auto using WB_decode, WB_getmany, WB_read_lens, WB_skip_extra,
            WB_copy_stored, WB_copy_match] ] ].

Local Ltac low :=
    repeat first
      [ apply lowers_bad
      | apply lowers_consumes; eats
      | apply lowers_modify;
        let x := fresh "x" in
        intros x; destruct x; unfold bits_left; simpl; split; lia
      | apply lowers_atomic
      | apply lowers_bind_r;
        [ solve [wb; auto using WB_decode, WB_getmany, WB_read_lens,
                   WB_skip_extra, WB_copy_stored, WB_copy_match]
        | intros ]
      | match goal with
        | |- lowers _ (if ?c then _ else _) => destruct c
        end ].

Lemma step_lowers m : m <> DONE -> m <> BAD -> lowers (rank m) (step m).
  Proof.
    intros H1 H2. destruct m; try congruence; simpl;
      unfold step_HEAD, step_FLAGS, step_TIME, step_OS, step_EXLEN, step_EXTRA,
        step_NAME, step_COMMENT, step_HCRC, step_TYPE, step_STORED, step_COPY,
        step_TABLE, step_LEN, step_LIT, step_MATCH, step_CHECK, step_LENGTH;
      low.
  Qed.

End Fuel.

(** ** The loop of [inflate] *)

Section Run.
Import Bits Inflate.

Lemma leaves_dec fl s : {leaves fl s} + {~ leaves fl s}.
Proof.
  unfold leaves. destruct (mode s), fl; try (left; tauto);
    right; intros [H|[H|[H1 H2]]]; discriminate.
Qed.

Lemma run_leaves n fl s :
  leaves fl s ->
  run (S n) fl s =
    (match mode s with
     | DONE => AtDone | BAD => AtBad | _ => AtBlock
     end, s).
Proof.
  intros [H|[H|[H1 H2]]]; simpl; try rewrite H; try rewrite H1;
    try rewrite H2; reflexivity.
Qed.

Lemma run_turn n fl s :
  ~ leaves fl s ->
  run (S n) fl s =
    match step (mode s) s with
    | Ok _ s' => run n fl s'
    | Stop w s' => (Halted w, s')
    end.
Proof.
  unfold leaves. intros H. simpl.
  destruct (mode s) eqn:E, fl; try reflexivity; exfalso; apply H; tauto.
Qed.

Lemma turn_lowers fl s a s' :
  ~ leaves fl s -> step (mode s) s = Ok a s' -> (phi s' < phi s)%nat.
Proof.
  intros H E. unfold phi. eapply step_lowers; eauto;
    intros C; apply H; unfold leaves; tauto.
Qed.

(** More turns than [phi] counts change nothing: the loop has left
    before they are used up. *)
Lemma run_fuel fl : forall n m s,
  (phi s < n)%nat -> (phi s < m)%nat -> run n fl s = run m fl s.
Proof.
  induction n as [|n IH]; intros m s Hn Hm; [lia|].
  destruct m as [|m]; [lia|].
  destruct (leaves_dec fl s) as [L|L].
  - now rewrite !run_leaves.
  - rewrite !run_turn by assumption.
    destruct (step (mode s) s) as [a s'|w s'] eqn:E; [|reflexivity].
    pose proof (turn_lowers _ _ _ _ L E). apply IH; lia.
Qed.

Lemma enough_phi s : (phi s < enough s)%nat.
Proof. unfold phi, enough. pose proof (rank_bound (mode s)). lia. Qed.

Lemma run_enough fl s n :
  (enough s <= n)%nat -> run n fl s = run (enough s) fl s.
Proof.
  intros H. pose proof (enough_phi s). apply run_fuel; lia.
Qed.

(** The turns granted by [inflate] are never used up. *)
Lemma run_no_turns fl : forall n s l s',
  (phi s < n)%nat -> run n fl s = (l, s') -> l <> Turns.
Proof.
  induction n as [|n IH]; intros s l s' Hn H; [lia|].
  destruct (leaves_dec fl s) as [L|L].
  - rewrite run_leaves in H by assumption.
    destruct (mode s); inversion H; discriminate.
  - rewrite run_turn in H by assumption.
    destruct (step (mode s) s) as [u t|w t] eqn:E.
    + pose proof (turn_lowers _ _ _ _ L E). eapply IH; eauto. lia.
    + inversion H; subst. discriminate.
Qed.

(** What the loop returns, and the state it leaves in. *)
Lemma run_result fl : forall n s l s',
  run n fl s = (l, s') ->
  suffix s s' /\ out_ok s s' /\ (l = AtDone -> mode s' = DONE) /\
  (bits_left s' <= bits_left s)%nat.
Proof.
  induction n as [|n IH]; intros s l s' H.
  - inversion H; subst. split; [apply suffix_refl|].
    split; [apply out_ok_refl|]. split; [discriminate|lia].
  - destruct (leaves_dec fl s) as [L|L].
    + rewrite run_leaves in H by assumption. inversion H; subst.
      split; [apply suffix_refl|]. split; [apply out_ok_refl|].
      split; [|lia].
      destruct L as [L|[L|[L _]]]; rewrite L; auto; discriminate.
    + rewrite run_turn in H by assumption.
      destruct (step (mode s) s) as [u t|w t] eqn:E.
      * destruct (wb_ok _ (WB_step _) _ _ _ E) as (?&?&?).
        destruct (IH t l s' H) as (?&?&?&?).
        split; [eauto using suffix_trans|].
        split; [eauto using out_ok_trans|]. split; [assumption|lia].
      * destruct (wb_stop _ (WB_step _) _ _ _ E) as (?&?&?).
        inversion H; subst. split; auto. split; auto. split; auto.
        discriminate.
Qed.

(** A run that gets past [HEAD] has taken input. *)
Lemma run_head_consumes fl n s l s' :
  run n fl s = (l, s') -> mode s = HEAD ->
  l = AtDone \/ l = AtBlock -> (bits_left s' < bits_left s)%nat.
Proof.
  intros H Hm Hl. destruct n as [|n].
  - inversion H; subst. destruct Hl; discriminate.
  - assert (L : ~ leaves fl s).
    { unfold leaves. rewrite Hm. intros [?|[?|[? _]]]; discriminate. }
    rewrite run_turn in H by assumption. rewrite Hm in H.
    destruct (step HEAD s) as [u t|w t] eqn:E.
    + assert (Hc : consumes 1 (step HEAD)).
      { change (step HEAD) with step_HEAD. unfold step_HEAD.
        apply consumes_atomic.
        apply consumes_bind_l; [apply consumes_getbits|]. intros; wb. }
      apply Hc in E. destruct (run_result _ _ _ _ _ H) as (_&_&_&?). lia.
    + inversion H; subst. destruct Hl; discriminate.
Qed.

End Run.

(** ** The header modes produce no output *)

Section Quiet.
Import Bits Inflate.

Lemma quiet_ret {A} (a : A) : quiet (ret a).
Proof.
  intros s s' [[b H]|[w H]]; inversion H; subst; auto.
Qed.

Lemma quiet_bind {A B} (m : M A) (k : A -> M B) :
  quiet m -> (forall a, quiet (k a)) -> quiet (bind m k).
Proof.
  intros Hm Hk s s' [[b H]|[w H]].
  - apply bind_ok_inv in H as (a & t & H1 & H2).
    destruct (Hm s t) as (?&?&?); [eauto|].
    destruct (Hk a t s') as (?&?&?); [eauto|]. repeat split; try lia; auto.
  - apply bind_stop_inv in H as [H|(a & t & H1 & H2)].
    + apply Hm; eauto.
    + destruct (Hm s t) as (?&?&?); [eauto|].
      destruct (Hk a t s') as (?&?&?); [eauto|]. repeat split; try lia; auto.
Qed.

Lemma quiet_gets {A} (f : inflate_state -> A) : quiet (gets f).
Proof.
  intros s s' [[b H]|[w H]]; inversion H; subst; auto.
Qed.

Lemma quiet_modify g :
  (forall s, left (g s) = left s /\ total (g s) = total s /\
             (hmode (mode s) = true -> hmode (mode (g s)) = true)) ->
  quiet (modify g).
Proof.
  intros Hg s s' [[b H]|[w H]]; inversion H; subst; apply Hg.
Qed.

Lemma quiet_bad {A} : quiet (@bad A).
Proof.
  intros s s' [[b H]|[w H]]; inversion H; subst. destruct s; simpl; auto.
Qed.

Lemma quiet_getbit : quiet getbit.
Proof.
  intros s s' H. unfold getbit in H.
  destruct s as [? ? ? ? ? h ? ? ? ? ? ? n ? ? ? ? ? ?]; simpl in *.
  destruct h; [destruct n|]; destruct H as [[x0 H]|[w0 H]]; inversion H; subst;
    simpl; auto.
Qed.

Lemma quiet_getbits n : quiet (getbits n).
Proof.
  induction n; simpl; [apply quiet_ret|].
  apply quiet_bind; [apply quiet_getbit|]. intros.
  apply quiet_bind; [assumption|]. intros. apply quiet_ret.
Qed.

Lemma quiet_take_byte : quiet take_byte.
Proof.
  intros s s' H. unfold take_byte in H.
  destruct s as [? ? ? ? ? h ? ? ? ? ? ? n ? ? ? ? ? ?]; simpl in *.
  destruct n; destruct H as [[x0 H]|[w0 H]]; inversion H; subst; simpl; auto.
Qed.

Lemma quiet_atomic {A} (m : M A) : quiet m -> quiet (atomic m).
Proof.
  intros Hm s s' H. unfold atomic in H.
  destruct (m s) as [b t|[] t] eqn:E; destruct H as [[c H]|[w H]];
    inversion H; subst; try (apply Hm; rewrite E; now eauto).
  destruct s; simpl; auto.
Qed.

Lemma quiet_skip_extra n : quiet (skip_extra n).
Proof.
  induction n; simpl; [apply quiet_ret|].
  apply quiet_bind; [apply quiet_take_byte|]. intros.
  apply quiet_bind; [|intros; assumption].
  apply quiet_modify. intros s; destruct s; unfold crc_header; simpl.
  repeat match goal with
         | |- context [if ?c then _ else _] => destruct c eqn:?; simpl in *
         end; auto.
Qed.

Local Ltac hush :=
  repeat first
    [ apply quiet_ret | apply quiet_bad | apply quiet_gets
    | apply quiet_getbits | apply quiet_take_byte | apply quiet_atomic
    | apply quiet_skip_extra
    | apply quiet_bind; [|intros]
    | apply quiet_modify;
      let x := fresh "x" in
      intros x; destruct x;
      unfold crc_header, store_name, finish_header; simpl;
      repeat match goal with
             | |- context [if ?c then _ else _] => destruct c eqn:?; simpl in *
             end; auto
    | match goal with
      | |- quiet (if ?c then _ else _) => destruct c
      end ].

Lemma quiet_header m :
  hmode m = true -> m <> TYPE -> m <> BAD -> quiet (step m).
Proof.
  intros H1 H2 H3. destruct m; try discriminate; try congruence; simpl;
    unfold step_HEAD, step_FLAGS, step_TIME, step_OS, step_EXLEN, step_EXTRA,
      step_NAME, step_COMMENT, step_HCRC;
    hush.
Qed.

(** Under [Z_BLOCK] a stream that is in its header stays there, up to
    [TYPE], and writes nothing. *)
Lemma run_block_quiet : forall n s l s',
  hmode (mode s) = true -> run n Z_BLOCK s = (l, s') ->
  left s' = left s /\ total s' = total s /\ hmode (mode s') = true.
Proof.
  induction n as [|n IH]; intros s l s' Hm H.
  - inversion H; subst. auto.
  - destruct (leaves_dec Z_BLOCK s) as [L|L].
    + rewrite run_leaves in H by assumption. inversion H; subst. auto.
    + rewrite run_turn in H by assumption.
      assert (Hq : quiet (step (mode s))).
      { apply quiet_header; auto; intros C; apply L; unfold leaves; auto. }
      destruct (step (mode s) s) as [u t|w t] eqn:E.
      * destruct (Hq s t) as (?&?&?); [eauto|].
        destruct (IH t l s') as (?&?&?); auto. repeat split; try lia; auto.
      * destruct (Hq s t) as (?&?&?); [eauto|].
        inversion H; subst; auto.
Qed.

End Quiet.

(** ** When the time of the header is written *)

Section Timed.
Import Bits Inflate.

Lemma timely_ret {A} (a : A) : timely (ret a).
Proof.
  intros s s' [[b H]|[w H]]; inversion H; subst; auto.
Qed.

Lemma timely_bind {A B} (m : M A) (k : A -> M B) :
  timely m -> (forall a, timely (k a)) -> timely (bind m k).
Proof.
  intros Hm Hk s s' [[b H]|[w H]] Ht.
  - apply bind_ok_inv in H as (a & t & H1 & H2).
    destruct (Hm s t) as (E1 & L1); [eauto|assumption|].
    destruct (Hk a t s') as (E2 & L2); [eauto|assumption|].
    split; [congruence|assumption].
  - apply bind_stop_inv in H as [H|(a & t & H1 & H2)].
    + apply (Hm s s'); eauto.
    + destruct (Hm s t) as (E1 & L1); [eauto|assumption|].
      destruct (Hk a t s') as (E2 & L2); [eauto|assumption|].
      split; [congruence|assumption].
Qed.

Lemma timely_gets {A} (f : inflate_state -> A) : timely (gets f).
Proof.
  intros s s' [[b H]|[w H]]; inversion H; subst; auto.
Qed.

Lemma timely_modify g :
  (forall s, late (mode s) = true ->
             h_time (g s) = h_time s /\ late (mode (g s)) = true) ->
  timely (modify g).
Proof.
  intros Hg s s' [[b H]|[w H]]; inversion H; subst; apply Hg.
Qed.

Lemma timely_bad {A} : timely (@bad A).
Proof.
  intros s s' [[b H]|[w H]]; inversion H; subst. destruct s; simpl; auto.
Qed.

Lemma timely_getbit : timely getbit.
Proof.
  intros s s' H. unfold getbit in H.
  destruct s as [? ? ? ? ? h ? ? ? ? ? ? n ? ? ? ? ? ?]; simpl in *.
  destruct h; [destruct n|]; destruct H as [[x0 H]|[w0 H]]; inversion H; subst;
    simpl; auto.
Qed.

Lemma timely_getbits n : timely (getbits n).
Proof.
  induction n; simpl; [apply timely_ret|].
  apply timely_bind; [apply timely_getbit|]. intros.
  apply timely_bind; [assumption|]. intros. apply timely_ret.
Qed.

Lemma timely_take_byte : timely take_byte.
Proof.
  intros s s' H. unfold take_byte in H.
  destruct s as [? ? ? ? ? h ? ? ? ? ? ? n ? ? ? ? ? ?]; simpl in *.
  destruct n; destruct H as [[x0 H]|[w0 H]]; inversion H; subst; simpl; auto.
Qed.

Lemma timely_atomic {A} (m : M A) : timely m -> timely (atomic m).
Proof.
  intros Hm s s' H. unfold atomic in H.
  destruct (m s) as [b t|[] t] eqn:E; destruct H as [[c H]|[w H]];
    inversion H; subst; try (apply Hm; rewrite E; now eauto).
  destruct s; simpl; auto.
Qed.

Local Ltac punctual :=
  let x := fresh "x" in
  let Hx := fresh "Hx" in
  intros x Hx; destruct x;
  unfold crc_header, store_name, finish_header; simpl in *;
  repeat match goal with
         | |- context [if ?c then _ else _] => destruct c eqn:?; simpl in *
         end; auto.

Lemma timely_skip_extra n : timely (skip_extra n).
Proof.
  induction n; simpl; [apply timely_ret|].
  apply timely_bind; [apply timely_take_byte|]. intros.
  apply timely_bind; [|intros; assumption].
  apply timely_modify. punctual.
Qed.

Local Ltac tick :=
  repeat first
    [ apply timely_ret | apply timely_bad | apply timely_gets
    | apply timely_getbits | apply timely_take_byte | apply timely_atomic
    | apply timely_skip_extra
    | apply timely_bind; [|intros]
    | apply timely_modify; punctual
    | match goal with
      | |- timely (if ?c then _ else _) => destruct c
      end ].

(** No state of the header behind [TIME] touches the time, and none
    leads back before it. *)
Lemma timely_header m :
  hmode m = true -> late m = true -> m <> TYPE -> m <> BAD ->
  timely (step m).
Proof.
  intros H1 H2 H3 H4. destruct m; try discriminate; try congruence; simpl;
    unfold step_OS, step_EXLEN, step_EXTRA, step_NAME, step_COMMENT, step_HCRC;
    tick.
Qed.

Lemma atomic_ok_inv {A} (m : M A) s a t : atomic m s = Ok a t -> m s = Ok a t.
Proof.
  unfold atomic. destruct (m s) as [b u|[] u]; intros H;
    try discriminate; exact H.
Qed.

(** A turn of the loop in the header leaves the time written, unless
    it leads to one of the states before [OS]. *)
Lemma step_timed s u t :
  hmode (mode s) = true -> mode s <> TYPE -> mode s <> BAD ->
  timed s -> step (mode s) s = Ok u t -> timed t.
Proof.
  intros H1 H2 H3 Ht E.
  destruct (late (mode s)) eqn:El.
  { destruct (timely_header (mode s) H1 El H2 H3 s t) as (Et & _);
      [eauto|assumption|].
    intros _. rewrite Et. now apply Ht. }
  intros Hl.
  destruct (mode s) eqn:Em; try discriminate; cbn [step] in E.
  - unfold step_HEAD in E. apply atomic_ok_inv in E.
    apply bind_ok_inv in E as (v & s1 & _ & E).
    destruct (v =? 35615).
    + inversion E; subst. discriminate.
    + apply bind_ok_inv in E as (? & ? & _ & E). discriminate.
  - unfold step_FLAGS in E. apply atomic_ok_inv in E.
    apply bind_ok_inv in E as (v & s1 & _ & E).
    apply bind_ok_inv in E as (? & s2 & _ & E).
    destruct (negb _); [discriminate|].
    destruct (negb _); [discriminate|].
    inversion E; subst. discriminate.
  - unfold step_TIME in E. apply atomic_ok_inv in E.
    apply bind_ok_inv in E as (v & s1 & _ & E).
    inversion E; subst. unfold crc_header.
    destruct (Z.testbit _ 9); cbn; discriminate.
Qed.

(** When the first call of [inflate], under [Z_BLOCK], comes to the
    first block, the time of the header is written. *)
Lemma run_block_timed : forall n s l s',
  hmode (mode s) = true -> timed s -> run n Z_BLOCK s = (l, s') ->
  l = AtBlock -> h_time s' <> None.
Proof.
  induction n as [|n IH]; intros s l s' Hm Ht H Hl.
  - inversion H; subst. discriminate.
  - destruct (leaves_dec Z_BLOCK s) as [L|L].
    + rewrite run_leaves in H by assumption. unfold timed in Ht.
      destruct L as [L|[L|[L _]]]; rewrite L in *; inversion H; subst;
        try discriminate. apply Ht. reflexivity.
    + rewrite run_turn in H by assumption.
      assert (N1 : mode s <> TYPE) by (intros C; apply L; unfold leaves; auto).
      assert (N2 : mode s <> BAD) by (intros C; apply L; unfold leaves; auto).
      destruct (step (mode s) s) as [u t|w t] eqn:E.
      * apply (IH t l s'); auto.
        -- apply (quiet_header (mode s) Hm N1 N2 s t); eauto.
        -- destruct u. eapply step_timed; eauto.
      * inversion H; subst. discriminate.
Qed.

(** Behind the state [TIME], the first call of [inflate] leaves the time
    of the header as it found it, however the call ends. *)
Lemma run_keeps_time : forall n s l s',
  hmode (mode s) = true -> late (mode s) = true ->
  run n Z_BLOCK s = (l, s') -> h_time s' = h_time s.
Proof.
  induction n as [|n IH]; intros s l s' Hm Hl H.
  - inversion H; subst. reflexivity.
  - destruct (leaves_dec Z_BLOCK s) as [L|L].
    + rewrite run_leaves in H by assumption. inversion H; subst. reflexivity.
    + rewrite run_turn in H by assumption.
      assert (N1 : mode s <> TYPE) by (intros C; apply L; unfold leaves; auto).
      assert (N2 : mode s <> BAD) by (intros C; apply L; unfold leaves; auto).
      pose proof (timely_header (mode s) Hm Hl N1 N2) as Hk.
      destruct (step (mode s) s) as [u t|w t] eqn:E.
      * destruct (Hk s t) as (Et & Lt); [eauto|assumption|].
        rewrite <- Et. apply (IH t l s'); auto.
        apply (quiet_header (mode s) Hm N1 N2 s t); eauto.
      * inversion H; subst. apply (Hk s s'); eauto.
Qed.

End Timed.

(** ** The file and the calls of [fread] *)

Section Files.

Lemma zlen_nonneg {A} (l : list A) : 0 <= zlen l.
Proof. unfold zlen. lia. Qed.

Lemma zlen_app {A} (l l' : list A) : zlen (l ++ l') = zlen l + zlen l'.
Proof. unfold zlen. rewrite length_app. lia. Qed.

Lemma to_uInt_small x : 0 <= x < 2 ^ 32 -> to_uInt x = x.
Proof. intros H. unfold to_uInt. now apply Z.mod_small. Qed.

Lemma to_int_small x : 0 <= x < 2 ^ 31 -> to_int x = x.
Proof. intros H. unfold to_int. rewrite Z.mod_small; lia. Qed.

Lemma fread_fields n f :
  contents (snd (fread n f)) = contents f /\ err (snd (fread n f)) = err f.
Proof.
  unfold fread. destruct (eof f || (n <=? 0)); simpl; auto.
Qed.

Lemma fread_length n f :
  0 <= pos f -> zlen (fst (fread n f)) <= st_size f - pos f \/
                fst (fread n f) = [].
Proof.
  unfold fread. intros Hp. destruct (eof f || (n <=? 0)); simpl; auto.
  destruct (Z_le_gt_dec (pos f) (st_size f)).
  - left. unfold zlen, st_size, zlen in *.
    rewrite length_firstn, length_skipn. lia.
  - right. rewrite skipn_all2; [now rewrite firstn_nil|].
    unfold st_size, zlen in *. lia.
Qed.

Lemma fread_pos n f :
  pos (snd (fread n f)) = pos f + zlen (fst (fread n f)).
Proof.
  unfold fread. destruct (eof f || (n <=? 0)); simpl; [|reflexivity].
  unfold zlen. simpl. lia.
Qed.

(** After a read of [st_size f] bytes the next read delivers nothing:
    either the first one was short and set the end-of-file indicator, or
    it ended at the end of the file. *)
Lemma fread_again f :
  0 <= pos f ->
  fst (fread (st_size f) (snd (fread (st_size f) f))) = [].
Proof.
  intros Hp. unfold fread at 2.
  destruct (eof f || (st_size f <=? 0)) eqn:E; simpl.
  - unfold fread. now rewrite E.
  - unfold fread. simpl.
    set (data := firstn _ _).
    destruct (zlen data <? st_size f) eqn:E'; simpl; [reflexivity|].
    apply orb_false_elim in E as [_ E]. rewrite E.
    apply Z.ltb_ge in E'.
    rewrite skipn_all2; [now rewrite firstn_nil|].
    unfold st_size, zlen in *. lia.
Qed.

End Files.

(** ** [get_header_for_zstream], call by call *)

Section Calls.

Lemma boundary_loop_once n filesize zs f :
  fst (fread filesize f) = [] -> err f = false ->
  boundary_loop (S n) filesize zs f =
    let '(r, zs') := inflate zs Z_NO_FLUSH in
    if r <? 0 then (zs', f, Exit BodyInflateFailed r)
    else (set_avail_in 0 zs', snd (fread filesize f), Return r).
Proof.
  intros Hr He. simpl. destruct (inflate zs Z_NO_FLUSH) as [r zs'].
  destruct (r <? 0); [reflexivity|].
  destruct (fread_fields filesize f) as [_ He'].
  destruct (fread filesize f) as [inbuf f'] eqn:E. simpl in *. subst inbuf.
  unfold ferror. rewrite He', He. reflexivity.
Qed.

Lemma get_header_eq f n :
  err f = false -> 0 <= pos f -> st_size f < 2 ^ 32 ->
  get_header_for_zstream f n (st_size f) = member_call f n.
Proof.
  intros He Hp Hs. unfold get_header_for_zstream, member_call.
  change (inflateInit2 _ (16 + MAX_WBITS))
    with (Z_OK, mkStream [] 0 (to_uInt (OUTBUF_MULT * st_size f)) 0 0
                  initial_state).
  cbv beta iota zeta. change (negb (Z_OK =? Z_OK)) with false. cbv beta iota.
  unfold inflateGetHeader. cbv beta iota.
  change (negb (Z_OK =? Z_OK)) with false. cbv beta iota.
  pose proof (fread_again f Hp) as Hagain.
  pose proof (fread_length (st_size f) f Hp) as Hlen.
  destruct (fread_fields (st_size f) f) as [_ He1].
  destruct (fread (st_size f) f) as [inbuf f1] eqn:E.
  cbn [fst snd] in Hagain, Hlen, He1.
  unfold ferror. rewrite He1, He.
  assert (Hu : to_uInt (zlen inbuf) = zlen inbuf).
  { apply to_uInt_small. pose proof (zlen_nonneg inbuf).
    destruct Hlen as [Hlen | ->]; [lia|]. unfold zlen; simpl; lia. }
  rewrite !Hu.
  cbn [avail_in set_avail_in set_next_in set_state state next_in avail_out total_in total_out].
  change (set_next_in inbuf _) with (open_stream (st_size f) inbuf).
  destruct (zlen inbuf =? 0); [reflexivity|].
  destruct (inflate (open_stream (st_size f) inbuf) Z_BLOCK) as [r1 zs1].
  destruct (negb (r1 =? Z_OK)); [reflexivity|].
  destruct (h_time (state zs1)); [|reflexivity].
  rewrite Nat.add_1_r, boundary_loop_once by (rewrite ?He1, ?He; auto).
  destruct (inflate zs1 Z_NO_FLUSH) as [r2 zs2].
  destruct (r2 <? 0); reflexivity.
Qed.

End Calls.

(** ** One call of [inflate] *)

Section InflateCall.
Import Inflate.

Lemma inflate_spec zs fl r zs' :
  inflate zs fl = (r, zs') ->
  exists in_ out,
    total_in zs' = total_in zs + in_ /\
    total_out zs' = total_out zs + out /\
    0 <= in_ <= zlen (next_in zs) /\
    next_in zs' = skipn (Z.to_nat in_) (next_in zs) /\
    (r = Z_OK -> in_ <> 0 \/ out <> 0) /\
    (r = Z_OK \/ r = Z_STREAM_END \/ r = Z_DATA_ERROR \/ r = Z_BUF_ERROR) /\
    (fl = Z_BLOCK -> hmode (mode (state zs)) = true ->
     out = 0 /\ r <> Z_STREAM_END).
Proof.
  unfold inflate. cbv zeta.
  destruct (run (enough (loaded zs)) fl (loaded zs)) as [l s1] eqn:E.
  set (r0 := ret_code l).
  set (in_ := zlen (next (loaded zs)) - zlen (next s1)).
  set (out := avail_out zs - left s1).
  intros H. inversion H; subst r zs'; clear H.
  cbn [total_in total_out next_in].
  destruct (run_result _ _ _ _ _ E) as (Hs & Ho & Hr & _).
  exists in_, out.
  assert (Hl : zlen (next (loaded zs)) <= zlen (next_in zs)).
  { unfold loaded. destruct (state zs); simpl. unfold zlen.
    rewrite length_firstn. lia. }
  apply suffix_length in Hs. unfold zlen in *.
  do 3 (split; [lia|]). split; [reflexivity|]. split; [|split].
  - intros Hz. destruct (in_ =? 0) eqn:E1; [|apply Z.eqb_neq in E1; auto].
    destruct (out =? 0) eqn:E2; [|apply Z.eqb_neq in E2; auto].
    destruct (r0 =? Z_OK) eqn:E3; simpl in Hz; [discriminate|].
    apply Z.eqb_neq in E3. congruence.
  - destruct ((in_ =? 0) && (out =? 0) && (r0 =? Z_OK)); auto.
    unfold r0. destruct l as [| | |[]|]; simpl; auto.
  - intros -> Hm.
    assert (Hm' : hmode (mode (loaded zs)) = true).
    { unfold loaded. destruct (state zs); exact Hm. }
    destruct (run_block_quiet _ _ _ _ Hm' E) as (Hleft & _ & Hm1).
    split.
    + unfold out. rewrite Hleft. unfold loaded. destruct (state zs); simpl. lia.
    + destruct ((in_ =? 0) && (out =? 0) && (r0 =? Z_OK)); [discriminate|].
      unfold r0. destruct l as [| | |[]|]; simpl; try discriminate.
      rewrite (Hr eq_refl) in Hm1. discriminate.
Qed.

End InflateCall.

(** ** How a call of [get_header_for_zstream] can end *)

Section Outcomes.

Lemma skipn_zlen {A} (l : list A) k :
  0 <= k <= zlen l -> zlen (skipn (Z.to_nat k) l) = zlen l - k.
Proof. unfold zlen. intros H. rewrite length_skipn. lia. Qed.

Lemma member_call_cases f n :
  0 <= pos f -> st_size f < 2 ^ 31 ->
  contents (file_after (member_call f n)) = contents f /\
  err (file_after (member_call f n)) = err f /\
  match result (member_call f n) with
  | Return r => 1 <= r <= st_size f - pos f
  | Exit NoData code => code = Z_DATA_ERROR
  | Exit HeaderInflateFailed code
  | Exit BodyInflateFailed code => code = Z_DATA_ERROR \/ code = Z_BUF_ERROR
  | Undefined => True
  | _ => False
  end.
Proof.
  intros Hp Hs. unfold member_call.
  pose proof (fread_length (st_size f) f Hp) as Hlen.
  destruct (fread_fields (st_size f) f) as [Hc1 He1].
  destruct (fread (st_size f) f) as [inbuf f1] eqn:E.
  cbn [fst snd] in Hlen, Hc1, He1.
  destruct (zlen inbuf =? 0) eqn:E0; [simpl; auto|].
  apply Z.eqb_neq in E0.
  destruct Hlen as [Hlen| ->]; [|exfalso; apply E0; reflexivity].
  destruct (inflate (open_stream (st_size f) inbuf) Z_BLOCK) as [r1 zs1] eqn:E1.
  destruct (inflate_spec _ _ _ _ E1)
    as (in1 & out1 & Hin1 & Hout1 & Hb1 & Hn1 & Hp1 & Hr1 & Hq1).
  destruct (Hq1 eq_refl eq_refl) as [-> Hne]. cbn [open_stream total_in next_in] in *.
  destruct (negb (r1 =? Z_OK)) eqn:E2.
  { simpl. repeat split; auto. apply negb_true_iff, Z.eqb_neq in E2.
    destruct Hr1 as [?|[?|[?|?]]]; auto; congruence. }
  apply negb_false_iff, Z.eqb_eq in E2. subst r1.
  destruct (h_time (state zs1)); [|simpl; auto].
  destruct (inflate zs1 Z_NO_FLUSH) as [r2 zs2] eqn:E3.
  destruct (inflate_spec _ _ _ _ E3)
    as (in2 & out2 & Hin2 & Hout2 & Hb2 & Hn2 & Hp2 & Hr2 & _).
  destruct (r2 <? 0) eqn:E4.
  { simpl. repeat split; auto. apply Z.ltb_lt in E4.
    destruct Hr2 as [->|[->|[?|?]]]; auto; discriminate. }
  cbn [file_after result].
  destruct (fread_fields (st_size f) f1) as [Hc2 He2].
  rewrite Hc2, He2. repeat split; auto.
  - rewrite to_int_small; [|rewrite Hin2, Hin1].
    + destruct (Hp1 eq_refl) as [?|?]; lia.
    + rewrite Hn1, skipn_zlen in Hb2 by lia.
      pose proof (zlen_nonneg inbuf). lia.
  - rewrite Hn1, skipn_zlen in Hb2 by lia.
    rewrite to_int_small; lia.
Qed.

End Outcomes.

(** ** The scan of the file *)

Section Scan.

Lemma scan_sound content : forall fuel p n ret0,
  0 <= p <= zlen content -> zlen content < 2 ^ 31 ->
  (Z.to_nat (zlen content - p) < fuel)%nat ->
  scan_trace content p n ret0
    (fst (scan fuel (zlen content) (at_offset content p) p n ret0))
    (snd (scan fuel (zlen content) (at_offset content p) p n ret0)).
Proof.
  induction fuel as [|fuel IH]; intros p n ret0 Hp Hs Hf; [lia|].
  cbn [scan]. unfold feof, ftell. cbn [at_offset eof pos negb andb].
  destruct (p =? zlen content) eqn:E; cbn [negb].
  { apply Z.eqb_eq in E. now constructor. }
  apply Z.eqb_neq in E.
  pose proof (get_header_eq (at_offset content p) n eq_refl (proj1 Hp)
                ltac:(unfold st_size; simpl; lia)) as Heq.
  unfold st_size in Heq. cbn [at_offset contents] in Heq.
  pose proof (member_call_cases (at_offset content p) n (proj1 Hp)
                ltac:(unfold st_size; simpl; lia)) as (Hc & He & Hr).
  rewrite <- Heq in Hc, He, Hr. unfold st_size in Hr.
  cbn [at_offset contents pos err] in Hc, He, Hr.
  set (c := get_header_for_zstream (at_offset content p) n (zlen content)) in *.
  destruct (result c) as [r|at_ code| |] eqn:Er.
  - assert (Hseek : fseek (p + r) (file_after c) = at_offset content (p + r)).
    { unfold fseek. destruct (p + r <? 0) eqn:E'; [apply Z.ltb_lt in E'; lia|].
      unfold at_offset. now rewrite Hc, He. }
    rewrite Hseek. unfold ftell. cbn [at_offset pos].
    specialize (IH (p + r) (n + 1) (Some r) ltac:(lia) Hs ltac:(lia)).
    destruct (scan fuel (zlen content) (at_offset content (p + r)) (p + r)
                (n + 1) (Some r)) as [rest o].
    cbn [fst snd] in *. eapply trace_member; eauto.
  - cbn [fst snd]. now apply trace_exit.
  - destruct Hr.
  - cbn [fst snd]. now apply trace_undefined.
Qed.

(** [main] on a file that can be opened follows the scan of the
    specification from byte 0 and member 1. *)
Lemma main_trace content :
  zlen content < 2 ^ 31 ->
  scan_trace content 0 1 None
    (fst (main (Some content))) (snd (main (Some content))).
Proof.
  intros Hs. unfold main, st_size, ftell, fopen. cbn [contents pos].
  apply (scan_sound content); auto; pose proof (zlen_nonneg content); lia.
Qed.

End Scan.

(** ** The end of the stream is reached through [LENGTH] only *)

Section Neat.
Import Bits Inflate.

Lemma neat_ret {A} (a : A) : neat (ret a).
Proof. intros s b s' H. inversion H; subst. auto. Qed.

Lemma neat_bind {A B} (m : M A) (k : A -> M B) :
  neat m -> (forall a, neat (k a)) -> neat (bind m k).
Proof.
  intros Hm Hk s b s' H. apply bind_ok_inv in H as (a & t & H1 & H2).
  destruct (Hm _ _ _ H1), (Hk _ _ _ _ H2). auto.
Qed.

Lemma neat_gets {A} (f : inflate_state -> A) : neat (gets f).
Proof. intros s b s' H. inversion H; subst. auto. Qed.

Lemma neat_modify g :
  (forall s, hold (g s) = hold s /\ (mode (g s) = DONE -> mode s = DONE)) ->
  neat (modify g).
Proof.
  intros Hg s b s' H. inversion H; subst. destruct (Hg s) as [-> ?]. auto.
Qed.

Lemma neat_bad {A} : neat (@bad A).
Proof. intros s b s' H. discriminate. Qed.

Lemma neat_getbit : neat getbit.
Proof.
  intros s b s'. unfold getbit.
  destruct s as [? ? ? ? ? h ? ? ? ? ? ? n ? ? ? ? ? ?]; simpl.
  destruct h; [destruct n|]; intros H; inversion H; subst; simpl;
    split; auto; lia.
Qed.

Lemma neat_getbits n : neat (getbits n).
Proof.
  induction n; simpl; [apply neat_ret|].
  apply neat_bind; [apply neat_getbit|]. intros.
  apply neat_bind; [assumption|]. intros. apply neat_ret.
Qed.

Lemma neat_bytebits : neat bytebits.
Proof.
  intros s b s' H. inversion H; subst. destruct s; simpl. split; auto.
  rewrite length_skipn. lia.
Qed.

Lemma neat_take_byte : neat take_byte.
Proof.
  intros s b s'. unfold take_byte.
  destruct s as [? ? ? ? ? h ? ? ? ? ? ? n ? ? ? ? ? ?]; simpl.
  destruct n; intros H; inversion H; subst; simpl; auto.
Qed.

Lemma neat_need_out : neat need_out.
Proof.
  intros s b s'. unfold need_out. destruct (left s <=? 0); intros H;
    inversion H; subst; auto.
Qed.

Lemma neat_emit b : neat (emit b).
Proof.
  intros s u s'. unfold emit. destruct (left s <=? 0); intros H;
    inversion H; subst. destruct s; simpl; auto.
Qed.

Lemma neat_atomic {A} (m : M A) : neat m -> neat (atomic m).
Proof.
  intros Hm s a s' H. unfold atomic in H.
  destruct (m s) as [b t|[] t] eqn:E; try discriminate; inversion H; subst;
    eauto.
Qed.

Ltac tidy :=
  repeat first
    [ apply neat_ret | apply neat_bad | apply neat_gets | apply neat_getbit
    | apply neat_getbits | apply neat_bytebits | apply neat_take_byte
    | apply neat_need_out | apply neat_emit | apply neat_atomic
    | apply neat_bind; [|intros]
    | apply neat_modify;
      let x := fresh "x" in
      intros x; destruct x;
      unfold crc_header, store_name, finish_header; simpl;
      repeat match goal with
             | |- context [if ?c then _ else _] => destruct c eqn:?; simpl in *
             end; split; solve [auto | congruence | discriminate]
    | assumption
    | match goal with
      | |- neat (if ?c then _ else _) => destruct c
      | |- neat (match ?x with _ => _ end) => destruct x
      | |- neat (let '(_, _) := ?x in _) => destruct x
      end ].

Lemma neat_decode h : forall code first, neat (Huffman.decode h code first).
Proof. induction h as [|syms h IH]; intros; simpl; tidy. apply IH. Qed.

Lemma neat_getmany n k : neat (getmany n k).
Proof. induction n; simpl; tidy. Qed.

Lemma neat_read_lens fuel lh want : forall acc, neat (read_lens fuel lh want acc).
Proof.
  induction fuel as [|fuel IH]; intros; simpl; tidy;
    try (unfold decode_codelen; tidy; apply neat_decode); try apply IH.
Qed.

Lemma neat_skip_extra n : neat (skip_extra n).
Proof. induction n; simpl; tidy. Qed.

Lemma neat_copy_stored n : neat (copy_stored n).
Proof. induction n; simpl; tidy. Qed.

Lemma neat_copy_match n : neat (copy_match n).
Proof. induction n; simpl; tidy. Qed.

Lemma neat_step m : m <> LENGTH -> neat (step m).
Proof.
  intros Hm. destruct m; try congruence; simpl;
    unfold step_HEAD, step_FLAGS, step_TIME, step_OS, step_EXLEN, step_EXTRA,
      step_NAME, step_COMMENT, step_HCRC, step_TYPE, step_STORED, step_COPY,
      step_TABLE, step_LEN, step_LIT, step_MATCH, step_CHECK;
    tidy;
    auto using neat_decode, neat_getmany, neat_read_lens, neat_skip_extra,
      neat_copy_stored, neat_copy_match.
Qed.

(** The [LENGTH] state takes 32 bits, never waits for output space, and
    keeps [hold] short. *)
Lemma consumes_getbits_n n : consumes n (getbits n).
Proof.
  induction n; simpl.
  - intros s a s' H. inversion H; subst. lia.
  - intros s a s' H. apply bind_ok_inv in H as (b & t & H1 & H2).
    apply bind_ok_inv in H2 as (v & u & H2 & H3). inversion H3; subst.
    apply consumes_getbit in H1. apply IHn in H2. lia.
Qed.

Lemma length_step_spec s a s' :
  step_LENGTH s = Ok a s' ->
  (bits_left s' + 32 <= bits_left s)%nat /\
  ((length (hold s) <= 7)%nat -> (length (hold s') <= 7)%nat).
Proof.
  unfold step_LENGTH, atomic. intros H.
  destruct (bind _ _ s) as [b t|[] t] eqn:E; try discriminate.
  inversion H; subst; clear H.
  apply bind_ok_inv in E as (v & t & H1 & H2).
  pose proof (consumes_getbits_n 32 _ _ _ H1).
  destruct (neat_getbits 32 _ _ _ H1) as [Hh _].
  apply bind_ok_inv in H2 as (tt0 & u & H2 & H3). inversion H2; subst.
  destruct (negb _); [discriminate|]. inversion H3; subst.
  destruct u; unfold bits_left in *; simpl in *. split; auto.
Qed.

Lemma calm_bind {A B} (m : M A) (k : A -> M B) :
  calm m -> (forall a, calm (k a)) -> calm (bind m k).
Proof.
  intros Hm Hk s s' H. apply bind_stop_inv in H as [H|(a & t & _ & H)].
  - exact (Hm _ _ H).
  - exact (Hk _ _ _ H).
Qed.

Lemma calm_getbit : calm getbit.
Proof.
  intros s s'. unfold getbit. destruct (hold s); [destruct (next s)|];
    discriminate.
Qed.

Lemma calm_getbits n : calm (getbits n).
Proof.
  induction n; simpl; [discriminate|].
  apply calm_bind; [apply calm_getbit|]. intros.
  apply calm_bind; [assumption|]. discriminate.
Qed.

Lemma calm_atomic {A} (m : M A) : calm m -> calm (atomic m).
Proof.
  intros Hm s s' H. unfold atomic in H.
  destruct (m s) as [b t|[] t] eqn:E; try discriminate.
  inversion H; subst. exact (Hm _ _ E).
Qed.

Lemma calm_ret {A} (a : A) : calm (ret a).
Proof. discriminate. Qed.

Lemma calm_gets {A} (f : inflate_state -> A) : calm (gets f).
Proof. discriminate. Qed.

Lemma calm_modify g : calm (modify g).
Proof. discriminate. Qed.

Lemma calm_bad {A} : calm (@bad A).
Proof. discriminate. Qed.

Lemma calm_bytebits : calm bytebits.
Proof. discriminate. Qed.

Lemma calm_take_byte : calm take_byte.
Proof. intros s s'. unfold take_byte. destruct (next s); discriminate. Qed.

Ltac still :=
  repeat first
    [ apply calm_ret | apply calm_bad | apply calm_gets | apply calm_modify
    | apply calm_getbit | apply calm_getbits | apply calm_bytebits
    | apply calm_take_byte | apply calm_atomic
    | apply calm_bind; [|intros]
    | assumption
    | match goal with
      | |- calm (if ?c then _ else _) => destruct c
      | |- calm (match ?x with _ => _ end) => destruct x
      | |- calm (let '(_, _) := ?x in _) => destruct x
      end ].

Lemma calm_decode h : forall code first, calm (Huffman.decode h code first).
Proof. induction h as [|syms h IH]; intros; simpl; still. apply IH. Qed.

Lemma calm_getmany n k : calm (getmany n k).
Proof. induction n; simpl; still. Qed.

Lemma calm_read_lens fuel lh want : forall acc, calm (read_lens fuel lh want acc).
Proof.
  induction fuel as [|fuel IH]; intros; simpl; still;
    try (unfold decode_codelen; still; apply calm_decode); try apply IH.
Qed.

Lemma calm_skip_extra n : calm (skip_extra n).
Proof. induction n; simpl; still. Qed.

(** Only [COPY], [LIT] and [MATCH] write output. *)
Lemma calm_step m : m <> COPY -> m <> LIT -> m <> MATCH -> calm (step m).
Proof.
  intros H1 H2 H3. destruct m; try congruence; simpl;
    unfold step_HEAD, step_FLAGS, step_TIME, step_OS, step_EXLEN, step_EXTRA,
      step_NAME, step_COMMENT, step_HCRC, step_TYPE, step_STORED,
      step_TABLE, step_LEN, step_CHECK, step_LENGTH;
    still;
    auto using calm_decode, calm_getmany, calm_read_lens, calm_skip_extra.
Qed.

Lemma honest_calm {A} (m : M A) : calm m -> honest m.
Proof. intros H s s' E. destruct (H _ _ E). Qed.

Lemma honest_bind {A B} (m : M A) (k : A -> M B) :
  honest m -> (forall a, honest (k a)) -> honest (bind m k).
Proof.
  intros Hm Hk s s' H. apply bind_stop_inv in H as [H|(a & t & _ & H)].
  - exact (Hm _ _ H).
  - exact (Hk _ _ _ H).
Qed.

Lemma honest_need_out : honest need_out.
Proof.
  intros s s'. unfold need_out. destruct (Z.leb_spec (left s) 0); intros E;
    inversion E; subst; assumption.
Qed.

Lemma honest_emit b : honest (emit b).
Proof.
  intros s s'. unfold emit. destruct (Z.leb_spec (left s) 0); intros E;
    inversion E; subst; assumption.
Qed.

Ltac fair :=
  repeat first
    [ apply honest_need_out | apply honest_emit
    | apply honest_calm; solve [still]
    | apply honest_bind; [|intros]
    | assumption
    | match goal with
      | |- honest (if ?c then _ else _) => destruct c
      end ].

Lemma honest_copy_stored n : honest (copy_stored n).
Proof. induction n; simpl; fair. Qed.

Lemma honest_copy_match n : honest (copy_match n).
Proof. induction n; simpl; fair. Qed.

Lemma honest_step m : honest (step m).
Proof.
  destruct m; try (apply honest_calm, calm_step; congruence); simpl;
    unfold step_COPY, step_LIT, step_MATCH; fair;
    auto using honest_copy_stored, honest_copy_match.
Qed.

End Neat.

(** ** More input behind, more room for output *)

Section Simulation.
Import Bits Inflate.

Lemma lift_mode e d s : mode (lift e d s) = mode s.
Proof. reflexivity. Qed.

Lemma lift_leaves fl e d s : leaves fl (lift e d s) <-> leaves fl s.
Proof. unfold leaves. rewrite lift_mode. tauto. Qed.

Lemma lift_nil_0 s : lift [] 0 s = s.
Proof. destruct s; unfold lift; simpl. now rewrite app_nil_r, Z.add_0_r. Qed.

Lemma lift_lift e d e' d' s :
  lift e' d' (lift e d s) = lift (e ++ e') (d + d') s.
Proof.
  destruct s; unfold lift; simpl. now rewrite app_assoc, Z.add_assoc.
Qed.

Lemma run_more fl : forall n s l s',
  run n fl s = (l, s') -> l <> Turns ->
  forall m, (n <= m)%nat -> run m fl s = (l, s').
Proof.
  induction n as [|n IH]; intros s l s' H Hl m Hm.
  - inversion H; subst. congruence.
  - destruct m as [|m]; [lia|].
    destruct (leaves_dec fl s) as [L|L].
    + rewrite run_leaves in * by assumption. assumption.
    + rewrite run_turn in * by assumption.
      destruct (step (mode s) s) as [u t|w t]; [|assumption].
      apply IH; auto. lia.
Qed.

Lemma run_lift fl e d : 0 <= d -> forall n s l s',
  run n fl s = (l, s') -> lasting e d l ->
  run n fl (lift e d s) = (l, lift e d s').
Proof.
  intros Hd. induction n as [|n IH]; intros s l s' H Hl.
  - inversion H; subst. reflexivity.
  - destruct (leaves_dec fl s) as [L|L].
    + rewrite run_leaves in H by assumption.
      rewrite run_leaves by (now apply lift_leaves).
      rewrite lift_mode. inversion H; subst. reflexivity.
    + rewrite run_turn in H by assumption.
      rewrite run_turn by (now rewrite lift_leaves).
      rewrite lift_mode.
      destruct (step (mode s) s) as [u t|w t] eqn:E.
      * rewrite (wb_sim_ok _ (WB_step _) _ e d _ _ Hd E). now apply IH.
      * inversion H; subst. destruct w; simpl in Hl; subst.
        -- now rewrite (wb_sim_need _ (WB_step _) _ d _ Hd E).
        -- now rewrite (wb_sim_full _ (WB_step _) _ e _ E).
        -- now rewrite (wb_sim_data _ (WB_step _) _ e d _ Hd E).
Qed.

Lemma imode_eq_dec (a b : imode) : {a = b} + {a <> b}.
Proof. decide equality. Qed.

(** Running up to the first block under [Z_BLOCK] and then on gives what
    a run in one go gives; a run that stops within the header stops there
    under [Z_BLOCK] too. *)
Lemma run_split : forall n s l s',
  hmode (mode s) = true -> run n Z_NO_FLUSH s = (l, s') -> l <> Turns ->
  (exists s1, run n Z_BLOCK s = (AtBlock, s1) /\ mode s1 = TYPE /\
              run n Z_NO_FLUSH s1 = (l, s')) \/
  (run n Z_BLOCK s = (l, s') /\ hmode (mode s') = true /\
   l <> Halted OutFull /\ l <> AtDone).
Proof.
  induction n as [|n IH]; intros s l s' Hm H Hl.
  - inversion H; subst. congruence.
  - destruct (leaves_dec Z_NO_FLUSH s) as [L|L].
    + right. assert (Hb : mode s = BAD).
      { destruct L as [L|[L|[_ L]]]; auto; [|discriminate].
        rewrite L in Hm. discriminate. }
      simpl in *. rewrite Hb in *. inversion H; subst.
      repeat split; auto; try discriminate. now rewrite Hb.
    + destruct (imode_eq_dec (mode s) TYPE) as [ET|NT].
      * left. exists s. split; [simpl; now rewrite ET|]. auto.
      * assert (L' : ~ leaves Z_BLOCK s).
        { unfold leaves in *. intros [?|[?|[? _]]]; tauto. }
        rewrite run_turn in H by assumption. rewrite run_turn by assumption.
        assert (Hq : quiet (step (mode s))).
        { apply quiet_header; auto. intros C. apply L. unfold leaves. auto. }
        assert (Hc : calm (step (mode s))).
        { apply calm_step; intros C; rewrite C in Hm; discriminate. }
        destruct (step (mode s) s) as [u t|w t] eqn:E.
        -- destruct (Hq s t) as (_ & _ & Ht); [eauto|].
           destruct (IH t l s' (Ht Hm) H Hl) as [(s1 & H1 & H2 & H3)|H1].
           ++ left. exists s1. repeat split; auto.
              apply (run_more _ _ _ _ _ H3 Hl). lia.
           ++ right. assumption.
        -- right. inversion H; subst.
           destruct (Hq s s') as (_ & _ & Ht); [eauto|].
           repeat split; auto; try discriminate.
           intros C. inversion C; subst. exact (Hc _ _ E).
Qed.

(** A run that reaches the end of the stream from another mode has at
    least the length field of the trailer ahead of it. *)
Lemma run_tail fl : forall n u S',
  run n fl u = (AtDone, S') -> mode u <> DONE ->
  (length (hold u) <= 7)%nat -> (1 <= length (next u))%nat.
Proof.
  induction n as [|n IH]; intros u S' H Hm Hh; [discriminate|].
  destruct (leaves_dec fl u) as [L|L].
  - rewrite run_leaves in H by assumption.
    destruct L as [L|[L|[L _]]]; rewrite L in *; try congruence; discriminate.
  - rewrite run_turn in H by assumption.
    destruct (step (mode u) u) as [a t|w t] eqn:E; [|discriminate].
    destruct (imode_eq_dec (mode u) LENGTH) as [EL|NL].
    + rewrite EL in E. simpl in E.
      destruct (length_step_spec _ _ _ E) as [Hb _].
      unfold bits_left in Hb. lia.
    + destruct (neat_step _ NL _ _ _ E) as [Hh' Hd].
      destruct (wb_ok _ (WB_step _) _ _ _ E) as (Hs & _ & _).
      apply suffix_length in Hs.
      specialize (IH t S' H ltac:(tauto) (Hh' Hh)). lia.
Qed.

(** With less room for output, a run that would reach the end of the
    stream either reaches it all the same, or stops for lack of room
    before the trailer has been taken. *)
Lemma run_short fl d : 0 <= d -> forall n s S',
  run n fl (lift [] d s) = (AtDone, S') ->
  (length (hold s) <= 7)%nat ->
  (exists t, run n fl s = (AtDone, t) /\ S' = lift [] d t) \/
  (exists t, run n fl s = (Halted OutFull, t) /\
             (1 <= length (next t))%nat /\ left t <= 0).
Proof.
  intros Hd. induction n as [|n IH]; intros s S' H Hh; [discriminate|].
  destruct (leaves_dec fl s) as [L|L].
  - rewrite run_leaves in H by (now apply lift_leaves).
    rewrite run_leaves by assumption. rewrite lift_mode in H.
    left. exists s. destruct (mode s); inversion H; auto.
  - rewrite run_turn in H by (now rewrite lift_leaves).
    rewrite run_turn by assumption. rewrite lift_mode in H.
    destruct (step (mode s) s) as [a t|w t] eqn:E.
    + rewrite (wb_sim_ok _ (WB_step _) _ [] d _ _ Hd E) in H.
      apply IH; auto.
      destruct (imode_eq_dec (mode s) LENGTH) as [EL|NL].
      * rewrite EL in E. simpl in E.
        now apply (length_step_spec _ _ _ E).
      * now apply (neat_step _ NL _ _ _ E).
    + destruct w.
      * rewrite (wb_sim_need _ (WB_step _) _ d _ Hd E) in H. discriminate.
      * right. exists t. split; [reflexivity|].
        split; [|exact (honest_step _ _ _ E)].
        destruct (step (mode s) (lift [] d s)) as [a u|w u] eqn:E';
          [|discriminate].
        pose proof (wb_full_ok _ (WB_step _) _ _ _ _ _ _ Hd E E') as Hn.
        assert (NL : mode s <> LENGTH).
        { intros C. rewrite C in E.
          refine (calm_step LENGTH _ _ _ _ _ E); discriminate. }
        destruct (neat_step _ NL _ _ _ E') as [Hh' Hm'].
        assert (Hu : (1 <= length (next u))%nat).
        { apply (run_tail _ _ _ _ H).
          - intros C. apply L. unfold leaves. left. now apply Hm'.
          - now apply Hh'. }
        simpl in Hn. lia.
      * rewrite (wb_sim_data _ (WB_step _) _ [] d _ Hd E) in H. discriminate.
Qed.

End Simulation.

(** ** The two calls of [inflate] for one member *)

Section Member.
Import Bits Inflate.

Lemma ready_mode : mode ready_state = HEAD.
Proof. reflexivity. Qed.

Lemma zlen_firstn_all {A} (l : list A) : firstn (Z.to_nat (zlen l)) l = l.
Proof. unfold zlen. rewrite Nat2Z.id. apply firstn_all. Qed.

Lemma loaded_open filesize inbuf :
  loaded (open_stream filesize inbuf) =
  member_start inbuf (to_uInt (OUTBUF_MULT * filesize)).
Proof.
  unfold loaded, open_stream, member_start.
  cbn [avail_out avail_in next_in state]. now rewrite zlen_firstn_all.
Qed.

Lemma start_fields m size :
  mode (member_start m size) = HEAD /\ hold (member_start m size) = [] /\
  next (member_start m size) = m /\ left (member_start m size) = size /\
  total (member_start m size) = 0.
Proof. repeat split. Qed.

Lemma start_lift m rest size d :
  lift rest d (member_start m size) = member_start (m ++ rest) (size + d).
Proof. reflexivity. Qed.

Lemma suffix_skipn s s' :
  suffix s s' ->
  skipn (Z.to_nat (zlen (next s) - zlen (next s'))) (next s) = next s'.
Proof.
  intros [p Hp]. rewrite Hp. unfold zlen. rewrite length_app.
  replace (Z.to_nat _) with (length p) by lia.
  now rewrite skipn_app, skipn_all, Nat.sub_diag.
Qed.

Lemma reload s : set_left (left s) (set_next (next s) s) = s.
Proof. now destruct s. Qed.

(** When the decoder, run in one go on what the first [fread]
    delivered, leaves at the end of the stream or for lack of output
    space, the program's two calls take it there: the first returns
    [Z_OK] at the first block, the second accounts for all the input
    taken and all the output written. *)
Lemma two_calls filesize inbuf l T :
  Inflate.run (enough (member_start inbuf (to_uInt (OUTBUF_MULT * filesize))))
    Z_NO_FLUSH (member_start inbuf (to_uInt (OUTBUF_MULT * filesize)))
    = (l, T) ->
  l = AtDone \/ l = Halted OutFull ->
  exists zs1 zs2 r2,
    inflate (open_stream filesize inbuf) Z_BLOCK = (Z_OK, zs1) /\
    inflate zs1 Z_NO_FLUSH = (r2, zs2) /\
    total_in zs2 = zlen inbuf - zlen (next T) /\
    total_out zs2 = to_uInt (OUTBUF_MULT * filesize) - left T /\
    (l = AtDone -> r2 = Z_STREAM_END) /\
    (l = Halted OutFull -> to_uInt (OUTBUF_MULT * filesize) - left T <> 0 ->
     r2 = Z_OK) /\
    mode (state zs1) = TYPE /\
    h_time (state zs1) <> None.
Proof.
  set (B := to_uInt (OUTBUF_MULT * filesize)).
  set (S0 := member_start inbuf B).
  intros H Hl.
  assert (Hlt : l <> Turns) by (destruct Hl; subst; discriminate).
  destruct (run_split _ S0 _ _ eq_refl H Hlt)
    as [(s1 & H1 & Hm1 & H2)|(_ & _ & Hf & Hd)];
    [|destruct Hl; congruence].
  destruct (run_result _ _ _ _ _ H1) as (Hs1 & Ho1 & _ & Hb1).
  destruct (run_block_quiet _ S0 _ _ eq_refl H1) as (Hleft1 & _ & _).
  pose proof (run_head_consumes _ _ _ _ _ H1 eq_refl (or_intror eq_refl)) as Hc.
  assert (Hin1 : 1 <= zlen (next S0) - zlen (next s1)).
  { pose proof (suffix_length _ _ Hs1). unfold bits_left in Hc.
    change (hold S0) with (@nil bool) in Hc. simpl length in Hc.
    change (next S0) with inbuf in *. unfold zlen. lia. }
  exists (mkStream (next s1) (zlen (next s1)) (left s1)
            (zlen (next S0) - zlen (next s1)) (B - left s1) s1).
  assert (E1 : inflate (open_stream filesize inbuf) Z_BLOCK =
               (Z_OK, mkStream (next s1) (zlen (next s1)) (left s1)
                        (zlen (next S0) - zlen (next s1)) (B - left s1) s1)).
  { unfold inflate. cbv zeta. rewrite loaded_open. fold B. fold S0.
    rewrite H1. cbn [ret_code open_stream total_in total_out next_in avail_out].
    fold B. pose proof (suffix_skipn _ _ Hs1) as Hsk.
    change (next S0) with inbuf in Hsk at 2. rewrite Hsk.
    destruct (zlen (next S0) - zlen (next s1) =? 0) eqn:E0;
      [apply Z.eqb_eq in E0; lia|].
    cbn [andb]. now rewrite !Z.add_0_l. }
  assert (L1 : loaded (mkStream (next s1) (zlen (next s1)) (left s1)
                 (zlen (next S0) - zlen (next s1)) (B - left s1) s1) = s1).
  { unfold loaded. cbn [avail_out avail_in next_in state].
    rewrite zlen_firstn_all. apply reload. }
  assert (H2' : run (enough s1) Z_NO_FLUSH s1 = (l, T)).
  { rewrite <- H2. symmetry. apply run_enough. unfold enough. lia. }
  destruct (run_result _ _ _ _ _ H2') as (Hs2 & Ho2 & _ & _).
  pose proof (suffix_length _ _ Hs2) as Hlen2.
  eexists. eexists. split; [exact E1|].
  split.
  { unfold inflate. cbv zeta. rewrite L1, H2'. reflexivity. }
  cbn [total_in total_out state next_in avail_out].
  change (next S0) with inbuf.
  split; [ring|]. split; [ring|].
  split; [|split; [|split; [assumption|]]].
  - intros ->. cbn [ret_code]. change (Z_STREAM_END =? Z_OK) with false.
    now rewrite !andb_false_r.
  - intros -> Hne. cbn [ret_code].
    rewrite Hleft1. change (left S0) with B.
    destruct (B - left T =? 0) eqn:E0; [apply Z.eqb_eq in E0; lia|].
    now rewrite andb_false_r.
  - apply (run_block_timed _ S0 _ _ eq_refl) in H1; auto. discriminate.
Qed.

End Member.

(** ** A well-formed member under the scanner *)

Section ValidMember.
Import Bits Inflate.

Lemma member_nonempty m size : gzip_member m size -> m <> [].
Proof.
  intros (s' & H & _) ->.
  change (run (enough (member_start [] size)) Z_NO_FLUSH (member_start [] size))
    with (Halted NeedInput, slurp (member_start [] size)) in H.
  discriminate.
Qed.

Lemma fread_member pre m rest :
  m <> [] ->
  fread (zlen (pre ++ m ++ rest)) (at_offset (pre ++ m ++ rest) (zlen pre)) =
  (m ++ rest,
   mkFile (pre ++ m ++ rest) (zlen pre + zlen (m ++ rest))
     (zlen (m ++ rest) <? zlen (pre ++ m ++ rest)) false).
Proof.
  intros Hm. unfold fread, at_offset. cbn [eof pos contents err orb].
  assert (0 < zlen (pre ++ m ++ rest)).
  { rewrite !zlen_app. pose proof (zlen_nonneg pre). pose proof (zlen_nonneg rest).
    destruct m; [congruence|]. unfold zlen; simpl length. unfold zlen in *. lia. }
  destruct (zlen (pre ++ m ++ rest) <=? 0) eqn:E; [apply Z.leb_le in E; lia|].
  assert (Hd : firstn (Z.to_nat (zlen (pre ++ m ++ rest)))
                 (skipn (Z.to_nat (zlen pre)) (pre ++ m ++ rest)) = m ++ rest).
  { unfold zlen. rewrite !Nat2Z.id, skipn_app, skipn_all, Nat.sub_diag.
    simpl. apply firstn_all2. rewrite !length_app. lia. }
  now rewrite Hd.
Qed.

(** The program's view of the member at [zlen pre] in [pre ++ m ++ rest]:
    the outcome of the decoder run in one go decides what the call
    returns. *)
Lemma member_call_run pre m rest n l T :
  m <> [] ->
  zlen (pre ++ m ++ rest) < 2 ^ 31 ->
  Inflate.run
    (enough (member_start (m ++ rest)
               (to_uInt (OUTBUF_MULT * zlen (pre ++ m ++ rest)))))
    Z_NO_FLUSH
    (member_start (m ++ rest) (to_uInt (OUTBUF_MULT * zlen (pre ++ m ++ rest))))
    = (l, T) ->
  (l = AtDone \/
   l = Halted OutFull /\
   to_uInt (OUTBUF_MULT * zlen (pre ++ m ++ rest)) - left T <> 0) ->
  exists zs2 f2,
    body_call (at_offset (pre ++ m ++ rest) (zlen pre)) =
      (zs2, f2, Return (ret_code l)) /\
    total_in zs2 = zlen (m ++ rest) - zlen (next T) /\
    total_out zs2 = to_uInt (OUTBUF_MULT * zlen (pre ++ m ++ rest)) - left T /\
    result (member_call (at_offset (pre ++ m ++ rest) (zlen pre)) n) =
      Return (to_int (total_in zs2)) /\
    List.last
      (printed (member_call (at_offset (pre ++ m ++ rest) (zlen pre)) n))
      Separator = DecompressedSize (total_out zs2).
Proof.
  intros Hm Hs H Hl.
  set (content := pre ++ m ++ rest) in *.
  destruct (two_calls (zlen content) (m ++ rest) l T H)
    as (zs1 & zs2 & r2 & E1 & E2 & Hin & Hout & Hend & Hfull & _ & Htm).
  { destruct Hl as [?|[? _]]; auto. }
  assert (Hr2 : r2 = ret_code l).
  { destruct Hl as [->|[-> Hne]]; [now apply Hend|now apply Hfull]. }
  subst r2.
  assert (Hpos : (ret_code l <? 0) = false).
  { destruct Hl as [->|[-> _]]; reflexivity. }
  pose proof (fread_member pre m rest Hm) as Hf. fold content in Hf.
  set (f1 := mkFile content _ _ false) in Hf.
  assert (Hagain : fst (fread (zlen content) f1) = []).
  { pose proof (fread_again (at_offset content (zlen pre)) (zlen_nonneg pre))
      as Ha. unfold st_size in Ha. cbn [at_offset contents] in Ha.
    now rewrite Hf in Ha. }
  exists (set_avail_in 0 zs2), (snd (fread (zlen content) f1)).
  unfold body_call, member_call, st_size. cbn [at_offset contents].
  fold (at_offset content (zlen pre)). rewrite Hf, E1.
  rewrite Nat.add_1_r, boundary_loop_once by auto. rewrite E2, Hpos.
  cbn [negb Z.eqb Z_OK result printed set_avail_in total_in total_out].
  assert (Hz : (zlen (m ++ rest) =? 0) = false).
  { apply Z.eqb_neq. rewrite zlen_app. pose proof (zlen_nonneg rest).
    destruct m; [congruence|]. unfold zlen in *; simpl length; lia. }
  rewrite Hz. destruct (h_time (state zs1)); [|congruence].
  cbn [result printed].
  rewrite last_last. repeat split; auto.
Qed.

Lemma enough_start_le m rest size B :
  (enough (member_start m size) <= enough (member_start (m ++ rest) B))%nat.
Proof.
  unfold enough, bits_left. cbn [member_start next hold set_left set_next].
  change (hold ready_state) with (@nil bool). rewrite length_app. simpl. lia.
Qed.

(** With room for all its output, a member is decoded to its end
    whatever follows it, and just the member is taken. *)
Lemma run_fits m rest size B :
  gzip_member m size -> size <= B ->
  exists T,
    run (enough (member_start (m ++ rest) B)) Z_NO_FLUSH
      (member_start (m ++ rest) B) = (AtDone, T) /\
    next T = rest /\ total T = size /\ left T = B - size.
Proof.
  intros (s' & H & Hn & Ht) Hb.
  destruct (run_result _ _ _ _ _ H) as (_ & (_ & Ho & _) & _ & _).
  change (total (member_start m size)) with 0 in Ho.
  change (left (member_start m size)) with size in Ho.
  pose proof (run_lift Z_NO_FLUSH rest (B - size) ltac:(lia) _ _ _ _ H I) as HL.
  rewrite start_lift in HL. replace (size + (B - size)) with B in HL by lia.
  exists (lift rest (B - size) s'). split.
  - apply (run_more _ _ _ _ _ HL); [discriminate|apply enough_start_le].
  - cbn [lift next total left]. rewrite Hn. repeat split; auto. lia.
Qed.

(** Without room for all its output, the decoder stops for lack of
    room before it has taken the whole member. *)
Lemma run_overflows m rest size B :
  gzip_member m size -> 0 <= B < size ->
  exists T,
    run (enough (member_start (m ++ rest) B)) Z_NO_FLUSH
      (member_start (m ++ rest) B) = (Halted OutFull, T) /\
    zlen rest + 1 <= zlen (next T) /\ left T = 0.
Proof.
  intros (s' & H & Hn & Ht) Hb.
  assert (Hs : lift [] (size - B) (member_start m B) = member_start m size).
  { rewrite start_lift, app_nil_r. f_equal. lia. }
  rewrite <- Hs in H.
  assert (He : enough (lift [] (size - B) (member_start m B)) =
               enough (member_start m B)).
  { rewrite Hs. unfold enough, bits_left. reflexivity. }
  rewrite He in H.
  destruct (run_short Z_NO_FLUSH (size - B) ltac:(lia) _ _ _ H)
    as [(t & Ht1 & Ht2)|(t & Ht1 & Ht2 & Ht3)].
  { change (hold (member_start m B)) with (@nil bool). simpl. lia. }
  - exfalso. subst s'. cbn [lift total] in Ht.
    destruct (run_result _ _ _ _ _ Ht1) as (_ & (_ & Ho & Ho') & _ & _).
    change (total (member_start m B)) with 0 in Ho.
    change (left (member_start m B)) with B in Ho, Ho'. lia.
  - destruct (run_result _ _ _ _ _ Ht1) as (_ & (_ & _ & Ho') & _ & _).
    change (left (member_start m B)) with B in Ho'.
    pose proof (run_lift Z_NO_FLUSH rest 0 ltac:(lia) _ _ _ _ Ht1 eq_refl) as HL.
    rewrite start_lift, Z.add_0_r in HL.
    exists (lift rest 0 t). split.
    + apply (run_more _ _ _ _ _ HL); [discriminate|apply enough_start_le].
    + cbn [lift next left]. rewrite zlen_app. unfold zlen. split; lia.
Qed.

End ValidMember.

(** * The claims *)

Section Examples.

(** **** C1 (the code departs from the claim).  For a file made of one
    well-formed member the scanner should report one member from byte 0
    to the end of the file.  On [zeros_gz], a well-formed member of 24
    bytes that expands to 200 bytes, the output buffer of 5 * 24 = 120
    bytes is full after 15 bytes of input; the loop is left at the
    empty read, the member is reported to end at byte 14, and the scan
    goes on at byte 15, where no gzip header is found. *)
Theorem C1_compressible_member_cut_short :
  is_gzip_member zeros_gz 200 = true /\
  main (Some zeros_gz) =
    ([Separator; MemberBegin 1 0; HeaderTitle 1; TimeField (Some 0);
      NameField NullName; DoneField 1 HeaderComplete; DecompressedSize 120;
      MemberEnd 1 14; Separator; Separator; MemberBegin 2 15],
     Exit HeaderInflateFailed Z_DATA_ERROR) /\
  ~ reports_whole_file zeros_gz.
Proof.
  split; [vm_compute; reflexivity|].
  assert (H : main (Some zeros_gz) =
    ([Separator; MemberBegin 1 0; HeaderTitle 1; TimeField (Some 0);
      NameField NullName; DoneField 1 HeaderComplete; DecompressedSize 120;
      MemberEnd 1 14; Separator; Separator; MemberBegin 2 15],
     Exit HeaderInflateFailed Z_DATA_ERROR)) by (vm_compute; reflexivity).
  split; [exact H|].
  intros (lines & E & _). rewrite H in E. discriminate.
Qed.

(** **** C8.  On an empty file the scan loop is not entered, nothing is
    printed, and [main] returns [ret], which has not been assigned. *)
Theorem C8_empty_file_returns_unassigned :
  main (Some []) = ([], Return None).
Proof. reflexivity. Qed.

Lemma upto_In n x : 0 <= x < Z.of_nat n -> In x (upto n).
Proof.
  intros H. unfold upto. apply in_map_iff. exists (Z.to_nat x).
  split; [lia|]. apply in_seq. lia.
Qed.

Lemma goes_on_unwritten_true content :
  goes_on_unwritten content = true ->
  exists zs,
    inflate (open_stream (zlen content) content) Z_BLOCK = (Z_OK, zs) /\
    h_done (state zs) = 0 /\ h_time (state zs) = None /\
    snd (main (Some content)) = Undefined.
Proof.
  unfold goes_on_unwritten. intros H.
  destruct (inflate (open_stream (zlen content) content) Z_BLOCK) as [r zs].
  apply andb_prop in H as [H Hu].
  apply andb_prop in H as [H Hn]. apply andb_prop in H as [Hr Hd].
  apply Z.eqb_eq in Hr, Hd. subst r. exists zs.
  destruct (h_time (state zs)); [discriminate|].
  destruct (snd (main (Some content))); try discriminate. auto.
Qed.

(** **** C4 (the code departs from the claim).  A file that consists of
    the first five bytes of a gzip member (the magic bytes 1f 8b, the
    method 8, a flag byte [flg] without reserved bits, one byte [t0] of
    the modification time) should make the program exit at the first
    call of [inflate] or at the empty read.  It does not: that call
    takes the five bytes and returns [Z_OK], with the header not complete
    ([done = 0]) and no time written to [zhead]; the program does not
    look at [done] and goes on to the header report, where it hands the
    time that was never written to [localtime], [asctime] and [strlen].
    From there its behaviour is not defined. *)
Theorem C4_truncated_header_time_never_written flg t0 :
  0 <= flg < 32 -> 0 <= t0 < 256 ->
  (exists zs,
     inflate (open_stream 5 [31; 139; 8; flg; t0]) Z_BLOCK = (Z_OK, zs) /\
     h_done (state zs) = 0 /\ h_time (state zs) = None) /\
  snd (main (Some [31; 139; 8; flg; t0])) = Undefined /\
  ~ fails_before_report [31; 139; 8; flg; t0].
Proof.
  intros Hf Ht.
  assert (H : forallb (fun f => forallb (fun t =>
                goes_on_unwritten [31; 139; 8; f; t]) (upto 256))
                (upto 32) = true) by (vm_compute; reflexivity).
  rewrite forallb_forall in H.
  specialize (H flg (upto_In 32 flg ltac:(lia))).
  rewrite forallb_forall in H.
  specialize (H t0 (upto_In 256 t0 ltac:(lia))).
  apply goes_on_unwritten_true in H as (zs & E1 & Hd & Hn & E).
  replace 5 with (zlen [31; 139; 8; flg; t0]) by reflexivity.
  split; [exists zs; auto|]. split; [exact E|].
  intros (at_ & code & C & _). rewrite E in C. discriminate.
Qed.

Lemma C4_truncated_hello_witness :
  (0 <= 8 < 32 /\ 0 <= 77 < 256) /\
  snd (main (Some (firstn 5 hello_gz))) = Undefined.
Proof.
  split; [lia|].
  apply (C4_truncated_header_time_never_written 8 77); lia.
Defined.

(** **** C5 (the code departs from the claim).  [long_name_gz] is a
    well-formed member whose name holds 511 bytes and the terminating
    zero.  The header is decoded ([done = 1]); the buffer passed to
    [printf] holds the 511 bytes of the name and no terminator: cell 511
    of [zname] was never written, so what is printed after the name is
    undefined. *)
Theorem C5_long_name_left_unterminated :
  is_gzip_member long_name_gz 0 = true /\
  exists buf,
    fst (main (Some long_name_gz)) =
      [Separator; MemberBegin 1 0; HeaderTitle 1; TimeField (Some 0);
       NameField (NameAt buf); DoneField 1 HeaderComplete;
       DecompressedSize 0; MemberEnd 1 534; Separator] /\
    buf = map Some (repeat 78 511) ++ [None] /\
    c_string buf = None.
Proof.
  split; [vm_compute; reflexivity|].
  eexists. split; [vm_compute; reflexivity|].
  split; vm_compute; reflexivity.
Qed.

End Examples.

Section ScanClaims.

Lemma begins_app l l' : begins (l ++ l') = begins l ++ begins l'.
Proof.
  induction l as [|[] l IH]; simpl; auto. now rewrite IH.
Qed.

Lemma ends_app l l' : ends (l ++ l') = ends l ++ ends l'.
Proof.
  induction l as [|[] l IH]; simpl; auto. now rewrite IH.
Qed.

(** A call of [get_header_for_zstream] prints neither a begin line nor
    an end line. *)
Lemma member_call_marks f n :
  begins (printed (member_call f n)) = [] /\
  ends (printed (member_call f n)) = [].
Proof.
  unfold member_call. destruct (fread (st_size f) f) as [inbuf f1].
  destruct (zlen inbuf =? 0); [auto|].
  destruct (inflate _ Z_BLOCK) as [r1 zs1].
  destruct (negb (r1 =? Z_OK)); [auto|].
  destruct (h_time (state zs1)); [|auto].
  destruct (inflate zs1 Z_NO_FLUSH) as [r2 zs2].
  destruct (r2 <? 0); cbn [printed]; rewrite ?begins_app, ?ends_app; auto.
Qed.

Lemma header_at content p n :
  0 <= p -> zlen content < 2 ^ 31 ->
  get_header_for_zstream (at_offset content p) n (zlen content) =
  member_call (at_offset content p) n.
Proof.
  intros Hp Hs.
  apply (get_header_eq (at_offset content p) n eq_refl Hp).
  unfold st_size. cbn [at_offset contents]. lia.
Qed.

Lemma block_marks c n p e rest :
  begins c = [] -> ends c = [] ->
  begins ([Separator; MemberBegin n p] ++ c ++ [MemberEnd n e; Separator] ++ rest)
    = p :: begins rest /\
  ends ([Separator; MemberBegin n p] ++ c ++ [MemberEnd n e; Separator] ++ rest)
    = e :: ends rest.
Proof.
  intros Hb He. rewrite !begins_app, !ends_app, Hb, He. split; reflexivity.
Qed.

(** What a scan that follows [scan_trace] prints and how it ends. *)
Lemma trace_facts content : zlen content < 2 ^ 31 ->
  forall p n ret0 lines o,
  scan_trace content p n ret0 lines o -> 0 <= p ->
  o <> OutOfFuel /\
  Forall (fun b => p <= b) (begins lines) /\
  increasing (begins lines) /\
  match o with
  | Return v =>
      length (ends lines) = length (begins lines) /\
      v = match last_consumed lines with Some r => Some r | None => ret0 end
  | Exit at_ code =>
      at_ <> OpenFailed /\ (code = Z_DATA_ERROR \/ code = Z_BUF_ERROR)
  | OutOfFuel => False
  | Undefined => True
  end.
Proof.
  intros Hs p n ret0 lines o H.
  induction H as [p n ret0 Hp|p n ret0 at_ code Hp Hr|p n ret0 Hp Hr
                 |p n ret0 r rest o Hp Hr Hb Ht IH];
    intros H0.
  - repeat split; simpl; auto; discriminate.
  - rewrite header_at in * by assumption.
    destruct (member_call_marks (at_offset content p) n) as [Eb Ee].
    pose proof (member_call_cases (at_offset content p) n H0
                  ltac:(unfold st_size; simpl; lia)) as (_ & _ & Hc).
    rewrite Hr in Hc.
    rewrite begins_app, Eb. simpl.
    repeat split; auto; try discriminate.
    + constructor; [lia|constructor].
    + destruct at_; try contradiction; discriminate.
    + destruct at_; try contradiction; auto.
  - rewrite header_at in * by assumption.
    destruct (member_call_marks (at_offset content p) n) as [Eb Ee].
    rewrite begins_app, Eb. simpl.
    repeat split; auto; try discriminate.
    constructor; [lia|constructor].
  - rewrite header_at in * by assumption.
    destruct (member_call_marks (at_offset content p) n) as [Eb Ee].
    destruct (IH ltac:(lia)) as (Ho & Hall & Hinc & Hres).
    destruct (block_marks _ n p (p + r - 1) rest Eb Ee) as [EB EE].
    unfold last_consumed. rewrite EB, EE.
    split; [assumption|]. split; [|split].
    + constructor; [lia|]. eapply Forall_impl; [|exact Hall].
      simpl. intros; lia.
    + simpl. split; [|assumption].
      destruct (begins rest) as [|b t]; [exact I|].
      inversion Hall; subst. lia.
    + destruct o as [v|at_ code| |]; auto.
      destruct Hres as [Hlen Hv]. unfold last_consumed in Hv.
      split; [simpl; lia|]. subst v.
      destruct (begins rest) as [|b t], (ends rest) as [|e u];
        try discriminate Hlen.
      * simpl. f_equal. lia.
      * cbn [rev]. destruct (rev t ++ [b]) eqn:E1;
          [now apply app_eq_nil in E1 as [_ ?]|].
        destruct (rev u ++ [e]) eqn:E2;
          [now apply app_eq_nil in E2 as [_ ?]|].
        reflexivity.
Qed.



End ScanClaims.

Section Claims.
Import Inflate.

(** **** C3.  The scan of any file comes to an end, and no member is ever
    reported twice at one offset: the byte positions of the members
    reported are strictly increasing.  A member call never returns with
    zero consumed bytes: a decoder that takes no input makes no progress,
    [inflate] answers [Z_BUF_ERROR], and the program exits; so every call
    that returns has consumed at least one byte.  The loops of the model
    are never cut short: the scan does not run out of turns, and neither
    does the loop of [inflate]. *)
Theorem C3_scan_terminates_and_advances content :
  zlen content < 2 ^ 31 ->
  snd (main (Some content)) <> OutOfFuel /\
  increasing (begins (fst (main (Some content)))) /\
  (forall p n r,
     0 <= p ->
     result (get_header_for_zstream (at_offset content p) n (zlen content))
       = Return r ->
     0 < r) /\
  (forall p n,
     0 <= p ->
     result (get_header_for_zstream (at_offset content p) n (zlen content))
       <> OutOfFuel) /\
  (forall zs fl, fst (run (enough (loaded zs)) fl (loaded zs)) <> Turns).
Proof.
  intros Hs.
  destruct (trace_facts content Hs _ _ _ _ _ (main_trace content Hs) (Z.le_refl 0))
    as (Ho & _ & Hinc & _).
  split; [assumption|]. split; [assumption|].
  split; [|split].
  - intros p n r Hp Hr. rewrite header_at in Hr by assumption.
    pose proof (member_call_cases (at_offset content p) n Hp
                  ltac:(unfold st_size; simpl; lia)) as (_ & _ & Hc).
    rewrite Hr in Hc. lia.
  - intros p n Hp Hr. rewrite header_at in Hr by assumption.
    pose proof (member_call_cases (at_offset content p) n Hp
                  ltac:(unfold st_size; simpl; lia)) as (_ & _ & Hc).
    now rewrite Hr in Hc.
  - intros zs fl.
    destruct (run (enough (loaded zs)) fl (loaded zs)) as [l s'] eqn:E.
    exact (run_no_turns _ _ _ _ _ (enough_phi _) E).
Qed.

Lemma C3_hello_witness :
  snd (main (Some hello_gz)) <> OutOfFuel /\
  increasing (begins (fst (main (Some hello_gz)))).
Proof.
  pose proof (C3_scan_terminates_and_advances hello_gz ltac:(vm_compute; reflexivity))
    as (H1 & H2 & _).
  split; assumption.
Defined.



(** **** C9.  In a turn of the scan loop in which the member call
    returns [r] consumed bytes from the cursor [ftell f], the file is
    positioned at [ftell f + r], the exclusive end, from where the next
    turn starts, and the end line printed for the member carries that
    position minus one, [ftell f + r - 1], the index of the last byte of
    the member. *)
Theorem C9_end_line_is_cursor_minus_one fuel filesize f fposb n ret0 r :
  feof f = false -> fposb <> filesize ->
  result (get_header_for_zstream f n filesize) = Return r ->
  0 <= ftell f + r ->
  let c := get_header_for_zstream f n filesize in
  let f' := fseek (ftell f + r) (file_after c) in
  ftell f' = ftell f + r /\
  scan (S fuel) filesize f fposb n ret0 =
    (let '(rest, o) := scan fuel filesize f' (ftell f + r) (n + 1) (Some r) in
     ([Separator; MemberBegin n (ftell f)] ++ printed c
      ++ [MemberEnd n (ftell f + r - 1); Separator] ++ rest, o)).
Proof.
  intros He Hb Hr Hp c f'.
  assert (Hf : ftell f' = ftell f + r).
  { unfold f', fseek. destruct (ftell f + r <? 0) eqn:E;
      [apply Z.ltb_lt in E; lia|reflexivity]. }
  split; [assumption|].
  cbn [scan]. cbv zeta. rewrite He. apply Z.eqb_neq in Hb. rewrite Hb.
  cbn [negb andb]. rewrite Hr. fold c. fold f'. rewrite Hf. reflexivity.
Qed.

Lemma C9_hello_witness :
  ftell (fseek (ftell (fopen hello_gz) + 34)
           (file_after (get_header_for_zstream (fopen hello_gz) 1 34)))
    = ftell (fopen hello_gz) + 34 /\
  scan 1 34 (fopen hello_gz) 0 1 None =
    (let '(rest, o) :=
       scan 0 34
         (fseek (ftell (fopen hello_gz) + 34)
            (file_after (get_header_for_zstream (fopen hello_gz) 1 34)))
         (ftell (fopen hello_gz) + 34) (1 + 1) (Some 34) in
     ([Separator; MemberBegin 1 (ftell (fopen hello_gz))]
      ++ printed (get_header_for_zstream (fopen hello_gz) 1 34)
      ++ [MemberEnd 1 (ftell (fopen hello_gz) + 34 - 1); Separator] ++ rest, o)).
Proof.
  apply (C9_end_line_is_cursor_minus_one 0 34 (fopen hello_gz) 0 1 None 34).
  - reflexivity.
  - discriminate.
  - vm_compute. reflexivity.
  - vm_compute. discriminate.
Defined.

Lemma is_gzip_member_true m size :
  is_gzip_member m size = true -> gzip_member m size.
Proof.
  unfold is_gzip_member, gzip_member.
  destruct (run _ _ _) as [l s']. destruct l; try discriminate.
  destruct (next s') eqn:E; [|discriminate].
  intros H. apply Z.eqb_eq in H. exists s'. auto.
Qed.

Lemma outbuf_bounds filesize :
  0 < filesize < 2 ^ 31 ->
  0 < to_uInt (OUTBUF_MULT * filesize) <= OUTBUF_MULT * filesize.
Proof.
  intros H. unfold to_uInt, OUTBUF_MULT.
  pose proof (Z.mod_pos_bound (5 * filesize) (2 ^ 32) ltac:(lia)).
  pose proof (Z.mod_le (5 * filesize) (2 ^ 32) ltac:(lia) ltac:(lia)).
  pose proof (Z.div_mod (5 * filesize) (2 ^ 32) ltac:(lia)).
  assert (0 <= 5 * filesize / 2 ^ 32 < 3).
  { split; [apply Z.div_pos; lia|]. apply Z.div_lt_upper_bound; lia. }
  lia.
Qed.

Lemma member_file_size pre m rest size :
  gzip_member m size -> 0 < zlen (pre ++ m ++ rest).
Proof.
  intros H. apply member_nonempty in H. rewrite !zlen_app.
  pose proof (zlen_nonneg pre). pose proof (zlen_nonneg rest).
  destruct m; [congruence|]. unfold zlen in *. simpl length. lia.
Qed.

(** **** C2.  Let [m] be a well-formed member, at any place in a file
    ([pre] before it, [rest] after it, all of [rest] being read into the
    buffer with it).  When the boundary loop is left after the engine
    signalled the end of the stream ([ret = Z_STREAM_END], the normal
    completion), the engine's count of input bytes is the length of [m] on
    disk, header and body, and this is what [get_header_for_zstream]
    returns: the bytes read beyond the member do not count, nor does the
    number of reads. *)
Theorem C2_normal_completion_returns_member_length pre m rest size n zs2 f2 :
  gzip_member m size ->
  zlen (pre ++ m ++ rest) < 2 ^ 31 ->
  body_call (at_offset (pre ++ m ++ rest) (zlen pre))
    = (zs2, f2, Return Z_STREAM_END) ->
  total_in zs2 = zlen m /\
  result (get_header_for_zstream (at_offset (pre ++ m ++ rest) (zlen pre)) n
            (zlen (pre ++ m ++ rest))) = Return (zlen m).
Proof.
  intros Hm Hs Hb.
  pose proof (member_nonempty _ _ Hm) as Hne.
  pose proof (member_file_size pre m rest size Hm) as Hpos.
  pose proof (outbuf_bounds _ (conj Hpos Hs)) as HB.
  rewrite header_at by (auto using zlen_nonneg).
  set (B := to_uInt (OUTBUF_MULT * zlen (pre ++ m ++ rest))) in *.
  destruct (Z_le_gt_dec size B) as [Hfit|Hover].
  - destruct (run_fits m rest size B Hm Hfit) as (T & HT & Hn & _ & _).
    destruct (member_call_run pre m rest n _ _ Hne Hs HT (or_introl eq_refl))
      as (zs & f & E & Hin & _ & Hr & _).
    rewrite E in Hb. inversion Hb; subst zs f.
    rewrite Hr, Hin, Hn, zlen_app.
    replace (zlen m + zlen rest - zlen rest) with (zlen m) by lia.
    split; [reflexivity|]. rewrite to_int_small; [reflexivity|].
    rewrite !zlen_app in Hs. pose proof (zlen_nonneg pre).
    pose proof (zlen_nonneg rest). pose proof (zlen_nonneg m). lia.
  - destruct (run_overflows m rest size B Hm ltac:(lia)) as (T & HT & _ & Hl).
    destruct (member_call_run pre m rest n _ _ Hne Hs HT)
      as (zs & f & E & _); [right; split; [reflexivity|fold B; lia]|].
    rewrite E in Hb. discriminate.
Qed.

Lemma C2_two_members_witness :
  total_in
    (fst (fst (body_call (at_offset ([] ++ hello_gz ++ zeros_gz) (zlen (@nil Z))))))
    = zlen hello_gz /\
  result (get_header_for_zstream
            (at_offset ([] ++ hello_gz ++ zeros_gz) (zlen (@nil Z))) 1
            (zlen ([] ++ hello_gz ++ zeros_gz))) = Return (zlen hello_gz).
Proof.
  apply (C2_normal_completion_returns_member_length [] hello_gz zeros_gz 17 1
           _ (snd (fst (body_call (at_offset ([] ++ hello_gz ++ zeros_gz)
                                     (zlen (@nil Z))))))).
  - apply is_gzip_member_true. vm_compute. reflexivity.
  - vm_compute. reflexivity.
  - vm_compute. reflexivity.
Defined.

(** **** C10.  One call of [inflate] in the boundary loop writes at most
    [OUTBUF_MULT * filesize] bytes.  When a well-formed member [m]
    expands to more than the output buffer holds, the decoder fills the
    buffer before the end of the stream; the next read delivers nothing,
    so the loop is left with [ret = Z_OK], no error is raised, and
    [get_header_for_zstream] returns the input bytes taken so far, which
    are fewer than the bytes of [m]. *)
Theorem C10_full_output_buffer_ends_loop_early pre m rest size n :
  gzip_member m size ->
  zlen (pre ++ m ++ rest) < 2 ^ 31 ->
  to_uInt (OUTBUF_MULT * zlen (pre ++ m ++ rest)) < size ->
  exists zs2 f2,
    body_call (at_offset (pre ++ m ++ rest) (zlen pre)) = (zs2, f2, Return Z_OK) /\
    total_out zs2 = to_uInt (OUTBUF_MULT * zlen (pre ++ m ++ rest)) /\
    total_out zs2 <= OUTBUF_MULT * zlen (pre ++ m ++ rest) /\
    0 < total_in zs2 < zlen m /\
    result (get_header_for_zstream (at_offset (pre ++ m ++ rest) (zlen pre)) n
              (zlen (pre ++ m ++ rest))) = Return (total_in zs2).
Proof.
  intros Hm Hs Hover.
  pose proof (member_nonempty _ _ Hm) as Hne.
  pose proof (member_file_size pre m rest size Hm) as Hpos.
  pose proof (outbuf_bounds _ (conj Hpos Hs)) as HB.
  rewrite header_at by (auto using zlen_nonneg).
  set (B := to_uInt (OUTBUF_MULT * zlen (pre ++ m ++ rest))) in *.
  destruct (run_overflows m rest size B Hm ltac:(lia)) as (T & HT & Hn & Hl).
  destruct (member_call_run pre m rest n _ _ Hne Hs HT)
    as (zs & f & E & Hin & Hout & Hr & _);
    [right; split; [reflexivity|fold B; lia]|].
  fold B in Hout. rewrite Hl in Hout.
  pose proof (member_call_cases (at_offset (pre ++ m ++ rest) (zlen pre)) n
                (zlen_nonneg pre) ltac:(unfold st_size; simpl; lia))
    as (_ & _ & Hc).
  rewrite Hr in Hc. rewrite zlen_app in Hin.
  assert (Hti : 0 <= total_in zs < 2 ^ 31).
  { rewrite Hin. rewrite !zlen_app in Hs. pose proof (zlen_nonneg pre).
    pose proof (zlen_nonneg rest). pose proof (zlen_nonneg m).
    destruct (run_result _ _ _ _ _ HT) as (Hsuf & _).
    apply suffix_length in Hsuf.
    change (next (member_start (m ++ rest) B)) with (m ++ rest) in Hsuf.
    rewrite length_app in Hsuf. unfold zlen in *. lia. }
  rewrite to_int_small in Hc, Hr by assumption.
  exists zs, f. cbn [ret_code] in E.
  repeat split; try assumption; try lia.
Qed.

Lemma C10_zeros_witness :
  exists zs2 f2,
    body_call (at_offset ([] ++ zeros_gz ++ []) (zlen (@nil Z)))
      = (zs2, f2, Return Z_OK) /\
    total_out zs2 = to_uInt (OUTBUF_MULT * zlen ([] ++ zeros_gz ++ [])) /\
    total_out zs2 <= OUTBUF_MULT * zlen ([] ++ zeros_gz ++ []) /\
    0 < total_in zs2 < zlen zeros_gz /\
    result (get_header_for_zstream
              (at_offset ([] ++ zeros_gz ++ []) (zlen (@nil Z))) 1
              (zlen ([] ++ zeros_gz ++ []))) = Return (total_in zs2).
Proof.
  apply (C10_full_output_buffer_ends_loop_early [] zeros_gz [] 200 1).
  - apply is_gzip_member_true. vm_compute. reflexivity.
  - vm_compute. reflexivity.
  - vm_compute. reflexivity.
Defined.

End Claims.

(** ** Reading whole bytes *)

Section Bytes.
Import Bits Inflate.

Lemma byte_value b :
  0 <= b < 256 ->
  value (of_byte b) = b.
Proof.
  intros H.
  assert (A : forallb (fun x => value (of_byte x) =? x) (upto 256) = true)
    by (vm_compute; reflexivity).
  rewrite forallb_forall in A.
  apply Z.eqb_eq. apply A. now apply upto_In.
Qed.

Lemma getbit_hold s b h :
  hold s = b :: h -> getbit s = Ok b (set_hold h s).
Proof. unfold getbit. now intros ->. Qed.

Lemma getbits_hold : forall bits s rest,
  hold s = bits ++ rest ->
  getbits (length bits) s = Ok (value bits) (set_hold rest s).
Proof.
  induction bits as [|b bits IH]; intros s rest H.
  - simpl in *. unfold ret. f_equal. destruct s; simpl in *. now subst.
  - cbn [length getbits value]. unfold bind at 1.
    rewrite (getbit_hold s b (bits ++ rest) H).
    unfold bind at 1. rewrite (IH (set_hold (bits ++ rest) s) rest);
      [|now destruct s].
    reflexivity.
Qed.

Lemma getbits_8 s b tl :
  hold s = [] -> next s = b :: tl -> 0 <= b < 256 ->
  getbits 8 s = Ok b (set_next tl s).
Proof.
  intros Hh Hn Hb.
  change (getbits 8) with (x <- getbit ;; v <- getbits 7 ;; ret (Z.b2z x + 2 * v)).
  unfold bind at 1. unfold getbit. rewrite Hh, Hn.
  unfold bind at 1.
  rewrite (getbits_hold (map (Z.testbit b) [1; 2; 3; 4; 5; 6; 7]) _ []);
    [|now destruct s].
  unfold ret. f_equal.
  - exact (byte_value b Hb).
  - destruct s; simpl in *. now subst.
Qed.

Lemma bind_assoc {A B C} (m : M A) (f : A -> M B) (g : B -> M C) s :
  bind (bind m f) g s = bind m (fun a => bind (f a) g) s.
Proof. unfold bind. destruct (m s); reflexivity. Qed.

Lemma getbits_add n m s :
  getbits (n + m) s =
  (lo <- getbits n ;; hi <- getbits m ;; ret (lo + 2 ^ Z.of_nat n * hi)) s.
Proof.
  revert s. induction n as [|n IH]; intros s.
  - cbn [Nat.add getbits]. unfold bind, ret.
    destruct (getbits m s) as [v t|w t]; [|reflexivity].
    f_equal. change (2 ^ Z.of_nat 0) with 1. lia.
  - cbn [Nat.add getbits]. rewrite bind_assoc.
    destruct (getbit s) as [b t|w t] eqn:E.
    + rewrite !(bind_ok _ _ _ _ _ E). rewrite bind_assoc.
      unfold bind at 1. rewrite IH. unfold bind, ret.
      destruct (getbits n t) as [lo u|w u]; [|reflexivity].
      destruct (getbits m u) as [hi x|w x]; [|reflexivity].
      f_equal. rewrite Nat2Z.inj_succ, Z.pow_succ_r by lia. ring.
    + now rewrite !(bind_stop _ _ _ _ _ E).
Qed.

(** [NEEDBITS(8 * k)] on the [k] bytes of a value, least significant
    first, gives the value and leaves [hold] empty. *)
Lemma getbits_le : forall k v s tl,
  0 <= v < 256 ^ Z.of_nat k ->
  hold s = [] -> next s = le_bytes k v ++ tl ->
  getbits (8 * k) s = Ok v (set_next tl s).
Proof.
  induction k as [|k IH]; intros v s tl Hv Hh Hn.
  - simpl in *. assert (v = 0) by lia. subst. destruct s; simpl in *; subst.
    reflexivity.
  - replace (8 * S k)%nat with (8 + 8 * k)%nat by lia.
    rewrite getbits_add. cbn [le_bytes app] in Hn.
    assert (Hm : 0 <= v mod 256 < 256) by (apply Z.mod_pos_bound; lia).
    unfold bind at 1. rewrite (getbits_8 s _ _ Hh Hn Hm).
    assert (Hd : 0 <= v / 256 < 256 ^ Z.of_nat k).
    { rewrite Nat2Z.inj_succ, Z.pow_succ_r in Hv by lia.
      split; [apply Z.div_pos; lia|apply Z.div_lt_upper_bound; lia]. }
    unfold bind at 1.
    rewrite (IH (v / 256) (set_next (le_bytes k (v / 256) ++ tl) s) tl Hd);
      [|now destruct s|now destruct s].
    unfold ret. f_equal.
    change (2 ^ Z.of_nat 8) with 256. pose proof (Z.div_mod v 256). lia.
Qed.

Lemma le_bytes_length k v : length (le_bytes k v) = k.
Proof. revert v. induction k; intros; simpl; auto. Qed.

Lemma update_app c a b :
  Crc32.update (Crc32.update c a) b = Crc32.update c (a ++ b).
Proof.
  unfold Crc32.update. rewrite fold_left_app. f_equal. f_equal.
  rewrite Z.lxor_assoc, Z.lxor_nilpotent, Z.lxor_0_r. reflexivity.
Qed.

Lemma atomic_ok {A} (m : M A) s a t : m s = Ok a t -> atomic m s = Ok a t.
Proof. unfold atomic. now intros ->. Qed.

End Bytes.

(** ** The decoder reads a well-formed header to its end *)

Section Header.
Import Bits Inflate.

Local Opaque Crc32.update.

Lemma flag_bits h :
  0 <= flag_byte h < 256 /\
  Z.land (8 + 256 * flag_byte h) 0xff = 8 /\
  Z.land (8 + 256 * flag_byte h) 0xe000 = 0 /\
  Z.testbit (8 + 256 * flag_byte h) 9 = f_hcrc h /\
  Z.testbit (8 + 256 * flag_byte h) 10 = is_some (f_extra h) /\
  Z.testbit (8 + 256 * flag_byte h) 11 = is_some (f_name h) /\
  Z.testbit (8 + 256 * flag_byte h) 12 = is_some (f_comment h).
Proof.
  destruct h as [t c mt xf os [x|] [nm|] [cm|]]; destruct t, c;
    unfold flag_byte; cbn [f_text f_hcrc f_extra f_name f_comment is_some];
    vm_compute; repeat split; congruence.
Qed.

Lemma le_bytes_2 a b :
  0 <= a < 256 -> 0 <= b < 256 -> le_bytes 2 (a + 256 * b) = [a; b].
Proof.
  intros Ha Hb. cbn [le_bytes].
  pose proof (Z.div_mod (a + 256 * b) 256 ltac:(lia)).
  pose proof (Z.mod_pos_bound (a + 256 * b) 256 ltac:(lia)).
  assert (E1 : (a + 256 * b) mod 256 = a) by lia.
  assert (E2 : (a + 256 * b) / 256 = b) by lia.
  rewrite E1, E2, (Z.mod_small b) by lia. reflexivity.
Qed.

Lemma reaches_trans fl s t u : reaches fl s t -> reaches fl t u -> reaches fl s u.
Proof.
  induction 1; intros; eauto using reaches_turn.
Qed.

Lemma reaches_step fl s u t :
  ~ leaves fl s -> step (mode s) s = Ok u t -> reaches fl s t.
Proof. intros. eapply reaches_turn; eauto using reaches_here. Qed.

Lemma reaches_run fl s s' :
  reaches fl s s' -> leaves fl s' ->
  forall n, (phi s < n)%nat ->
  run n fl s =
    (match mode s' with DONE => AtDone | BAD => AtBad | _ => AtBlock end, s').
Proof.
  induction 1 as [s|s u t s' L E R IH]; intros Hl n Hn.
  - destruct n; [lia|]. now apply run_leaves.
  - destruct n; [lia|]. rewrite run_turn by assumption. rewrite E.
    pose proof (turn_lowers _ _ _ _ L E). apply IH; auto. lia.
Qed.

Lemma header_mode_stays fl m s :
  mode s = m -> hmode m = true -> m <> TYPE -> m <> BAD -> ~ leaves fl s.
Proof.
  intros <- H1 H2 H3 [L|[L|[L _]]]; try congruence.
  rewrite L in H1. discriminate.
Qed.

Local Ltac fields :=
  unfold hdr, crc_header, finish_header, store_name in *;
  cbn [mode hold next flags check h_done length_ put_byte
       set_mode set_last set_check set_next set_hold set_left set_codes
       set_flags set_h_time set_length set_offset set_lit set_h_done
       set_h_name set_h_name_max set_zname
       hmode rank andb negb Nat.leb] in *.

Local Ltac close :=
  repeat split; intros; auto; try congruence;
  try match goal with
      | Hc : _ -> check _ = Crc32.update 0 _ |- _ =>
          rewrite Hc by assumption; rewrite ?update_app, <- ?app_assoc;
          reflexivity
      end.

Lemma phase_HEAD h ahead s :
  hdr h HEAD [] ([31; 139] ++ ahead) s ->
  exists s', step HEAD s = Ok tt s' /\ hdr h FLAGS [31; 139] ahead s'.
Proof.
  intros (Hm & Hh & Hn & _ & _ & Hd).
  exists (set_mode FLAGS
            (set_check (Crc32.update 0 (le_bytes 2 35615)) (set_next ahead s))).
  split.
  - cbn [step]. unfold step_HEAD. apply atomic_ok.
    erewrite bind_ok by (apply (getbits_le 2 35615 s ahead); [lia|auto|auto]).
    reflexivity.
  - fields. close.
Qed.

Lemma phase_FLAGS h ahead s :
  hdr h FLAGS [31; 139] ([8; flag_byte h] ++ ahead) s ->
  exists s', step FLAGS s = Ok tt s' /\
             hdr h TIME [31; 139; 8; flag_byte h] ahead s'.
Proof.
  intros (Hm & Hh & Hn & _ & Hc & Hd).
  specialize (Hc ltac:(discriminate)).
  destruct (flag_bits h) as (Hf & H8 & He & H9 & _).
  set (v := 8 + 256 * flag_byte h) in *.
  assert (Hle : le_bytes 2 v = [8; flag_byte h])
    by (unfold v; apply le_bytes_2; lia).
  exists (set_mode TIME (crc_header (le_bytes 2 v) (set_flags v (set_next ahead s)))).
  split.
  - cbn [step]. unfold step_FLAGS. apply atomic_ok.
    erewrite bind_ok
      by (apply (getbits_le 2 v s ahead);
          [unfold v; lia|auto|rewrite Hle; auto]).
    unfold bind, modify. rewrite H8, He. reflexivity.
  - rewrite Hle. fields. rewrite H9.
    destruct (f_hcrc h) eqn:Ec; fields; close.
Qed.

Lemma phase_TIME h seen ahead s :
  0 <= f_mtime h < 2 ^ 32 ->
  hdr h TIME seen (le_bytes 4 (f_mtime h) ++ ahead) s ->
  exists s', step TIME s = Ok tt s' /\
             hdr h OS (seen ++ le_bytes 4 (f_mtime h)) ahead s'.
Proof.
  intros Ht (Hm & Hh & Hn & Hfl & Hc & Hd).
  specialize (Hfl ltac:(discriminate) ltac:(discriminate)).
  specialize (Hc ltac:(discriminate)).
  destruct (flag_bits h) as (_ & _ & _ & H9 & _).
  exists (set_mode OS (crc_header (le_bytes 4 (f_mtime h))
                        (set_h_time (f_mtime h) (set_next ahead s)))).
  split.
  - cbn [step]. unfold step_TIME. apply atomic_ok.
    erewrite bind_ok
      by (apply (getbits_le 4 (f_mtime h) s ahead); [exact Ht|auto|auto]).
    reflexivity.
  - fields. rewrite Hfl, H9.
    destruct (f_hcrc h) eqn:Ec; fields; close.
Qed.

Lemma phase_OS h seen ahead s :
  is_byte (f_xfl h) -> is_byte (f_os h) ->
  hdr h OS seen ([f_xfl h; f_os h] ++ ahead) s ->
  exists s', step OS s = Ok tt s' /\
             hdr h EXLEN (seen ++ [f_xfl h; f_os h]) ahead s'.
Proof.
  intros Hx Ho (Hm & Hh & Hn & Hfl & Hc & Hd).
  specialize (Hfl ltac:(discriminate) ltac:(discriminate)).
  specialize (Hc ltac:(discriminate)).
  destruct (flag_bits h) as (_ & _ & _ & H9 & _).
  unfold is_byte in *.
  set (v := f_xfl h + 256 * f_os h).
  assert (Hle : le_bytes 2 v = [f_xfl h; f_os h])
    by (unfold v; apply le_bytes_2; lia).
  exists (set_mode EXLEN (crc_header (le_bytes 2 v) (set_next ahead s))).
  split.
  - cbn [step]. unfold step_OS. apply atomic_ok.
    erewrite bind_ok
      by (apply (getbits_le 2 v s ahead);
          [unfold v; lia|auto|rewrite Hle; auto]).
    reflexivity.
  - rewrite Hle. fields. rewrite Hfl, H9.
    destruct (f_hcrc h) eqn:Ec; fields; close.
Qed.

Lemma skip_extra_spec h : forall x s seen tl,
  hold s = [] -> next s = x ++ tl -> flags s = 8 + 256 * flag_byte h ->
  exists s',
    skip_extra (length x) s = Ok tt s' /\
    mode s' = mode s /\ hold s' = [] /\ next s' = tl /\
    flags s' = flags s /\ h_done s' = h_done s /\
    (f_hcrc h = true -> check s = Crc32.update 0 seen ->
     check s' = Crc32.update 0 (seen ++ x)).
Proof.
  destruct (flag_bits h) as (_ & _ & _ & H9 & _).
  induction x as [|b x IH]; intros s seen tl Hh Hn Hfl.
  - exists s. cbn [length skip_extra]. unfold ret. simpl in Hn.
    rewrite app_nil_r. repeat split; auto.
  - cbn [length skip_extra].
    set (s2 := crc_header [b] (set_length (length_ (set_next (x ++ tl) s) - 1)
                                 (set_next (x ++ tl) s))).
    assert (E : take_byte s = Ok b (set_next (x ++ tl) s)).
    { unfold take_byte. now rewrite Hn. }
    assert (F : mode s2 = mode s /\ hold s2 = [] /\ next s2 = x ++ tl /\
                flags s2 = flags s /\ h_done s2 = h_done s /\
                (f_hcrc h = true -> check s = Crc32.update 0 seen ->
                 check s2 = Crc32.update 0 (seen ++ [b]))).
    { unfold s2. fields. rewrite Hfl, H9.
      destruct (f_hcrc h); fields; repeat split; auto; try congruence.
      intros _ ->. apply update_app. }
    destruct F as (F1 & F2 & F3 & F4 & F5 & F6).
    destruct (IH s2 (seen ++ [b]) tl F2 F3 ltac:(congruence))
      as (s' & E' & G1 & G2 & G3 & G4 & G5 & G6).
    exists s'. split.
    + rewrite (bind_ok _ _ _ _ _ E). unfold bind at 1, modify at 1.
      fold s2. exact E'.
    + repeat split; try congruence.
      intros Hc Hs. rewrite <- app_assoc in G6. apply G6; auto.
Qed.

Lemma phase_EXTRA h fl seen ahead s :
  match f_extra h with Some x => zlen x < 2 ^ 16 | None => True end ->
  hdr h EXLEN seen (extra_part h ++ ahead) s ->
  exists s', reaches fl s s' /\ hdr h NAME (seen ++ extra_part h) ahead s'.
Proof.
  intros Hx (Hm & Hh & Hn & Hfl & Hc & Hd).
  specialize (Hfl ltac:(discriminate) ltac:(discriminate)).
  specialize (Hc ltac:(discriminate)).
  destruct (flag_bits h) as (_ & _ & _ & H9 & H10 & _).
  assert (L : ~ leaves fl s)
    by (apply (header_mode_stays fl EXLEN); auto; discriminate).
  unfold extra_part in *. destruct (f_extra h) as [x|] eqn:Ex.
  - set (v := zlen x) in *.
    set (s1 := set_mode EXTRA (crc_header (le_bytes 2 v)
                                 (set_length v (set_next (x ++ ahead) s)))).
    assert (E1 : step (mode s) s = Ok tt s1).
    { rewrite Hm. cbn [step]. unfold step_EXLEN, bind at 1, gets.
      rewrite Hfl, H10. cbn [is_some]. apply atomic_ok.
      erewrite bind_ok
        by (apply (getbits_le 2 v s (x ++ ahead));
            [pose proof (zlen_nonneg x); unfold v; lia|auto
            |rewrite Hn; now rewrite <- app_assoc]).
      reflexivity. }
    assert (F : mode s1 = EXTRA /\ hold s1 = [] /\ next s1 = x ++ ahead /\
                flags s1 = 8 + 256 * flag_byte h /\ h_done s1 = 0 /\
                length_ s1 = v /\
                (f_hcrc h = true ->
                 check s1 = Crc32.update 0 (seen ++ le_bytes 2 v))).
    { unfold s1. fields. rewrite Hfl, H9.
      destruct (f_hcrc h); fields; close. }
    destruct F as (F1 & F2 & F3 & F4 & F5 & F6 & F7).
    destruct (skip_extra_spec h x s1 (seen ++ le_bytes 2 v) ahead F2 F3 F4)
      as (s2 & E2 & G1 & G2 & G3 & G4 & G5 & G6).
    set (s3 := set_mode NAME (set_length 0 s2)).
    assert (E3 : step (mode s1) s1 = Ok tt s3).
    { rewrite F1. cbn [step]. unfold step_EXTRA, bind at 1, gets.
      rewrite F4, H10. cbn [is_some].
      unfold bind at 1. unfold bind at 1, gets. rewrite F6.
      unfold v, zlen. rewrite Nat2Z.id, E2. reflexivity. }
    exists s3. split.
    + eapply reaches_turn; [exact L|exact E1|].
      eapply reaches_step; [|exact E3].
      apply (header_mode_stays fl EXTRA); auto; discriminate.
    + unfold s3. fields. repeat split; intros; auto; try congruence.
      rewrite G6; auto. now rewrite <- app_assoc.
  - set (s1 := set_mode EXTRA s).
    assert (E1 : step (mode s) s = Ok tt s1).
    { rewrite Hm. cbn [step]. unfold step_EXLEN, bind at 1, gets.
      rewrite Hfl, H10. reflexivity. }
    set (s3 := set_mode NAME (set_length 0 s1)).
    assert (E3 : step (mode s1) s1 = Ok tt s3).
    { unfold s1 at 1. change (mode (set_mode EXTRA s)) with EXTRA.
      cbn [step]. unfold step_EXTRA, bind at 1, gets.
      change (flags s1) with (flags s). rewrite Hfl, H10. reflexivity. }
    exists s3. split.
    + eapply reaches_turn; [exact L|exact E1|].
      eapply reaches_step; [|exact E3].
      apply (header_mode_stays fl EXTRA); auto; discriminate.
    + unfold s3, s1. simpl in Hn. rewrite app_nil_r. fields. close.
Qed.

Lemma crc_header_keeps bytes s :
  mode (crc_header bytes s) = mode s /\ hold (crc_header bytes s) = hold s /\
  next (crc_header bytes s) = next s /\ flags (crc_header bytes s) = flags s /\
  h_done (crc_header bytes s) = h_done s.
Proof. unfold crc_header. destruct (Z.testbit (flags s) 9); now destruct s. Qed.

Lemma crc_header_check h bytes s seen :
  flags s = 8 + 256 * flag_byte h -> f_hcrc h = true ->
  check s = Crc32.update 0 seen ->
  check (crc_header bytes s) = Crc32.update 0 (seen ++ bytes).
Proof.
  intros Hfl Hc E. destruct (flag_bits h) as (_ & _ & _ & H9 & _).
  unfold crc_header. rewrite Hfl, H9, Hc. cbn [check set_check].
  rewrite E. apply update_app.
Qed.

Lemma store_name_keeps b s :
  mode (store_name b s) = mode s /\ hold (store_name b s) = hold s /\
  next (store_name b s) = next s /\ flags (store_name b s) = flags s /\
  h_done (store_name b s) = h_done s /\ check (store_name b s) = check s.
Proof.
  unfold store_name. destruct (h_name s && (length_ s <? h_name_max s));
    now destruct s.
Qed.

(** The bytes of a text field are read one at a time, the mode staying
    where it is. *)
Lemma name_bytes h fl : forall l s seen tl,
  Forall (fun b => 0 < b < 256) l ->
  is_some (f_name h) = true ->
  mode s = NAME -> hold s = [] -> next s = l ++ tl ->
  flags s = 8 + 256 * flag_byte h -> h_done s = 0 ->
  exists s',
    reaches fl s s' /\ mode s' = NAME /\ hold s' = [] /\ next s' = tl /\
    flags s' = flags s /\ h_done s' = 0 /\
    (f_hcrc h = true -> check s = Crc32.update 0 seen ->
     check s' = Crc32.update 0 (seen ++ l)).
Proof.
  destruct (flag_bits h) as (_ & _ & _ & _ & _ & H11 & _).
  induction l as [|b l IH]; intros s seen tl Hl Hs Hm Hh Hn Hfl Hd.
  - exists s. simpl in Hn. rewrite app_nil_r.
    repeat split; auto using reaches_here.
  - inversion Hl as [|? ? Hb Hl']; subst.
    set (s1 := set_next (l ++ tl) s).
    set (s2 := crc_header [b] (store_name b s1)).
    assert (E : step (mode s) s = Ok tt s2).
    { rewrite Hm. cbn [step]. unfold step_NAME, bind at 1, gets.
      rewrite Hfl, H11, Hs.
      assert (T : take_byte s = Ok b s1) by (unfold take_byte; now rewrite Hn).
      rewrite (bind_ok _ _ _ _ _ T). unfold bind at 1, modify at 1.
      fold s2. destruct (b =? 0) eqn:Eb; [lia|reflexivity]. }
    destruct (crc_header_keeps [b] (store_name b s1)) as (K1 & K2 & K3 & K4 & K5).
    destruct (store_name_keeps b s1) as (N1 & N2 & N3 & N4 & N5 & N6).
    fold s2 in K1, K2, K3, K4, K5.
    assert (F1 : mode s2 = NAME) by (rewrite K1, N1; exact Hm).
    assert (F2 : hold s2 = []) by (rewrite K2, N2; exact Hh).
    assert (F3 : next s2 = l ++ tl) by (rewrite K3, N3; reflexivity).
    assert (F4 : flags s2 = 8 + 256 * flag_byte h) by (rewrite K4, N4; exact Hfl).
    assert (F5 : h_done s2 = 0) by (rewrite K5, N5; exact Hd).
    destruct (IH s2 (seen ++ [b]) tl Hl' Hs F1 F2 F3 F4 F5)
      as (s' & R & G1 & G2 & G3 & G4 & G5 & G6).
    exists s'. split.
    + eapply reaches_turn; [|exact E|exact R].
      apply (header_mode_stays fl NAME); auto; discriminate.
    + repeat split; auto; try congruence.
      intros Hc Hk. rewrite <- app_assoc in G6. apply G6; auto.
      apply (crc_header_check h); auto.
      * rewrite N4. exact Hfl.
      * rewrite N6. exact Hk.
Qed.

Lemma phase_NAME h fl seen ahead s :
  text_ok (f_name h) ->
  hdr h NAME seen (text_part (f_name h) ++ ahead) s ->
  exists s', reaches fl s s' /\
             hdr h COMMENT (seen ++ text_part (f_name h)) ahead s'.
Proof.
  intros Ht (Hm & Hh & Hn & Hfl & Hc & Hd).
  specialize (Hfl ltac:(discriminate) ltac:(discriminate)).
  specialize (Hc ltac:(discriminate)).
  destruct (flag_bits h) as (_ & _ & _ & H9 & _ & H11 & _).
  cbn [hmode rank andb negb Nat.leb] in Hd.
  unfold text_part, text_ok in *. destruct (f_name h) as [l|] eqn:En.
  - rewrite <- app_assoc in Hn.
    destruct (name_bytes h fl l s seen ([0] ++ ahead) Ht
                ltac:(now rewrite En) Hm Hh Hn Hfl Hd)
      as (s1 & R & G1 & G2 & G3 & G4 & G5 & G6).
    set (s2 := set_next ahead s1).
    set (s3 := crc_header [0] (store_name 0 s2)).
    set (s4 := set_mode COMMENT (set_length 0 s3)).
    assert (E : step (mode s1) s1 = Ok tt s4).
    { rewrite G1. cbn [step]. unfold step_NAME, bind at 1, gets.
      rewrite G4, Hfl, H11. cbn [is_some].
      assert (T : take_byte s1 = Ok 0 s2) by (unfold take_byte; now rewrite G3).
      rewrite (bind_ok _ _ _ _ _ T). reflexivity. }
    destruct (crc_header_keeps [0] (store_name 0 s2)) as (K1 & K2 & K3 & K4 & K5).
    destruct (store_name_keeps 0 s2) as (N1 & N2 & N3 & N4 & N5 & N6).
    fold s3 in K1, K2, K3, K4, K5.
    change (mode s2) with (mode s1) in N1. change (hold s2) with (hold s1) in N2.
    change (next s2) with ahead in N3. change (flags s2) with (flags s1) in N4.
    change (h_done s2) with (h_done s1) in N5.
    change (check s2) with (check s1) in N6.
    exists s4. split.
    + eapply reaches_trans; [exact R|]. eapply reaches_step; [|exact E].
      apply (header_mode_stays fl NAME); auto; discriminate.
    + unfold hdr, s4. cbn [mode hold next flags check h_done set_mode set_length
                            hmode rank andb negb Nat.leb].
      split; [reflexivity|]. split; [now rewrite K2, N2|].
      split; [now rewrite K3, N3|].
      split; [intros _ _; rewrite K4, N4; congruence|].
      split; [|rewrite K5, N5; exact G5].
      intros _ Hk. rewrite app_assoc. apply (crc_header_check h); auto.
      * rewrite N4. congruence.
      * rewrite N6. auto.
  - set (s4 := set_mode COMMENT (set_length 0 (set_h_name false s))).
    assert (E : step (mode s) s = Ok tt s4).
    { rewrite Hm. cbn [step]. unfold step_NAME, bind at 1, gets.
      rewrite Hfl, H11. reflexivity. }
    exists s4. split.
    + eapply reaches_step; [|exact E].
      apply (header_mode_stays fl NAME); auto; discriminate.
    + simpl in Hn. rewrite app_nil_r. unfold s4. fields. close.
Qed.

Lemma comment_bytes h fl : forall l s seen tl,
  Forall (fun b => 0 < b < 256) l ->
  is_some (f_comment h) = true ->
  mode s = COMMENT -> hold s = [] -> next s = l ++ tl ->
  flags s = 8 + 256 * flag_byte h -> h_done s = 0 ->
  exists s',
    reaches fl s s' /\ mode s' = COMMENT /\ hold s' = [] /\ next s' = tl /\
    flags s' = flags s /\ h_done s' = 0 /\
    (f_hcrc h = true -> check s = Crc32.update 0 seen ->
     check s' = Crc32.update 0 (seen ++ l)).
Proof.
  destruct (flag_bits h) as (_ & _ & _ & _ & _ & _ & H12).
  induction l as [|b l IH]; intros s seen tl Hl Hs Hm Hh Hn Hfl Hd.
  - exists s. simpl in Hn. rewrite app_nil_r.
    repeat split; auto using reaches_here.
  - inversion Hl as [|? ? Hb Hl']; subst.
    set (s1 := set_next (l ++ tl) s).
    set (s2 := crc_header [b] s1).
    assert (E : step (mode s) s = Ok tt s2).
    { rewrite Hm. cbn [step]. unfold step_COMMENT, bind at 1, gets.
      rewrite Hfl, H12, Hs.
      assert (T : take_byte s = Ok b s1) by (unfold take_byte; now rewrite Hn).
      rewrite (bind_ok _ _ _ _ _ T). unfold bind at 1, modify at 1.
      fold s2. destruct (b =? 0) eqn:Eb; [lia|reflexivity]. }
    destruct (crc_header_keeps [b] s1) as (K1 & K2 & K3 & K4 & K5).
    fold s2 in K1, K2, K3, K4, K5.
    destruct (IH s2 (seen ++ [b]) tl Hl' Hs
                ltac:(now rewrite K1) ltac:(now rewrite K2)
                ltac:(now rewrite K3) ltac:(now rewrite K4)
                ltac:(now rewrite K5))
      as (s' & R & G1 & G2 & G3 & G4 & G5 & G6).
    exists s'. split.
    + eapply reaches_turn; [|exact E|exact R].
      apply (header_mode_stays fl COMMENT); auto; discriminate.
    + change (flags s1) with (flags s) in K4.
      repeat split; auto; try congruence.
      intros Hc Hk. rewrite <- app_assoc in G6. apply G6; auto.
      apply (crc_header_check h [b] s1 seen); [exact Hfl|exact Hc|exact Hk].
Qed.

Lemma phase_COMMENT h fl seen ahead s :
  text_ok (f_comment h) ->
  hdr h COMMENT seen (text_part (f_comment h) ++ ahead) s ->
  exists s', reaches fl s s' /\
             hdr h HCRC (seen ++ text_part (f_comment h)) ahead s'.
Proof.
  intros Ht (Hm & Hh & Hn & Hfl & Hc & Hd).
  specialize (Hfl ltac:(discriminate) ltac:(discriminate)).
  specialize (Hc ltac:(discriminate)).
  destruct (flag_bits h) as (_ & _ & _ & H9 & _ & _ & H12).
  cbn [hmode rank andb negb Nat.leb] in Hd.
  unfold text_part, text_ok in *. destruct (f_comment h) as [l|] eqn:En.
  - rewrite <- app_assoc in Hn.
    destruct (comment_bytes h fl l s seen ([0] ++ ahead) Ht
                ltac:(now rewrite En) Hm Hh Hn Hfl Hd)
      as (s1 & R & G1 & G2 & G3 & G4 & G5 & G6).
    set (s2 := set_next ahead s1).
    set (s3 := crc_header [0] s2).
    set (s4 := set_mode HCRC s3).
    assert (E : step (mode s1) s1 = Ok tt s4).
    { rewrite G1. cbn [step]. unfold step_COMMENT, bind at 1, gets.
      rewrite G4, Hfl, H12. cbn [is_some].
      assert (T : take_byte s1 = Ok 0 s2) by (unfold take_byte; now rewrite G3).
      rewrite (bind_ok _ _ _ _ _ T). reflexivity. }
    destruct (crc_header_keeps [0] s2) as (K1 & K2 & K3 & K4 & K5).
    fold s3 in K1, K2, K3, K4, K5.
    change (hold s2) with (hold s1) in K2. change (next s2) with ahead in K3.
    change (flags s2) with (flags s1) in K4.
    change (h_done s2) with (h_done s1) in K5.
    exists s4. split.
    + eapply reaches_trans; [exact R|]. eapply reaches_step; [|exact E].
      apply (header_mode_stays fl COMMENT); auto; discriminate.
    + unfold hdr, s4. cbn [mode hold next flags check h_done set_mode
                            hmode rank andb negb Nat.leb].
      split; [reflexivity|]. split; [now rewrite K2|].
      split; [exact K3|].
      split; [intros _ _; rewrite K4; congruence|].
      split; [|rewrite K5; exact G5].
      intros _ Hk. rewrite app_assoc.
      apply (crc_header_check h [0] s2 (seen ++ l)); auto.
      change (flags s2) with (flags s1). congruence.
  - set (s4 := set_mode HCRC s).
    assert (E : step (mode s) s = Ok tt s4).
    { rewrite Hm. cbn [step]. unfold step_COMMENT, bind at 1, gets.
      rewrite Hfl, H12. reflexivity. }
    exists s4. split.
    + eapply reaches_step; [|exact E].
      apply (header_mode_stays fl COMMENT); auto; discriminate.
    + simpl in Hn. rewrite app_nil_r. unfold s4. fields. close.
Qed.

(** The header CRC, when there is one, is the one computed over the
    bytes read; the header is then marked as complete. *)
Lemma phase_HCRC h ahead s :
  hdr h HCRC (before_crc h)
    ((if f_hcrc h
      then le_bytes 2 (Z.land (Crc32.update 0 (before_crc h)) 0xffff)
      else []) ++ ahead) s ->
  exists s', step HCRC s = Ok tt s' /\
             mode s' = TYPE /\ hold s' = [] /\ next s' = ahead /\
             h_done s' = 1.
Proof.
  intros (Hm & Hh & Hn & Hfl & Hc & Hd).
  specialize (Hfl ltac:(discriminate) ltac:(discriminate)).
  specialize (Hc ltac:(discriminate)).
  destruct (flag_bits h) as (_ & _ & _ & H9 & _).
  cbn [step]. unfold step_HCRC, bind at 1, gets. rewrite Hfl, H9.
  destruct (f_hcrc h) eqn:Ec.
  - set (v := Z.land (Crc32.update 0 (before_crc h)) 0xffff) in *.
    assert (Hv : 0 <= v < 256 ^ Z.of_nat 2).
    { unfold v. change 0xffff with (Z.ones 16). rewrite Z.land_ones by lia.
      apply Z.mod_pos_bound. reflexivity. }
    exists (finish_header (set_next ahead s)). split.
    + apply atomic_ok.
      erewrite bind_ok by (apply (getbits_le 2 v s ahead); auto).
      unfold bind at 1, gets. cbn [check set_next].
      rewrite Hc by reflexivity. fold v. rewrite Z.eqb_refl. reflexivity.
    + unfold finish_header. cbn [mode hold next h_done set_mode set_check
                                  set_h_done set_next]. auto.
  - exists (finish_header s). split; [reflexivity|].
    unfold finish_header. cbn [mode hold next h_done set_mode set_check
                                set_h_done]. simpl in Hn. auto.
Qed.

Lemma hdr_turn h fl m seen ahead s s' :
  hdr h m seen ahead s -> hmode m = true -> m <> TYPE -> m <> BAD ->
  step m s = Ok tt s' -> reaches fl s s'.
Proof.
  intros (Hm & _) H1 H2 H3 E. eapply reaches_step.
  - now apply (header_mode_stays fl m).
  - rewrite Hm. exact E.
Qed.

Lemma encode_header_nonempty h : encode_header h <> [].
Proof. unfold encode_header, before_crc, fixed_part. discriminate. Qed.

(** From the first byte of a well-formed header the decoder comes to the
    mode [TYPE], just behind the header, with the header marked as
    complete. *)
Lemma header_reaches h fl rest s0 :
  well_formed_header h ->
  hdr h HEAD [] (encode_header h ++ rest) s0 ->
  exists s1, reaches fl s0 s1 /\ mode s1 = TYPE /\ hold s1 = [] /\
             next s1 = rest /\ h_done s1 = 1.
Proof.
  intros (Wt & Wx & Wo & We & Wn & Wc) H0.
  unfold encode_header, before_crc, fixed_part in H0.
  rewrite <- !app_assoc in H0.
  change ([31; 139; 8; flag_byte h] ++ ?l) with
    ([31; 139] ++ [8; flag_byte h] ++ l) in H0.
  destruct (phase_HEAD _ _ _ H0) as (s1 & E1 & H1).
  destruct (phase_FLAGS _ _ _ H1) as (s2 & E2 & H2).
  destruct (phase_TIME _ _ _ _ Wt H2) as (s3 & E3 & H3).
  destruct (phase_OS _ _ _ _ Wx Wo H3) as (s4 & E4 & H4).
  destruct (phase_EXTRA _ fl _ _ _ We H4) as (s5 & R5 & H5).
  destruct (phase_NAME _ fl _ _ _ Wn H5) as (s6 & R6 & H6).
  destruct (phase_COMMENT _ fl _ _ _ Wc H6) as (s7 & R7 & H7).
  assert (H7' : hdr h HCRC (before_crc h)
                  ((if f_hcrc h
                    then le_bytes 2 (Z.land (Crc32.update 0 (before_crc h)) 65535)
                    else []) ++ rest) s7).
  { unfold before_crc, fixed_part. rewrite <- !app_assoc in *. exact H7. }
  destruct (phase_HCRC _ _ _ H7') as (s8 & E8 & G1 & G2 & G3 & G4).
  exists s8. split; [|auto].
  eapply reaches_trans;
    [eapply (hdr_turn h fl HEAD); [exact H0|reflexivity|discriminate..|exact E1]|].
  eapply reaches_trans;
    [eapply (hdr_turn h fl FLAGS); [exact H1|reflexivity|discriminate..|exact E2]|].
  eapply reaches_trans;
    [eapply (hdr_turn h fl TIME); [exact H2|reflexivity|discriminate..|exact E3]|].
  eapply reaches_trans;
    [eapply (hdr_turn h fl OS); [exact H3|reflexivity|discriminate..|exact E4]|].
  eapply reaches_trans; [exact R5|].
  eapply reaches_trans; [exact R6|].
  eapply reaches_trans; [exact R7|].
  eapply (hdr_turn h fl HCRC); [exact H7|reflexivity|discriminate..|exact E8].
Qed.

(** The first call of [inflate], with [Z_BLOCK], on input that begins
    with a well-formed header. *)
Lemma header_call h filesize rest :
  well_formed_header h ->
  exists zs1,
    inflate (open_stream filesize (encode_header h ++ rest)) Z_BLOCK
      = (Z_OK, zs1) /\
    h_done (state zs1) = 1 /\
    h_time (state zs1) <> None.
Proof.
  intros W.
  set (B := to_uInt (OUTBUF_MULT * filesize)).
  set (inbuf := encode_header h ++ rest).
  set (S0 := member_start inbuf B).
  assert (H0 : hdr h HEAD [] inbuf S0).
  { unfold hdr. repeat split; intros; try congruence; reflexivity. }
  destruct (header_reaches h Z_BLOCK rest S0 W H0)
    as (s1 & R & G1 & G2 & G3 & G4).
  pose proof (reaches_run Z_BLOCK S0 s1 R
                (or_intror (or_intror (conj G1 eq_refl)))
                (enough S0) (enough_phi S0)) as Hr.
  rewrite G1 in Hr.
  assert (Hn : encode_header h <> []) by apply encode_header_nonempty.
  assert (Hlen : 0 < zlen (encode_header h)).
  { destruct (encode_header h); [congruence|]. unfold zlen. simpl length. lia. }
  eexists. split.
  - unfold inflate. cbv zeta. rewrite loaded_open. fold B. fold inbuf. fold S0.
    rewrite Hr. cbn [ret_code].
    change (next S0) with inbuf. rewrite G3.
    assert (E : zlen inbuf - zlen rest = zlen (encode_header h))
      by (unfold inbuf; rewrite zlen_app; ring).
    rewrite E.
    destruct (zlen (encode_header h) =? 0) eqn:E0;
      [apply Z.eqb_eq in E0; lia|].
    cbn [andb]. reflexivity.
  - cbn [state]. split; [exact G4|].
    apply (run_block_timed _ S0 _ _ eq_refl) in Hr; auto. discriminate.
Qed.

(** **** C6 (amended).  For a member with a well-formed gzip header
    that lies in the file as a whole, with every optional field that its
    flags announce, wherever it lies ([pre] before it, [rest] behind its
    header), the call of [get_header_for_zstream] prints the header
    report, and the line of the done field reads 1, "Header is complete.":
    the first [fread] has buffered the file from the member on, so that
    the decoder reads to the end of the header. *)
Theorem C6_well_formed_header_reported_complete h pre rest n :
  well_formed_header h ->
  zlen (pre ++ encode_header h ++ rest) < 2 ^ 31 ->
  exists t nm,
    firstn 4 (printed (get_header_for_zstream
                         (at_offset (pre ++ encode_header h ++ rest) (zlen pre))
                         n (zlen (pre ++ encode_header h ++ rest))))
    = [HeaderTitle n; TimeField t; NameField nm; DoneField 1 HeaderComplete].
Proof.
  intros W Hs.
  set (content := pre ++ encode_header h ++ rest) in *.
  change (zlen content) with (st_size (at_offset content (zlen pre))).
  rewrite get_header_eq;
    [|reflexivity|apply zlen_nonneg
     |change (st_size (at_offset content (zlen pre))) with (zlen content); lia].
  unfold member_call.
  change (st_size (at_offset content (zlen pre))) with (zlen content).
  unfold content. rewrite (fread_member pre (encode_header h) rest)
    by apply encode_header_nonempty.
  fold content.
  assert (Hl : 0 < zlen (encode_header h ++ rest)).
  { pose proof (encode_header_nonempty h). rewrite zlen_app.
    pose proof (zlen_nonneg rest). destruct (encode_header h); [congruence|].
    unfold zlen in *. simpl length. lia. }
  destruct (zlen (encode_header h ++ rest) =? 0) eqn:E0;
    [apply Z.eqb_eq in E0; lia|].
  destruct (header_call h (zlen content) rest W) as (zs1 & E1 & Hd & Htm).
  rewrite E1. change (negb (Z_OK =? Z_OK)) with false. cbv iota.
  exists (option_map to_int (h_time (state zs1))),
         (if h_name (state zs1) then NameAt (zname (state zs1)) else NullName).
  destruct (h_time (state zs1)) as [tm|] eqn:Et; [|congruence].
  destruct (inflate zs1 Z_NO_FLUSH) as [r2 zs2].
  destruct (r2 <? 0); cbn [printed]; unfold header_lines; rewrite Hd;
    reflexivity.
Qed.

(** The header of [hello_gz]: the name "a.txt", the time 77, no other
    optional field. *)
Lemma C6_hello_witness :
  well_formed_header
    (mkFields false false 77 2 3 None (Some [97; 46; 116; 120; 116]) None) /\
  exists t nm,
    firstn 4 (printed (get_header_for_zstream (at_offset hello_gz 0) 1
                         (zlen hello_gz)))
    = [HeaderTitle 1; TimeField t; NameField nm; DoneField 1 HeaderComplete].
Proof.
  assert (W : well_formed_header
    (mkFields false false 77 2 3 None (Some [97; 46; 116; 120; 116]) None)).
  { unfold well_formed_header, is_byte, text_ok.
    cbn [f_mtime f_xfl f_os f_extra f_name f_comment].
    repeat split; try lia; repeat constructor; lia. }
  split; [exact W|].
  apply (C6_well_formed_header_reported_complete
           (mkFields false false 77 2 3 None (Some [97; 46; 116; 120; 116]) None)
           [] (skipn 16 hello_gz) 1 W).
  vm_compute. reflexivity.
Defined.

(** **** C6 (counterexample to the claim as stated).  Input that reaches
    past the name field is not enough.  [commented_header] is well formed,
    with the name "a" and the comment "cc"; [cut_comment_gz] holds its
    first thirteen bytes: the ten fixed bytes, the name with its
    terminating zero, and one letter of the comment.  The name is read
    whole, and the header report shows the done field 0, "Header is
    incomplete."; the program then exits from the boundary loop. *)
Lemma C6_input_past_name_reported_incomplete :
  well_formed_header commented_header /\
  encode_header commented_header = cut_comment_gz ++ [99; 0] /\
  cut_comment_gz =
    fixed_part commented_header ++ text_part (f_name commented_header)
    ++ [99] /\
  get_header_for_zstream (at_offset cut_comment_gz 0) 1 (zlen cut_comment_gz)
    = mkCall [HeaderTitle 1; TimeField (Some 77);
              NameField (NameAt (stored_name [97]));
              DoneField 0 HeaderIncomplete]
        (mkFile cut_comment_gz 13 false false)
        (Exit BodyInflateFailed Z_BUF_ERROR) /\
  c_string (stored_name [97]) = Some [97].
Proof.
  split.
  { unfold well_formed_header, is_byte, text_ok, commented_header.
    cbn [f_mtime f_xfl f_os f_extra f_name f_comment].
    repeat split; try lia; repeat constructor; lia. }
  split; [reflexivity|]. split; [reflexivity|].
  split; vm_compute; reflexivity.
Qed.

End Header.

(** ** Files made of members that fit the output buffer *)

Section MemberFiles.
Import Inflate.

Lemma sizes_app a b : sizes (a ++ b) = sizes a ++ sizes b.
Proof. induction a as [|[] a IH]; simpl; congruence. Qed.

Lemma numbers_app a b : numbers (a ++ b) = numbers a ++ numbers b.
Proof. induction a as [|[] a IH]; simpl; congruence. Qed.

Lemma member_call_report f n :
  numbers (printed (member_call f n)) = [] /\
  sizes (printed (member_call f n)) =
    match List.last (printed (member_call f n)) Separator with
    | DecompressedSize x => [x]
    | _ => []
    end.
Proof.
  unfold member_call. destruct (fread (st_size f) f) as [inbuf f1].
  destruct (zlen inbuf =? 0); [auto|].
  destruct (inflate _ Z_BLOCK) as [r1 zs1].
  destruct (negb (r1 =? Z_OK)); [auto|].
  destruct (h_time (state zs1)); [|auto].
  destruct (inflate zs1 Z_NO_FLUSH) as [r2 zs2].
  destruct (r2 <? 0); cbn [printed]; [auto|].
  rewrite numbers_app, sizes_app, last_last. auto.
Qed.

(** The call for a member that fits the buffer returns the length of the
    member and reports its decompressed size. *)
Lemma fitting_member_call pre m rest size n :
  gzip_member m size ->
  size <= to_uInt (OUTBUF_MULT * zlen (pre ++ m ++ rest)) ->
  zlen (pre ++ m ++ rest) < 2 ^ 31 ->
  result (get_header_for_zstream (at_offset (pre ++ m ++ rest) (zlen pre)) n
            (zlen (pre ++ m ++ rest))) = Return (zlen m) /\
  sizes (printed (get_header_for_zstream
                    (at_offset (pre ++ m ++ rest) (zlen pre)) n
                    (zlen (pre ++ m ++ rest)))) = [size].
Proof.
  intros Hm Hfit Hs.
  pose proof (member_nonempty _ _ Hm) as Hne.
  rewrite header_at by (auto using zlen_nonneg).
  set (B := to_uInt (OUTBUF_MULT * zlen (pre ++ m ++ rest))) in *.
  destruct (run_fits m rest size B Hm Hfit) as (T & HT & Hn & _ & Hl).
  destruct (member_call_run pre m rest n _ _ Hne Hs HT (or_introl eq_refl))
    as (zs & f & _ & Hin & Hout & Hr & Hlast).
  destruct (member_call_report (at_offset (pre ++ m ++ rest) (zlen pre)) n)
    as (_ & Hsz).
  rewrite Hsz, Hlast, Hr, Hin, Hout, Hn, Hl, zlen_app. fold B.
  replace (B - (B - size)) with size by ring.
  replace (zlen m + zlen rest - zlen rest) with (zlen m) by ring.
  split; [|reflexivity]. rewrite to_int_small; [reflexivity|].
  rewrite !zlen_app in Hs. pose proof (zlen_nonneg pre).
  pose proof (zlen_nonneg rest). pose proof (zlen_nonneg m). lia.
Qed.

Lemma last_length_cons ret0 m ms :
  last_length ret0 (m :: ms) = last_length (Some (zlen m)) ms.
Proof.
  unfold last_length. cbn [rev]. destruct (rev ms); reflexivity.
Qed.

Lemma block_report c n p e rest :
  numbers c = [] ->
  numbers ([Separator; MemberBegin n p] ++ c ++ [MemberEnd n e; Separator] ++ rest)
    = n :: numbers rest /\
  sizes ([Separator; MemberBegin n p] ++ c ++ [MemberEnd n e; Separator] ++ rest)
    = sizes c ++ sizes rest.
Proof.
  intros Hn. cbn [app numbers sizes]. rewrite numbers_app, sizes_app, Hn.
  auto.
Qed.

Lemma file_of_cons m size mss : file_of ((m, size) :: mss) = m ++ file_of mss.
Proof. reflexivity. Qed.

(** The scan of the members [mss] that lie at the cursor, whatever
    follows them: they are reported one by one, and the scan goes on behind
    the last of them. *)
Lemma trace_members content tl :
  zlen content < 2 ^ 31 ->
  forall mss pre n ret0 lines o,
  content = pre ++ file_of mss ++ tl ->
  Forall (fitting (zlen content)) mss ->
  scan_trace content (zlen pre) n ret0 lines o ->
  exists lines1 lines2,
    lines = lines1 ++ lines2 /\
    scan_trace content (zlen (pre ++ file_of mss)) (n + zlen mss)
      (last_length ret0 (map fst mss)) lines2 o /\
    begins lines1 = starts (zlen pre) (map fst mss) /\
    ends lines1 = stops (zlen pre) (map fst mss) /\
    sizes lines1 = map snd mss /\
    numbers lines1 = count_from n (length mss).
Proof.
  intros Hs. induction mss as [|[m size] mss IH];
    intros pre n ret0 lines o Hc Hf H.
  - exists [], lines. unfold file_of. cbn [map concat]. rewrite app_nil_r.
    change (zlen (@nil (list Z * Z))) with 0. rewrite Z.add_0_r.
    repeat split. exact H.
  - rewrite file_of_cons, <- app_assoc in Hc.
    inversion Hf as [|? ? [Hm Hfit] Hf']; subst. cbn [fst snd] in *.
    destruct (fitting_member_call pre m (file_of mss ++ tl) size n Hm Hfit Hs)
      as (Hr & Hsz).
    pose proof (member_nonempty _ _ Hm) as Hne.
    assert (Hlt : zlen pre <> zlen (pre ++ m ++ file_of mss ++ tl)).
    { rewrite !zlen_app. pose proof (zlen_nonneg (file_of mss)).
      pose proof (zlen_nonneg tl).
      destruct m; [congruence|]. unfold zlen in *. simpl length. lia. }
    inversion H; subst.
    + congruence.
    + congruence.
    + congruence.
    + match goal with
      | E : result _ = Return ?r |- _ =>
          rewrite Hr in E; inversion E; subst r; clear E
      end.
      match goal with
      | Ht' : scan_trace _ (zlen pre + zlen m) _ _ ?rs ?o1 |- _ =>
          rename Ht' into Ht; rename rs into rest; rename o1 into o'
      end.
      assert (Hc' : pre ++ m ++ file_of mss ++ tl = (pre ++ m) ++ file_of mss ++ tl)
        by now rewrite <- app_assoc.
      replace (zlen pre + zlen m) with (zlen (pre ++ m)) in Ht
        by apply zlen_app.
      destruct (IH (pre ++ m) (n + 1) (Some (zlen m)) rest o' Hc' Hf' Ht)
        as (l1 & l2 & Hl & Ht2 & Hbg & Hen & Hsi & Hnu).
      rewrite zlen_app in Hbg, Hen.
      rewrite header_at in * by (auto using zlen_nonneg).
      set (c := printed (member_call
                  (at_offset (pre ++ m ++ file_of mss ++ tl) (zlen pre)) n)) in *.
      destruct (member_call_marks
                  (at_offset (pre ++ m ++ file_of mss ++ tl) (zlen pre)) n)
        as (Mb & Me).
      destruct (member_call_report
                  (at_offset (pre ++ m ++ file_of mss ++ tl) (zlen pre)) n)
        as (Mn & _).
      fold c in Mb, Me, Mn.
      destruct (block_marks c n (zlen pre) (zlen pre + zlen m - 1) l1 Mb Me)
        as (B1 & B2).
      destruct (block_report c n (zlen pre) (zlen pre + zlen m - 1) l1 Mn)
        as (B3 & B4).
      exists ([Separator; MemberBegin n (zlen pre)] ++ c
              ++ [MemberEnd n (zlen pre + zlen m - 1); Separator] ++ l1), l2.
      split; [subst rest; now rewrite <- !app_assoc|].
      split.
      { cbn [map fst]. rewrite file_of_cons, last_length_cons.
        replace (zlen (pre ++ m ++ file_of mss)) with (zlen ((pre ++ m) ++ file_of mss))
          by now rewrite <- app_assoc.
        replace (n + zlen ((m, size) :: mss)) with (n + 1 + zlen mss)
          by (unfold zlen; simpl length; lia).
        exact Ht2. }
      rewrite B1, B2, B3, B4, Hsz, Hbg, Hen, Hsi, Hnu.
      cbn [map fst snd starts stops length count_from app]. repeat split.
Qed.

Lemma trace_at_end content p n r lines o :
  scan_trace content p n r lines o -> p = zlen content ->
  lines = [] /\ o = Return r.
Proof. destruct 1; intros; [auto|congruence..]. Qed.

(** **** X1.  On a file made of well-formed members, each of which
    expands to no more than the output buffer holds, [main] reports the
    members one by one: numbered from 1, each beginning where the one
    before ended, with its last byte and its decompressed size; the scan
    ends normally and [main] returns the length of the last member. *)
Theorem X1_fitting_members_reported_in_sequence mss :
  Forall (fitting (zlen (file_of mss))) mss ->
  zlen (file_of mss) < 2 ^ 31 ->
  snd (main (Some (file_of mss))) = Return (last_length None (map fst mss)) /\
  begins (fst (main (Some (file_of mss)))) = starts 0 (map fst mss) /\
  ends (fst (main (Some (file_of mss)))) = stops 0 (map fst mss) /\
  sizes (fst (main (Some (file_of mss)))) = map snd mss /\
  numbers (fst (main (Some (file_of mss)))) = count_from 1 (length mss).
Proof.
  intros Hf Hs.
  destruct (trace_members (file_of mss) [] Hs mss [] 1 None _ _
              ltac:(now rewrite app_nil_r) Hf (main_trace (file_of mss) Hs))
    as (l1 & l2 & Hl & Ht & Hb & He & Hsz & Hn).
  destruct (trace_at_end _ _ _ _ _ _ Ht eq_refl) as (-> & Ho).
  rewrite Hl, app_nil_r. repeat split; assumption.
Qed.

(** [hello_gz] followed by [zeros_gz]: 58 bytes, a buffer of 290. *)
Lemma X1_two_members_witness :
  snd (main (Some (file_of [(hello_gz, 17); (zeros_gz, 200)])))
    = Return (Some 24) /\
  begins (fst (main (Some (file_of [(hello_gz, 17); (zeros_gz, 200)]))))
    = [0; 34] /\
  ends (fst (main (Some (file_of [(hello_gz, 17); (zeros_gz, 200)]))))
    = [33; 57] /\
  sizes (fst (main (Some (file_of [(hello_gz, 17); (zeros_gz, 200)]))))
    = [17; 200] /\
  numbers (fst (main (Some (file_of [(hello_gz, 17); (zeros_gz, 200)]))))
    = [1; 2].
Proof.
  apply (X1_fitting_members_reported_in_sequence
           [(hello_gz, 17); (zeros_gz, 200)]).
  - repeat constructor;
      try (apply is_gzip_member_true; vm_compute; reflexivity);
      vm_compute; discriminate.
  - vm_compute. reflexivity.
Defined.

End MemberFiles.

(** ** Input that is not a gzip member *)

Section Rejected.
Import Bits Inflate.

(** Two bytes that are not the gzip magic number end the decoding at
    once. *)
Lemma head_rejects fl n s b0 b1 tl :
  mode s = HEAD -> hold s = [] -> next s = b0 :: b1 :: tl ->
  is_byte b0 -> is_byte b1 -> b0 <> 31 \/ b1 <> 139 ->
  run (S n) fl s =
    (Halted DataError, set_mode BAD (set_h_done (-1) (set_next tl s))).
Proof.
  intros Hm Hh Hn H0 H1 Hne. unfold is_byte in *.
  cbn [run]. rewrite Hm.
  assert (E : step HEAD s =
              Stop DataError (set_mode BAD (set_h_done (-1) (set_next tl s)))).
  { cbn [step]. unfold step_HEAD, atomic.
    erewrite bind_ok
      by (apply (getbits_le 2 (b0 + 256 * b1) s tl);
          [lia|assumption|rewrite le_bytes_2 by lia; assumption]).
    destruct (b0 + 256 * b1 =? 35615) eqn:Ev; [apply Z.eqb_eq in Ev; lia|].
    reflexivity. }
  destruct fl; rewrite E; reflexivity.
Qed.

(** When the decoder rejects the header, the first call of [inflate]
    returns [Z_DATA_ERROR]. *)
Lemma inflate_rejects filesize inbuf T :
  run (enough (member_start inbuf (to_uInt (OUTBUF_MULT * filesize)))) Z_BLOCK
    (member_start inbuf (to_uInt (OUTBUF_MULT * filesize)))
    = (Halted DataError, T) ->
  fst (inflate (open_stream filesize inbuf) Z_BLOCK) = Z_DATA_ERROR.
Proof.
  intros H. unfold inflate. cbv zeta. rewrite loaded_open, H.
  cbn [fst ret_code]. change (Z_DATA_ERROR =? Z_OK) with false.
  now rewrite andb_false_r.
Qed.

(** The program then exits with that code, having printed nothing of the
    header. *)
Lemma rejected_call pre m rest n T :
  m <> [] ->
  zlen (pre ++ m ++ rest) < 2 ^ 31 ->
  run (enough (member_start (m ++ rest)
                 (to_uInt (OUTBUF_MULT * zlen (pre ++ m ++ rest)))))
    Z_BLOCK
    (member_start (m ++ rest) (to_uInt (OUTBUF_MULT * zlen (pre ++ m ++ rest))))
    = (Halted DataError, T) ->
  printed (get_header_for_zstream (at_offset (pre ++ m ++ rest) (zlen pre)) n
             (zlen (pre ++ m ++ rest))) = [] /\
  result (get_header_for_zstream (at_offset (pre ++ m ++ rest) (zlen pre)) n
            (zlen (pre ++ m ++ rest))) = Exit HeaderInflateFailed Z_DATA_ERROR.
Proof.
  intros Hne Hs H.
  rewrite header_at by (auto using zlen_nonneg).
  apply inflate_rejects in H.
  unfold member_call, st_size. cbn [at_offset contents].
  fold (at_offset (pre ++ m ++ rest) (zlen pre)).
  rewrite (fread_member pre m rest Hne).
  assert (Hz : (zlen (m ++ rest) =? 0) = false).
  { apply Z.eqb_neq. rewrite zlen_app. pose proof (zlen_nonneg rest).
    destruct m; [congruence|]. unfold zlen in *; simpl length; lia. }
  rewrite Hz.
  destruct (inflate (open_stream _ (m ++ rest)) Z_BLOCK) as [r1 zs1].
  cbn [fst] in H. subst r1. split; reflexivity.
Qed.

(** A member that the scan cannot begin ends the scan: the begin line is
    the last thing printed. *)
Lemma trace_rejected content p n r lines o at_ code :
  scan_trace content p n r lines o ->
  p <> zlen content ->
  printed (get_header_for_zstream (at_offset content p) n (zlen content)) = [] ->
  result (get_header_for_zstream (at_offset content p) n (zlen content))
    = Exit at_ code ->
  lines = [Separator; MemberBegin n p] /\ o = Exit at_ code.
Proof.
  destruct 1; intros Hp Hpr Hr; [congruence| |congruence..].
  rewrite Hpr. split; [reflexivity|congruence].
Qed.

Lemma garbage_call pre b0 b1 rest n :
  zlen (pre ++ [b0; b1] ++ rest) < 2 ^ 31 ->
  is_byte b0 -> is_byte b1 -> b0 <> 31 \/ b1 <> 139 ->
  printed (get_header_for_zstream
             (at_offset (pre ++ [b0; b1] ++ rest) (zlen pre)) n
             (zlen (pre ++ [b0; b1] ++ rest))) = [] /\
  result (get_header_for_zstream
            (at_offset (pre ++ [b0; b1] ++ rest) (zlen pre)) n
            (zlen (pre ++ [b0; b1] ++ rest)))
    = Exit HeaderInflateFailed Z_DATA_ERROR.
Proof.
  intros Hs H0 H1 Hne.
  set (S0 := member_start ([b0; b1] ++ rest)
               (to_uInt (OUTBUF_MULT * zlen (pre ++ [b0; b1] ++ rest)))).
  apply (rejected_call pre [b0; b1] rest n
           (set_mode BAD (set_h_done (-1) (set_next rest S0))));
    [discriminate|assumption|].
  fold S0. destruct (enough S0) eqn:En; [unfold enough in En; lia|].
  apply (head_rejects Z_BLOCK n0 S0 b0 b1 rest); auto; reflexivity.
Qed.

(** **** X2.  A file whose first two bytes are not the gzip magic number
    1f 8b: [main] prints the separator and the begin line of member 1,
    nothing of a header, and exits with [Z_DATA_ERROR] from the first call
    of [inflate]. *)
Theorem X2_not_gzip_exits_with_data_error b0 b1 rest :
  zlen (b0 :: b1 :: rest) < 2 ^ 31 ->
  is_byte b0 -> is_byte b1 -> b0 <> 31 \/ b1 <> 139 ->
  main (Some (b0 :: b1 :: rest)) =
    ([Separator; MemberBegin 1 0], Exit HeaderInflateFailed Z_DATA_ERROR).
Proof.
  intros Hs H0 H1 Hne.
  destruct (garbage_call [] b0 b1 rest 1 Hs H0 H1 Hne) as (Hp & Hr).
  pose proof (main_trace (b0 :: b1 :: rest) Hs) as Ht.
  destruct (trace_rejected _ _ _ _ _ _ _ _ Ht ltac:(unfold zlen; simpl length; lia)
              Hp Hr) as (Hl & Ho).
  rewrite (surjective_pairing (main _)). now rewrite Hl, Ho.
Qed.

Lemma X2_text_file_witness :
  main (Some [104; 101; 108; 108; 111; 10]) =
    ([Separator; MemberBegin 1 0], Exit HeaderInflateFailed Z_DATA_ERROR).
Proof.
  apply (X2_not_gzip_exits_with_data_error 104 101 [108; 108; 111; 10]).
  - vm_compute. reflexivity.
  - unfold is_byte. lia.
  - unfold is_byte. lia.
  - left. lia.
Defined.



End Rejected.

(** ** The fields of the header report *)

Section Report.
Import Bits Inflate.

Local Opaque Crc32.update.

Lemma keeps_ret {A X} (f : inflate_state -> X) (a : A) : keeps f (ret a).
Proof. intros s b s' H. inversion H; subst. reflexivity. Qed.

Lemma keeps_bind {A B X} (f : inflate_state -> X) (m : M A) (k : A -> M B) :
  keeps f m -> (forall a, keeps f (k a)) -> keeps f (bind m k).
Proof.
  intros Hm Hk s b s' H. unfold bind in H.
  destruct (m s) as [a t|w t] eqn:E; [|discriminate].
  rewrite (Hk a t b s' H). exact (Hm s a t E).
Qed.

Lemma keeps_gets {A X} (f : inflate_state -> X) (g : inflate_state -> A) :
  keeps f (gets g).
Proof. intros s b s' H. inversion H; subst. reflexivity. Qed.

Lemma keeps_modify {X} (f : inflate_state -> X) g :
  (forall s, f (g s) = f s) -> keeps f (modify g).
Proof. intros Hg s b s' H. inversion H; subst. apply Hg. Qed.

Lemma keeps_bad {A X} (f : inflate_state -> X) : keeps f (@bad A).
Proof. intros s b s' H. discriminate. Qed.

Lemma keeps_getbit {X} (f : inflate_state -> X) : steady f -> keeps f getbit.
Proof.
  intros [Hh Hn] s b s' H. unfold getbit in H.
  destruct (hold s); [destruct (next s); [discriminate|]|];
    inversion H; subst; now rewrite ?Hh, ?Hn.
Qed.

Lemma keeps_getbits {X} (f : inflate_state -> X) n :
  steady f -> keeps f (getbits n).
Proof.
  intros Hf. induction n; cbn [getbits].
  - apply keeps_ret.
  - apply keeps_bind; [now apply keeps_getbit|]. intros b.
    apply keeps_bind; [assumption|]. intros v. apply keeps_ret.
Qed.

Lemma keeps_take_byte {X} (f : inflate_state -> X) :
  steady f -> keeps f take_byte.
Proof.
  intros [Hh Hn] s b s' H. unfold take_byte in H.
  destruct (next s); [discriminate|]. inversion H; subst. apply Hn.
Qed.

Lemma keeps_atomic {A X} (f : inflate_state -> X) (m : M A) :
  keeps f m -> keeps f (atomic m).
Proof.
  intros Hm s a s' H. unfold atomic in H.
  destruct (m s) as [b t|w t] eqn:E.
  - inversion H; subst. exact (Hm s a s' E).
  - destruct w; discriminate.
Qed.

Lemma steady_name_view : steady name_view.
Proof. split; reflexivity. Qed.

Lemma steady_h_time : steady h_time.
Proof. split; reflexivity. Qed.

Lemma crc_header_view bytes s :
  name_view (crc_header bytes s) = name_view s /\
  h_time (crc_header bytes s) = h_time s /\
  length_ (crc_header bytes s) = length_ s.
Proof. unfold crc_header. destruct (Z.testbit (flags s) 9); auto. Qed.

Lemma keeps_skip_extra {X} (f : inflate_state -> X) n :
  steady f -> (forall b s, f (crc_header [b] (set_length (length_ s - 1) s)) = f s) ->
  keeps f (skip_extra n).
Proof.
  intros Hf Hg. induction n; cbn [skip_extra].
  - apply keeps_ret.
  - apply keeps_bind; [now apply keeps_take_byte|]. intros b.
    apply keeps_bind; [now apply keeps_modify|]. intros _. assumption.
Qed.

Local Ltac same :=
  intros; unfold crc_header, store_name, finish_header, name_view;
  repeat match goal with
         | |- context [if ?c then _ else _] => destruct c
         end;
  reflexivity.

Local Ltac kp :=
  repeat first
    [ apply keeps_ret | apply keeps_gets | apply keeps_bad
    | apply keeps_atomic
    | apply keeps_getbits; split; reflexivity
    | apply keeps_take_byte; split; reflexivity
    | apply keeps_skip_extra; [split; reflexivity|same]
    | apply keeps_modify; same
    | apply keeps_bind; [|intros]
    | match goal with
      | |- keeps _ (if ?c then _ else _) => destruct c
      end ].

(** No state of the header but [NAME] touches the name field or its
    buffer; none but [TIME] touches the time field. *)
Lemma step_keeps_name m :
  In m [HEAD; FLAGS; TIME; OS; EXLEN; EXTRA; COMMENT; HCRC] ->
  keeps name_view (step m).
Proof.
  intros H. repeat (destruct H as [<-|H]); [..|destruct H]; cbn [step];
    unfold step_HEAD, step_FLAGS, step_TIME, step_OS, step_EXLEN, step_EXTRA,
      step_COMMENT, step_HCRC; kp.
Qed.

Lemma step_keeps_time m :
  In m [HEAD; FLAGS; OS; EXLEN; EXTRA; NAME; COMMENT; HCRC] ->
  keeps h_time (step m).
Proof.
  intros H. repeat (destruct H as [<-|H]); [..|destruct H]; cbn [step];
    unfold step_HEAD, step_FLAGS, step_OS, step_EXLEN, step_EXTRA,
      step_NAME, step_COMMENT, step_HCRC; kp.
Qed.

(** The state [TIME] stores the four bytes it reads as the time. *)
Lemma step_TIME_time s v tl u s' :
  0 <= v < 2 ^ 32 -> hold s = [] -> next s = le_bytes 4 v ++ tl ->
  step TIME s = Ok u s' -> h_time s' = Some v.
Proof.
  intros Hv Hh Hn H. cbn [step] in H. unfold step_TIME in H.
  erewrite atomic_ok in H
    by (erewrite bind_ok
          by (apply (getbits_le 4 v s tl); [exact Hv|auto|auto]);
        reflexivity).
  inversion H; subst. unfold crc_header.
  destruct (Z.testbit _ 9); reflexivity.
Qed.

(** The state [EXTRA] leaves [length] at zero for the name. *)
Lemma step_EXTRA_length s u s' :
  step EXTRA s = Ok u s' -> length_ s' = 0 /\ mode s' = NAME.
Proof.
  cbn [step]. unfold step_EXTRA. intros H.
  apply bind_ok_inv in H as (f & t & _ & H).
  apply bind_ok_inv in H as (x & t' & _ & H).
  inversion H; subst. split; reflexivity.
Qed.

Local Ltac proj :=
  unfold hdr, crc_header, finish_header in *;
  cbn [mode hold next flags check h_done length_
       set_mode set_check set_next set_hold set_flags set_h_time set_length
       set_h_done set_h_name set_zname
       hmode rank andb negb Nat.leb] in *.

Local Ltac fin :=
  repeat split; intros; auto; try congruence;
  try match goal with
      | Hc : _ -> check _ = Crc32.update 0 _ |- _ =>
          rewrite Hc by assumption; rewrite ?update_app, <- ?app_assoc;
          reflexivity
      end.

(** The two turns that take the decoder over the extra field. *)
Lemma phase_EXTRA_steps h seen ahead s :
  match f_extra h with Some x => zlen x < 2 ^ 16 | None => True end ->
  hdr h EXLEN seen (extra_part h ++ ahead) s ->
  exists s1 s',
    step EXLEN s = Ok tt s1 /\ mode s1 = EXTRA /\
    step EXTRA s1 = Ok tt s' /\
    hdr h NAME (seen ++ extra_part h) ahead s'.
Proof.
  intros Hx (Hm & Hh & Hn & Hfl & Hc & Hd).
  specialize (Hfl ltac:(discriminate) ltac:(discriminate)).
  specialize (Hc ltac:(discriminate)).
  destruct (flag_bits h) as (_ & _ & _ & H9 & H10 & _).
  unfold extra_part in *. destruct (f_extra h) as [x|] eqn:Ex.
  - set (v := zlen x) in *.
    set (s1 := set_mode EXTRA (crc_header (le_bytes 2 v)
                                 (set_length v (set_next (x ++ ahead) s)))).
    assert (E1 : step EXLEN s = Ok tt s1).
    { cbn [step]. unfold step_EXLEN, bind at 1, gets.
      rewrite Hfl, H10. cbn [is_some]. apply atomic_ok.
      erewrite bind_ok
        by (apply (getbits_le 2 v s (x ++ ahead));
            [pose proof (zlen_nonneg x); unfold v; lia|auto
            |rewrite Hn; now rewrite <- app_assoc]).
      reflexivity. }
    assert (F : mode s1 = EXTRA /\ hold s1 = [] /\ next s1 = x ++ ahead /\
                flags s1 = 8 + 256 * flag_byte h /\ h_done s1 = 0 /\
                length_ s1 = v /\
                (f_hcrc h = true ->
                 check s1 = Crc32.update 0 (seen ++ le_bytes 2 v))).
    { unfold s1. proj. rewrite Hfl, H9.
      destruct (f_hcrc h); proj; fin. }
    destruct F as (F1 & F2 & F3 & F4 & F5 & F6 & F7).
    destruct (skip_extra_spec h x s1 (seen ++ le_bytes 2 v) ahead F2 F3 F4)
      as (s2 & E2 & G1 & G2 & G3 & G4 & G5 & G6).
    set (s3 := set_mode NAME (set_length 0 s2)).
    assert (E3 : step EXTRA s1 = Ok tt s3).
    { cbn [step]. unfold step_EXTRA, bind at 1, gets.
      rewrite F4, H10. cbn [is_some].
      unfold bind at 1. unfold bind at 1, gets. rewrite F6.
      unfold v, zlen. rewrite Nat2Z.id, E2. reflexivity. }
    exists s1, s3. do 3 (split; [assumption|]).
    unfold s3. proj. repeat split; intros; auto; try congruence.
    rewrite G6; auto. now rewrite <- app_assoc.
  - set (s1 := set_mode EXTRA s).
    assert (E1 : step EXLEN s = Ok tt s1).
    { cbn [step]. unfold step_EXLEN, bind at 1, gets.
      rewrite Hfl, H10. reflexivity. }
    set (s3 := set_mode NAME (set_length 0 s1)).
    assert (E3 : step EXTRA s1 = Ok tt s3).
    { cbn [step]. unfold step_EXTRA, bind at 1, gets.
      change (flags s1) with (flags s). rewrite Hfl, H10. reflexivity. }
    exists s1, s3. do 3 (split; [assumption || reflexivity|]).
    unfold s3, s1. simpl in Hn. rewrite app_nil_r. proj. fin.
Qed.

Lemma written_short w :
  (length w <= 511)%nat ->
  written w = map Some w ++ repeat None (512 - length w).
Proof. intros H. unfold written. now rewrite firstn_all2 by assumption. Qed.

Lemma firstn_snoc_full {A} (w : list A) b n :
  (n <= length w)%nat -> firstn n (w ++ [b]) = firstn n w.
Proof.
  intros H. rewrite firstn_app.
  replace (n - length w)%nat with O by lia. cbn [firstn]. apply app_nil_r.
Qed.

(** One more byte of the name given to [store_name]. *)
Lemma store_name_written b s w :
  h_name s = true -> h_name_max s = 511 ->
  zname s = written w -> length_ s = zlen (firstn 511 w) ->
  zname (store_name b s) = written (w ++ [b]) /\
  length_ (store_name b s) = zlen (firstn 511 (w ++ [b])) /\
  h_name (store_name b s) = true /\ h_name_max (store_name b s) = 511.
Proof.
  intros Hn Hmax Hz Hl. unfold store_name. rewrite Hn, Hmax, Hl.
  cbn [andb].
  destruct (Nat.lt_ge_cases (length w) 511) as [Hlt|Hge].
  - rewrite (firstn_all2 (n := 511) w) by lia.
    rewrite (firstn_all2 (n := 511) (w ++ [b]))
      by (rewrite length_app; simpl length; lia).
    destruct (zlen w <? 511) eqn:E; [|apply Z.ltb_ge in E; unfold zlen in E; lia].
    cbn [zname length_ h_name h_name_max set_length set_zname].
    rewrite Hz, (written_short w), (written_short (w ++ [b]))
      by (rewrite ?length_app; simpl length; lia).
    unfold zlen. rewrite Nat2Z.id, length_app. simpl length.
    repeat split; auto; [|lia].
    rewrite <- (length_map Some w) at 1.
    rewrite <- (Nat.add_0_r (length (map Some w))), firstn_app_2.
    cbn [firstn]. rewrite app_nil_r, skipn_app, length_map.
    rewrite skipn_all2 by (rewrite length_map; lia).
    replace (S (length w) - length w)%nat with 1%nat by lia.
    replace (512 - length w)%nat with (S (512 - (length w + 1)))%nat by lia.
    cbn [repeat skipn app]. rewrite map_app, <- app_assoc. reflexivity.
  - assert (E : length (firstn 511 w) = 511%nat)
      by (rewrite length_firstn; lia).
    assert (Ec : (zlen (firstn 511 w) <? 511) = false)
      by (apply Z.ltb_ge; unfold zlen; lia).
    rewrite Ec. unfold written.
    rewrite (firstn_snoc_full w b 511) by lia.
    repeat split; auto.
Qed.

Lemma store_name_time b s : h_time (store_name b s) = h_time s.
Proof.
  unfold store_name. destruct (h_name s && (length_ s <? h_name_max s));
    reflexivity.
Qed.

(** The bytes of the name are read one at a time and handed to the
    buffer. *)
Lemma name_bytes_report h fl : forall l s seen tl w,
  Forall (fun b => 0 < b < 256) l ->
  is_some (f_name h) = true ->
  naming h w s -> next s = l ++ tl ->
  exists s',
    reaches fl s s' /\ naming h (w ++ l) s' /\ next s' = tl /\
    h_time s' = h_time s /\
    (f_hcrc h = true -> check s = Crc32.update 0 seen ->
     check s' = Crc32.update 0 (seen ++ l)).
Proof.
  destruct (flag_bits h) as (_ & _ & _ & _ & _ & H11 & _).
  induction l as [|b l IH]; intros s seen tl w Hl Hs Hi Hn.
  - exists s. simpl in Hn. rewrite !app_nil_r.
    split; [apply reaches_here|]. split; [exact Hi|]. auto.
  - inversion Hl as [|? ? Hb Hl']; subst.
    destruct Hi as (Hm & Hh & Hfl & Hd & Hnm & Hmax & Hz & Hlen).
    set (s1 := set_next (l ++ tl) s).
    set (s2 := crc_header [b] (store_name b s1)).
    assert (E : step (mode s) s = Ok tt s2).
    { rewrite Hm. cbn [step]. unfold step_NAME, bind at 1, gets.
      rewrite Hfl, H11, Hs.
      assert (T : take_byte s = Ok b s1) by (unfold take_byte; now rewrite Hn).
      rewrite (bind_ok _ _ _ _ _ T). unfold bind at 1, modify at 1.
      fold s2. destruct (b =? 0) eqn:Eb; [lia|reflexivity]. }
    destruct (crc_header_keeps [b] (store_name b s1)) as (K1 & K2 & K3 & K4 & K5).
    destruct (crc_header_view [b] (store_name b s1)) as (V1 & V2 & V3).
    destruct (store_name_keeps b s1) as (N1 & N2 & N3 & N4 & N5 & N6).
    destruct (store_name_written b s1 w Hnm Hmax Hz Hlen) as (W1 & W2 & W3 & W4).
    pose proof (store_name_time b s1) as T1.
    fold s2 in K1, K2, K3, K4, K5, V1, V2, V3.
    unfold name_view in V1. inversion V1 as [[V1a V1b V1c]]. clear V1.
    assert (Hi2 : naming h (w ++ [b]) s2).
    { unfold naming. rewrite K1, K2, K4, K5, V1a, V1b, V1c, V3.
      rewrite N1, N2, N4, N5, W1, W2, W3, W4. repeat split; assumption. }
    assert (Hn2 : next s2 = l ++ tl) by (rewrite K3, N3; reflexivity).
    destruct (IH s2 (seen ++ [b]) tl (w ++ [b]) Hl' Hs Hi2 Hn2)
      as (s' & R & Hi' & Hn' & Ht' & Hc').
    exists s'. split.
    { eapply reaches_turn; [|exact E|exact R].
      apply (header_mode_stays fl NAME); auto; discriminate. }
    rewrite <- app_assoc in Hi', Hc'. cbn [app] in Hi', Hc'.
    split; [exact Hi'|]. split; [exact Hn'|].
    split; [rewrite Ht', V2, T1; reflexivity|].
    intros Hc Hk. apply Hc'; auto.
    apply (crc_header_check h); auto.
    + rewrite N4. exact Hfl.
    + rewrite N6. exact Hk.
Qed.

(** The name field, from its first byte to the terminating zero: the
    buffer then holds what [stored_name] tells; without the field, the
    [name] pointer of the header record is made null. *)
Lemma phase_NAME_report h fl seen ahead s :
  text_ok (f_name h) ->
  hdr h NAME seen (text_part (f_name h) ++ ahead) s ->
  h_name s = true -> h_name_max s = 511 -> zname s = written [] ->
  length_ s = 0 ->
  exists s', reaches fl s s' /\
             hdr h COMMENT (seen ++ text_part (f_name h)) ahead s' /\
             h_time s' = h_time s /\
             (if h_name s' then NameAt (zname s') else NullName)
               = reported_name h.
Proof.
  intros Ht (Hm & Hh & Hn & Hfl & Hc & Hd) Hnm Hmax Hz Hlen.
  specialize (Hfl ltac:(discriminate) ltac:(discriminate)).
  specialize (Hc ltac:(discriminate)).
  destruct (flag_bits h) as (_ & _ & _ & H9 & _ & H11 & _).
  cbn [hmode rank andb negb Nat.leb] in Hd.
  unfold text_part, text_ok, reported_name in *.
  destruct (f_name h) as [l|] eqn:En.
  - rewrite <- app_assoc in Hn.
    assert (Hi : naming h [] s) by (unfold naming; repeat split; assumption).
    destruct (name_bytes_report h fl l s seen ([0] ++ ahead) [] Ht
                ltac:(now rewrite En) Hi Hn)
      as (s1 & R & Hi1 & G3 & Gt & G6).
    cbn [app] in Hi1.
    destruct Hi1 as (G1 & G2 & G4 & G5 & Gn & Gmax & Gz & Glen).
    set (s2 := set_next ahead s1).
    set (s3 := crc_header [0] (store_name 0 s2)).
    set (s4 := set_mode COMMENT (set_length 0 s3)).
    assert (E : step (mode s1) s1 = Ok tt s4).
    { rewrite G1. cbn [step]. unfold step_NAME, bind at 1, gets.
      rewrite G4, H11. cbn [is_some].
      assert (T : take_byte s1 = Ok 0 s2) by (unfold take_byte; now rewrite G3).
      rewrite (bind_ok _ _ _ _ _ T). reflexivity. }
    destruct (crc_header_keeps [0] (store_name 0 s2)) as (K1 & K2 & K3 & K4 & K5).
    destruct (crc_header_view [0] (store_name 0 s2)) as (V1 & V2 & _).
    destruct (store_name_keeps 0 s2) as (N1 & N2 & N3 & N4 & N5 & N6).
    destruct (store_name_written 0 s2 l Gn Gmax Gz Glen) as (W1 & _ & W3 & _).
    pose proof (store_name_time 0 s2) as T1.
    fold s3 in K1, K2, K3, K4, K5, V1, V2.
    unfold name_view in V1. inversion V1 as [[V1a V1b V1c]]. clear V1.
    change (mode s2) with (mode s1) in N1. change (hold s2) with (hold s1) in N2.
    change (next s2) with ahead in N3. change (flags s2) with (flags s1) in N4.
    change (h_done s2) with (h_done s1) in N5.
    change (check s2) with (check s1) in N6.
    change (h_time s2) with (h_time s1) in T1.
    exists s4. split.
    { eapply reaches_trans; [exact R|]. eapply reaches_step; [|exact E].
      apply (header_mode_stays fl NAME); auto; discriminate. }
    split.
    { unfold hdr, s4. cbn [mode hold next flags check h_done set_mode set_length
                            hmode rank andb negb Nat.leb].
      split; [reflexivity|]. split; [now rewrite K2, N2|].
      split; [now rewrite K3, N3|].
      split; [intros _ _; rewrite K4, N4; congruence|].
      split; [|rewrite K5, N5; exact G5].
      intros _ Hk. rewrite app_assoc. apply (crc_header_check h); auto.
      * rewrite N4. congruence.
      * rewrite N6. auto. }
    unfold s4. cbn [h_time h_name zname set_mode set_length].
    rewrite V2, T1, V1a, V1c, W3, W1. split; [exact Gt|reflexivity].
  - set (s4 := set_mode COMMENT (set_length 0 (set_h_name false s))).
    assert (E : step (mode s) s = Ok tt s4).
    { rewrite Hm. cbn [step]. unfold step_NAME, bind at 1, gets.
      rewrite Hfl, H11. reflexivity. }
    exists s4. split.
    { eapply reaches_step; [|exact E].
      apply (header_mode_stays fl NAME); auto; discriminate. }
    split; [|split; reflexivity].
    simpl in Hn. rewrite app_nil_r. unfold s4. proj. fin.
Qed.

Lemma step_COMMENT_mode s u s' :
  mode s = COMMENT -> step COMMENT s = Ok u s' ->
  mode s' = COMMENT \/ mode s' = HCRC.
Proof.
  intros Hm H. cbn [step] in H. unfold step_COMMENT, bind at 1, gets in H.
  destruct (Z.testbit (flags s) 12).
  - apply bind_ok_inv in H as (b & t & T & H).
    apply bind_ok_inv in H as ([] & t2 & M2 & H).
    inversion M2; subst t2. clear M2.
    unfold take_byte in T. destruct (next s); [discriminate|].
    inversion T; subst. clear T.
    destruct (crc_header_keeps [b] (set_next l s)) as (K1 & _).
    destruct (b =? 0); inversion H; subst.
    + right. reflexivity.
    + left. rewrite K1. exact Hm.
  - inversion H; subst. right. reflexivity.
Qed.

Lemma step_HCRC_mode s u s' : step HCRC s = Ok u s' -> mode s' = TYPE.
Proof.
  intros H. cbn [step] in H. unfold step_HCRC, bind at 1, gets in H.
  destruct (Z.testbit (flags s) 9).
  - unfold atomic in H.
    destruct (bind (getbits 16) _ s) as [a t|w t] eqn:E;
      [|destruct w; discriminate].
    inversion H; subst. clear H.
    apply bind_ok_inv in E as (v & t1 & _ & E).
    unfold bind at 1, gets in E.
    destruct (negb (v =? Z.land (check t1) 65535)); [discriminate|].
    inversion E; subst. reflexivity.
  - inversion H; subst. reflexivity.
Qed.

(** The [done] mark of the header record is set when the header ends,
    not before. *)
Lemma step_keeps_done m s u s' :
  hmode m = true -> m <> TYPE -> m <> BAD ->
  step m s = Ok u s' -> mode s' <> TYPE -> h_done s' = h_done s.
Proof.
  intros H1 H2 H3 E Hm.
  destruct m; try discriminate; try congruence;
    try (revert s u s' E Hm;
         match goal with
         | |- forall s u s', step ?m s = Ok u s' -> _ =>
             assert (K : keeps h_done (step m))
               by (cbn [step];
                   unfold step_FLAGS, step_TIME, step_OS, step_EXLEN,
                     step_EXTRA, step_NAME, step_COMMENT; kp)
         end;
         intros s u s' E _; exact (K _ _ _ E)).
  - cbn [step] in E. unfold step_HEAD, atomic in E.
    destruct (bind (getbits 16) _ s) as [a t|w t] eqn:E1;
      [|destruct w; discriminate].
    inversion E; subst. clear E.
    apply bind_ok_inv in E1 as (v & t & G & E1).
    pose proof (keeps_getbits h_done 16 ltac:(split; reflexivity) _ _ _ G) as K.
    destruct (v =? 35615); [|discriminate].
    inversion E1; subst. exact K.
  - elim Hm. exact (step_HCRC_mode _ _ _ E).
Qed.

(** No state of the header touches the flag of the last block. *)
Lemma step_keeps_last m :
  hmode m = true -> m <> TYPE -> m <> BAD -> keeps last (step m).
Proof.
  intros H1 H2 H3. destruct m; try discriminate; try congruence; cbn [step];
    unfold step_HEAD, step_FLAGS, step_TIME, step_OS, step_EXLEN, step_EXTRA,
      step_NAME, step_COMMENT, step_HCRC; kp.
Qed.

(** What the states of the header keep is the same when the decoder
    comes to the first block. *)
Lemma header_reach_keeps {X} (f : inflate_state -> X) :
  (forall m, hmode m = true -> m <> TYPE -> m <> BAD -> keeps f (step m)) ->
  forall s s', reaches Z_BLOCK s s' -> hmode (mode s) = true -> f s' = f s.
Proof.
  intros Hk s s'. induction 1 as [s|s u t s' L E R IH]; intros Hm;
    [reflexivity|].
  assert (H2 : mode s <> TYPE) by (intros C; apply L; right; right; auto).
  assert (H3 : mode s <> BAD) by (intros C; apply L; right; left; auto).
  destruct (quiet_header _ Hm H2 H3 s t) as (_ & _ & Hh); [eauto|].
  rewrite IH by auto. exact (Hk _ Hm H2 H3 _ _ _ E).
Qed.

(** Behind the name field, nothing that the report shows changes any
    more before the first block. *)
Lemma tail_keeps_report s s' :
  reaches Z_BLOCK s s' ->
  mode s = COMMENT \/ mode s = HCRC \/ mode s = TYPE ->
  report_view s' = report_view s.
Proof.
  induction 1 as [s|s u t s' L E R IH]; intros Hm; [reflexivity|].
  assert (Hv : report_view t = report_view s /\
               (mode t = COMMENT \/ mode t = HCRC \/ mode t = TYPE)).
  { destruct Hm as [Hm|[Hm|Hm]].
    - rewrite Hm in E.
      pose proof (step_keeps_name COMMENT ltac:(simpl; tauto) _ _ _ E) as Hn.
      pose proof (step_keeps_time COMMENT ltac:(simpl; tauto) _ _ _ E) as Ht.
      unfold name_view in Hn. inversion Hn as [[Ha Hb Hc]].
      split; [unfold report_view; now rewrite Ht, Ha, Hc|].
      destruct (step_COMMENT_mode _ _ _ Hm E); auto.
    - rewrite Hm in E.
      pose proof (step_keeps_name HCRC ltac:(simpl; tauto) _ _ _ E) as Hn.
      pose proof (step_keeps_time HCRC ltac:(simpl; tauto) _ _ _ E) as Ht.
      unfold name_view in Hn. inversion Hn as [[Ha Hb Hc]].
      split; [unfold report_view; now rewrite Ht, Ha, Hc|].
      right. right. exact (step_HCRC_mode _ _ _ E).
    - exfalso. apply L. right. right. auto. }
  destruct Hv as (Hv & Hm'). rewrite <- Hv. now apply IH.
Qed.

(** From the first byte of a well-formed header to the first block: the
    header record then holds the time of the header, the name as zlib
    stores it, and is marked complete. *)
Lemma header_report h rest B :
  well_formed_header h ->
  exists s1,
    reaches Z_BLOCK (member_start (encode_header h ++ rest) B) s1 /\
    mode s1 = TYPE /\ next s1 = rest /\ h_done s1 = 1 /\
    report_view s1 = (Some (f_mtime h), reported_name h) /\
    hold s1 = [] /\ last s1 = false.
Proof.
  intros (Wt & Wx & Wo & We & Wn & Wc).
  set (S0 := member_start (encode_header h ++ rest) B).
  assert (H0 : hdr h HEAD [] (encode_header h ++ rest) S0).
  { unfold hdr. repeat split; intros; try congruence; reflexivity. }
  unfold encode_header, before_crc, fixed_part in H0.
  rewrite <- !app_assoc in H0.
  change ([31; 139; 8; flag_byte h] ++ ?l) with
    ([31; 139] ++ [8; flag_byte h] ++ l) in H0.
  destruct (phase_HEAD _ _ _ H0) as (s1 & E1 & H1).
  destruct (phase_FLAGS _ _ _ H1) as (s2 & E2 & H2).
  destruct (phase_TIME _ _ _ _ Wt H2) as (s3 & E3 & H3).
  destruct (phase_OS _ _ _ _ Wx Wo H3) as (s4 & E4 & H4).
  destruct (phase_EXTRA_steps _ _ _ _ We H4) as (s4' & s5 & E5 & M5 & E5' & H5).
  (* the name field and its buffer are as the program set them up *)
  pose proof (step_keeps_name HEAD ltac:(simpl; tauto) _ _ _ E1) as N1.
  pose proof (step_keeps_name FLAGS ltac:(simpl; tauto) _ _ _ E2) as N2.
  pose proof (step_keeps_name TIME ltac:(simpl; tauto) _ _ _ E3) as N3.
  pose proof (step_keeps_name OS ltac:(simpl; tauto) _ _ _ E4) as N4.
  pose proof (step_keeps_name EXLEN ltac:(simpl; tauto) _ _ _ E5) as N5.
  pose proof (step_keeps_name EXTRA ltac:(simpl; tauto) _ _ _ E5') as N5'.
  assert (Nv : name_view s5 = (true, 511, written [])).
  { rewrite N5', N5, N4, N3, N2, N1. reflexivity. }
  unfold name_view in Nv. inversion Nv as [[Na Nb Nc]]. clear Nv.
  (* the time is the one of the header *)
  pose proof H2 as (_ & Hh2 & Hn2 & _).
  pose proof (step_TIME_time s2 (f_mtime h) _ _ _ Wt Hh2 Hn2 E3) as T3.
  pose proof (step_keeps_time OS ltac:(simpl; tauto) _ _ _ E4) as T4.
  pose proof (step_keeps_time EXLEN ltac:(simpl; tauto) _ _ _ E5) as T5.
  pose proof (step_keeps_time EXTRA ltac:(simpl; tauto) _ _ _ E5') as T5'.
  destruct (step_EXTRA_length _ _ _ E5') as (L5 & _).
  destruct (phase_NAME_report _ Z_BLOCK _ _ _ Wn H5 Na Nb Nc L5)
    as (s6 & R6 & H6 & T6 & V6).
  destruct (phase_COMMENT _ Z_BLOCK _ _ _ Wc H6) as (s7 & R7 & H7).
  assert (H7' : hdr h HCRC (before_crc h)
                  ((if f_hcrc h
                    then le_bytes 2 (Z.land (Crc32.update 0 (before_crc h)) 65535)
                    else []) ++ rest) s7).
  { unfold before_crc, fixed_part. rewrite <- !app_assoc in *. exact H7. }
  destruct (phase_HCRC _ _ _ H7') as (s8 & E8 & G1 & G2 & G3 & G4).
  assert (R8 : reaches Z_BLOCK s7 s8)
    by (eapply (hdr_turn h Z_BLOCK HCRC);
        [exact H7|reflexivity|discriminate..|exact E8]).
  pose proof H6 as (M6 & _).
  pose proof (tail_keeps_report s6 s8 (reaches_trans _ _ _ _ R7 R8)
                (or_introl M6)) as V8.
  assert (R : reaches Z_BLOCK S0 s8).
  { eapply reaches_trans;
      [eapply (hdr_turn h Z_BLOCK HEAD);
       [exact H0|reflexivity|discriminate..|exact E1]|].
    eapply reaches_trans;
      [eapply (hdr_turn h Z_BLOCK FLAGS);
       [exact H1|reflexivity|discriminate..|exact E2]|].
    eapply reaches_trans;
      [eapply (hdr_turn h Z_BLOCK TIME);
       [exact H2|reflexivity|discriminate..|exact E3]|].
    eapply reaches_trans;
      [eapply (hdr_turn h Z_BLOCK OS);
       [exact H3|reflexivity|discriminate..|exact E4]|].
    eapply reaches_trans;
      [eapply (hdr_turn h Z_BLOCK EXLEN);
       [exact H4|reflexivity|discriminate..|exact E5]|].
    eapply reaches_trans;
      [eapply reaches_step; [|rewrite M5; exact E5'];
       apply (header_mode_stays Z_BLOCK EXTRA); auto; discriminate|].
    eapply reaches_trans; [exact R6|].
    eapply reaches_trans; [exact R7|exact R8]. }
  exists s8. split; [exact R|]. do 3 (split; [assumption|]).
  split; [|split; [assumption|]].
  - rewrite V8. unfold report_view. rewrite T6, T5', T5, T4, T3, V6.
    reflexivity.
  - exact (header_reach_keeps last step_keeps_last _ _ R eq_refl).
Qed.

(** The first call of [inflate], with [Z_BLOCK], when the decoder comes
    to the first block having taken some input. *)
Lemma block_call filesize inbuf s1 :
  reaches Z_BLOCK
    (member_start inbuf (to_uInt (OUTBUF_MULT * filesize))) s1 ->
  mode s1 = TYPE -> zlen (next s1) < zlen inbuf ->
  exists zs1,
    inflate (open_stream filesize inbuf) Z_BLOCK = (Z_OK, zs1) /\
    state zs1 = s1 /\ loaded zs1 = s1 /\ avail_out zs1 = left s1.
Proof.
  intros R Hm Hlt.
  set (S0 := member_start inbuf (to_uInt (OUTBUF_MULT * filesize))) in *.
  pose proof (reaches_run Z_BLOCK S0 s1 R
                (or_intror (or_intror (conj Hm eq_refl)))
                (enough S0) (enough_phi S0)) as Hr.
  rewrite Hm in Hr.
  eexists. split.
  - unfold inflate. cbv zeta. rewrite loaded_open. fold S0.
    rewrite Hr. cbn [ret_code]. change (next S0) with inbuf.
    destruct (zlen inbuf - zlen (next s1) =? 0) eqn:E0;
      [apply Z.eqb_eq in E0; lia|].
    cbn [andb]. reflexivity.
  - split; [reflexivity|]. split; [|reflexivity].
    unfold loaded. cbn [avail_out avail_in next_in state open_stream].
    destruct (run_result _ _ _ _ _ Hr) as (Hs1 & _).
    pose proof (suffix_skipn _ _ Hs1) as Hsk.
    change (next S0) with inbuf in Hsk. rewrite Hsk, zlen_firstn_all.
    apply reload.
Qed.

(** The header report of a member with a well-formed header. *)
Lemma reported_header h pre rest n :
  well_formed_header h ->
  zlen (pre ++ encode_header h ++ rest) < 2 ^ 31 ->
  firstn 4 (printed (get_header_for_zstream
                       (at_offset (pre ++ encode_header h ++ rest) (zlen pre))
                       n (zlen (pre ++ encode_header h ++ rest))))
  = [HeaderTitle n; TimeField (Some (to_int (f_mtime h)));
     NameField (reported_name h); DoneField 1 HeaderComplete].
Proof.
  intros W Hs.
  set (content := pre ++ encode_header h ++ rest) in *.
  rewrite header_at by (auto using zlen_nonneg).
  unfold member_call, st_size. cbn [at_offset contents].
  fold (at_offset content (zlen pre)).
  unfold content. rewrite (fread_member pre (encode_header h) rest)
    by apply encode_header_nonempty.
  fold content.
  assert (Hl : 0 < zlen (encode_header h)).
  { pose proof (encode_header_nonempty h).
    destruct (encode_header h); [congruence|].
    unfold zlen in *. simpl length. lia. }
  destruct (zlen (encode_header h ++ rest) =? 0) eqn:E0;
    [apply Z.eqb_eq in E0; rewrite zlen_app in E0;
     pose proof (zlen_nonneg rest); lia|].
  destruct (header_report h rest (to_uInt (OUTBUF_MULT * zlen content)) W)
    as (s1 & R & Hm & Hn & Hd & Hv & _).
  destruct (block_call (zlen content) (encode_header h ++ rest) s1 R Hm)
    as (zs1 & E1 & Hst & _).
  { rewrite Hn, zlen_app. lia. }
  rewrite E1. change (negb (Z_OK =? Z_OK)) with false. cbv iota.
  unfold report_view in Hv. inversion Hv as [[Ht Hnm]].
  rewrite Hst, Ht.
  destruct (inflate zs1 Z_NO_FLUSH) as [r2 zs2].
  destruct (r2 <? 0); cbn [printed]; unfold header_lines;
    rewrite Hd, Hnm; reflexivity.
Qed.

(** What [printf("%s")] finds in the buffer. *)
Lemma c_string_terminated l R :
  Forall (fun b => 0 < b < 256) l ->
  c_string (map Some (l ++ [0]) ++ R) = Some l.
Proof.
  induction 1 as [|b l Hb Hl IH]; [reflexivity|].
  cbn [app map c_string]. destruct (b =? 0) eqn:E; [lia|].
  cbn [app map] in IH. now rewrite IH.
Qed.

Lemma c_string_unterminated l R :
  Forall (fun b => 0 < b < 256) l ->
  c_string (map Some l ++ None :: R) = None.
Proof.
  induction 1 as [|b l Hb Hl IH]; [reflexivity|].
  cbn [app map c_string]. destruct (b =? 0) eqn:E; [lia|].
  now rewrite IH.
Qed.

Lemma Forall_firstn {A} (P : A -> Prop) n l : Forall P l -> Forall P (firstn n l).
Proof.
  intros H. rewrite <- (firstn_skipn n l) in H.
  now apply Forall_app in H.
Qed.

Lemma stored_name_short l :
  (length l < 511)%nat ->
  stored_name l = map Some (l ++ [0]) ++ repeat None (511 - length l).
Proof.
  intros H. unfold stored_name.
  rewrite written_short by (rewrite length_app; simpl length; lia).
  rewrite length_app. simpl length. f_equal. f_equal. lia.
Qed.

Lemma stored_name_long l :
  (511 <= length l)%nat ->
  stored_name l = map Some (firstn 511 l) ++ [None].
Proof.
  intros H. unfold stored_name, written.
  rewrite firstn_snoc_full by assumption.
  replace (512 - length (firstn 511 l))%nat with 1%nat
    by (rewrite length_firstn; lia).
  reflexivity.
Qed.

Lemma hello_header_ok : well_formed_header hello_header.
Proof.
  unfold well_formed_header, is_byte, text_ok, hello_header.
  cbn [f_mtime f_xfl f_os f_extra f_name f_comment].
  repeat split; try lia; repeat constructor; lia.
Qed.

Lemma long_name_header_ok : well_formed_header long_name_header.
Proof.
  unfold well_formed_header, is_byte, text_ok, long_name_header.
  cbn [f_mtime f_xfl f_os f_extra f_name f_comment].
  repeat split; try lia.
  apply Forall_forall. intros x Hx. apply repeat_spec in Hx. subst. lia.
Qed.

(** **** X4.  For a member with a well-formed gzip header, the time line
    of the header report shows the modification time stored in the header
    (the four bytes MTIME, least significant first) as [%d] shows it, as
    an [int] of 32 bits: MTIME itself when it is below 2^31, and MTIME
    minus 2^32, a negative number, from 2^31 on. *)
Theorem X4_reported_time_is_header_mtime h pre rest n :
  well_formed_header h ->
  zlen (pre ++ encode_header h ++ rest) < 2 ^ 31 ->
  (exists nm,
     firstn 4 (printed (get_header_for_zstream
                          (at_offset (pre ++ encode_header h ++ rest) (zlen pre))
                          n (zlen (pre ++ encode_header h ++ rest))))
     = [HeaderTitle n; TimeField (Some (to_int (f_mtime h))); NameField nm;
        DoneField 1 HeaderComplete]) /\
  to_int (f_mtime h) =
    (if f_mtime h <? 2 ^ 31 then f_mtime h else f_mtime h - 2 ^ 32).
Proof.
  intros W Hs. split.
  - exists (reported_name h). now apply reported_header.
  - destruct W as (Wt & _). unfold to_int.
    destruct (f_mtime h <? 2 ^ 31) eqn:E.
    + apply Z.ltb_lt in E. rewrite Z.mod_small; lia.
    + apply Z.ltb_ge in E.
      replace (f_mtime h + 2 ^ 31) with (f_mtime h - 2 ^ 31 + 1 * 2 ^ 32)
        by ring.
      rewrite Z.mod_add by lia. rewrite Z.mod_small; lia.
Qed.

Lemma X4_hello_witness :
  exists nm,
    firstn 4 (printed (get_header_for_zstream
                         (at_offset ([] ++ encode_header hello_header
                                     ++ skipn 16 hello_gz) (zlen (@nil Z)))
                         1 (zlen ([] ++ encode_header hello_header
                                   ++ skipn 16 hello_gz))))
    = [HeaderTitle 1; TimeField (Some 77); NameField nm;
       DoneField 1 HeaderComplete].
Proof.
  apply (X4_reported_time_is_header_mtime hello_header [] (skipn 16 hello_gz) 1).
  - exact hello_header_ok.
  - vm_compute. reflexivity.
Defined.

(** **** X5.  For a member with a well-formed gzip header whose name, if
    there is one, is shorter than 511 bytes: without the FNAME flag the
    name line is given a null pointer; with it, the buffer given to
    [printf] holds the name of the header, byte for byte, and its
    terminating zero. *)
Theorem X5_short_name_reported_as_stored h pre rest n :
  well_formed_header h ->
  zlen (pre ++ encode_header h ++ rest) < 2 ^ 31 ->
  match f_name h with Some l => (length l < 511)%nat | None => True end ->
  exists t nm,
    firstn 4 (printed (get_header_for_zstream
                         (at_offset (pre ++ encode_header h ++ rest) (zlen pre))
                         n (zlen (pre ++ encode_header h ++ rest))))
    = [HeaderTitle n; TimeField t; NameField nm; DoneField 1 HeaderComplete] /\
    match f_name h with
    | None => nm = NullName
    | Some l => exists buf, nm = NameAt buf /\ c_string buf = Some l
    end.
Proof.
  intros W Hs Hl.
  exists (Some (to_int (f_mtime h))), (reported_name h).
  split; [now apply reported_header|].
  destruct W as (_ & _ & _ & _ & Wn & _).
  unfold reported_name, text_ok in *. destruct (f_name h) as [l|]; [|reflexivity].
  exists (stored_name l). split; [reflexivity|].
  rewrite stored_name_short by assumption. now apply c_string_terminated.
Qed.

Lemma X5_hello_witness :
  exists t nm,
    firstn 4 (printed (get_header_for_zstream
                         (at_offset ([] ++ encode_header hello_header
                                     ++ skipn 16 hello_gz) (zlen (@nil Z)))
                         1 (zlen ([] ++ encode_header hello_header
                                   ++ skipn 16 hello_gz))))
    = [HeaderTitle 1; TimeField t; NameField nm; DoneField 1 HeaderComplete] /\
    match f_name hello_header with
    | None => nm = NullName
    | Some l => exists buf, nm = NameAt buf /\ c_string buf = Some l
    end.
Proof.
  apply (X5_short_name_reported_as_stored hello_header [] (skipn 16 hello_gz) 1).
  - exact hello_header_ok.
  - vm_compute. reflexivity.
  - vm_compute. lia.
Defined.

(** **** X6.  For a member with a well-formed gzip header whose name has
    511 bytes or more: the buffer given to [printf] holds the first 511
    bytes of the name and then a cell that was never written; no
    terminating zero has been stored, so what the name line shows behind
    those bytes is undefined. *)
Theorem X6_long_name_has_no_terminator h l pre rest n :
  well_formed_header h ->
  zlen (pre ++ encode_header h ++ rest) < 2 ^ 31 ->
  f_name h = Some l -> (511 <= length l)%nat ->
  exists t,
    firstn 4 (printed (get_header_for_zstream
                         (at_offset (pre ++ encode_header h ++ rest) (zlen pre))
                         n (zlen (pre ++ encode_header h ++ rest))))
    = [HeaderTitle n; TimeField t;
       NameField (NameAt (map Some (firstn 511 l) ++ [None]));
       DoneField 1 HeaderComplete] /\
    c_string (map Some (firstn 511 l) ++ [None]) = None.
Proof.
  intros W Hs Hn Hl.
  exists (Some (to_int (f_mtime h))). split.
  - rewrite (reported_header h pre rest n W Hs). unfold reported_name.
    rewrite Hn, stored_name_long by assumption. reflexivity.
  - destruct W as (_ & _ & _ & _ & Wn & _). unfold text_ok in Wn.
    rewrite Hn in Wn. apply c_string_unterminated. now apply Forall_firstn.
Qed.

Lemma X6_long_name_witness :
  exists t,
    firstn 4 (printed (get_header_for_zstream
                         (at_offset ([] ++ encode_header long_name_header
                                     ++ empty_body) (zlen (@nil Z)))
                         1 (zlen ([] ++ encode_header long_name_header
                                   ++ empty_body))))
    = [HeaderTitle 1; TimeField t;
       NameField (NameAt (map Some (firstn 511 (repeat 78 511%nat)) ++ [None]));
       DoneField 1 HeaderComplete] /\
    c_string (map Some (firstn 511 (repeat 78 511%nat)) ++ [None]) = None.
Proof.
  apply (X6_long_name_has_no_terminator long_name_header (repeat 78 511%nat)
           [] empty_body 1).
  - exact long_name_header_ok.
  - vm_compute. reflexivity.
  - reflexivity.
  - rewrite repeat_length. lia.
Defined.

End Report.

(** ** Headers that zlib rejects *)

Section RejectedHeader.
Import Bits Inflate.

Local Opaque Crc32.update.

(** A state that stops ends the run, whatever turns are left. *)
Lemma reaches_halt fl s s' w t :
  reaches fl s s' -> ~ leaves fl s' -> step (mode s') s' = Stop w t ->
  forall n, (phi s < n)%nat -> run n fl s = (Halted w, t).
Proof.
  induction 1 as [s|s u t' s' L E R IH]; intros Hl Hs n Hn.
  - destruct n; [lia|]. rewrite run_turn by assumption. now rewrite Hs.
  - destruct n; [lia|]. rewrite run_turn by assumption. rewrite E.
    pose proof (turn_lowers _ _ _ _ L E). apply IH; auto. lia.
Qed.





(** From the first byte of a well-formed header to its header CRC. *)
Lemma header_to_HCRC h fl tail s0 :
  well_formed_header h ->
  hdr h HEAD [] (before_crc h ++ tail) s0 ->
  exists s7, reaches fl s0 s7 /\ hdr h HCRC (before_crc h) tail s7.
Proof.
  intros (Wt & Wx & Wo & We & Wn & Wc) H0.
  unfold before_crc, fixed_part in H0.
  rewrite <- !app_assoc in H0.
  change ([31; 139; 8; flag_byte h] ++ ?l) with
    ([31; 139] ++ [8; flag_byte h] ++ l) in H0.
  destruct (phase_HEAD _ _ _ H0) as (s1 & E1 & H1).
  destruct (phase_FLAGS _ _ _ H1) as (s2 & E2 & H2).
  destruct (phase_TIME _ _ _ _ Wt H2) as (s3 & E3 & H3).
  destruct (phase_OS _ _ _ _ Wx Wo H3) as (s4 & E4 & H4).
  destruct (phase_EXTRA _ fl _ _ _ We H4) as (s5 & R5 & H5).
  destruct (phase_NAME _ fl _ _ _ Wn H5) as (s6 & R6 & H6).
  destruct (phase_COMMENT _ fl _ _ _ Wc H6) as (s7 & R7 & H7).
  exists s7. split.
  - eapply reaches_trans;
      [eapply (hdr_turn h fl HEAD); [exact H0|reflexivity|discriminate..|exact E1]|].
    eapply reaches_trans;
      [eapply (hdr_turn h fl FLAGS); [exact H1|reflexivity|discriminate..|exact E2]|].
    eapply reaches_trans;
      [eapply (hdr_turn h fl TIME); [exact H2|reflexivity|discriminate..|exact E3]|].
    eapply reaches_trans;
      [eapply (hdr_turn h fl OS); [exact H3|reflexivity|discriminate..|exact E4]|].
    eapply reaches_trans; [exact R5|].
    eapply reaches_trans; [exact R6|exact R7].
  - unfold before_crc, fixed_part. rewrite <- !app_assoc in *. exact H7.
Qed.

(** Two bytes that are not the low half of the CRC of the header end the
    decoding. *)
Lemma hcrc_rejects h tail c0 c1 s :
  f_hcrc h = true ->
  hdr h HCRC (before_crc h) ([c0; c1] ++ tail) s ->
  is_byte c0 -> is_byte c1 ->
  c0 + 256 * c1 <> Z.land (Crc32.update 0 (before_crc h)) 65535 ->
  step HCRC s = Stop DataError (set_mode BAD (set_next tail s)).
Proof.
  intros Hcrc (Hm & Hh & Hn & Hfl & Hc & Hd) H0 H1 Hne. unfold is_byte in *.
  specialize (Hfl ltac:(discriminate) ltac:(discriminate)).
  specialize (Hc ltac:(discriminate) Hcrc).
  destruct (flag_bits h) as (_ & _ & _ & H9 & _).
  cbn [step]. unfold step_HCRC, bind at 1, gets. rewrite Hfl, H9, Hcrc.
  unfold atomic.
  erewrite bind_ok
    by (apply (getbits_le 2 (c0 + 256 * c1) s tail);
        [lia|exact Hh|rewrite le_bytes_2 by lia; exact Hn]).
  unfold bind at 1, gets. cbn [check set_next]. rewrite Hc.
  destruct (c0 + 256 * c1 =? Z.land (Crc32.update 0 (before_crc h)) 65535) eqn:E;
    [apply Z.eqb_eq in E; contradiction|].
  reflexivity.
Qed.

(** **** X8.  A file that begins with a well-formed gzip header whose
    FHCRC flag is set, followed by two bytes that are not the low sixteen
    bits of the CRC-32 of that header: [main] prints the separator and the
    begin line of member 1, nothing of a header, and exits with
    [Z_DATA_ERROR]. *)
Theorem X8_header_crc_mismatch_rejected h c0 c1 rest :
  well_formed_header h -> f_hcrc h = true ->
  is_byte c0 -> is_byte c1 ->
  c0 + 256 * c1 <> Z.land (Crc32.update 0 (before_crc h)) 65535 ->
  zlen (before_crc h ++ [c0; c1] ++ rest) < 2 ^ 31 ->
  main (Some (before_crc h ++ [c0; c1] ++ rest)) =
    ([Separator; MemberBegin 1 0], Exit HeaderInflateFailed Z_DATA_ERROR).
Proof.
  intros W Hcrc H0 H1 Hne Hs.
  set (content := before_crc h ++ [c0; c1] ++ rest) in *.
  set (S0 := member_start content (to_uInt (OUTBUF_MULT * zlen content))).
  assert (Hh : hdr h HEAD [] (before_crc h ++ [c0; c1] ++ rest) S0).
  { unfold hdr. repeat split; intros; try congruence; reflexivity. }
  destruct (header_to_HCRC h Z_BLOCK ([c0; c1] ++ rest) S0 W Hh)
    as (s7 & R7 & H7).
  pose proof (hcrc_rejects h rest c0 c1 s7 Hcrc H7 H0 H1 Hne) as E.
  pose proof H7 as (M7 & _). rewrite <- M7 in E at 1.
  pose proof (reaches_halt Z_BLOCK S0 s7 _ _ R7
                ltac:(apply (header_mode_stays Z_BLOCK HCRC); auto; discriminate)
                E (enough S0) (enough_phi S0)) as Hr.
  assert (Hne0 : before_crc h ++ [c0; c1] <> []).
  { unfold before_crc, fixed_part. discriminate. }
  assert (Hc : content = [] ++ (before_crc h ++ [c0; c1]) ++ rest).
  { unfold content. now rewrite <- app_assoc. }
  assert (Hr' : run (enough (member_start ((before_crc h ++ [c0; c1]) ++ rest)
                       (to_uInt (OUTBUF_MULT *
                          zlen ([] ++ (before_crc h ++ [c0; c1]) ++ rest)))))
                  Z_BLOCK
                  (member_start ((before_crc h ++ [c0; c1]) ++ rest)
                     (to_uInt (OUTBUF_MULT *
                        zlen ([] ++ (before_crc h ++ [c0; c1]) ++ rest))))
                = (Halted DataError, set_mode BAD (set_next rest s7))).
  { rewrite <- Hc. cbn [app] in Hc. rewrite <- Hc. exact Hr. }
  destruct (rejected_call [] (before_crc h ++ [c0; c1]) rest 1 _ Hne0
              ltac:(rewrite <- Hc; exact Hs) Hr') as (Hp & Hx).
  rewrite <- Hc in Hp, Hx.
  pose proof (main_trace content Hs) as Ht.
  assert (Hpos : 0 <> zlen content).
  { unfold content, before_crc, fixed_part. rewrite <- !app_assoc.
    unfold zlen. simpl length. lia. }
  destruct (trace_rejected _ _ _ _ _ _ _ _ Ht Hpos Hp Hx) as (Hl & Ho).
  rewrite (surjective_pairing (main _)). now rewrite Hl, Ho.
Qed.

Lemma X8_flipped_crc_witness :
  main (Some (before_crc crc_header_example ++ [253; 158] ++ [203; 200; 4; 0])) =
    ([Separator; MemberBegin 1 0], Exit HeaderInflateFailed Z_DATA_ERROR).
Proof.
  apply (X8_header_crc_mismatch_rejected crc_header_example 253 158
           [203; 200; 4; 0]).
  - unfold well_formed_header, is_byte, text_ok, crc_header_example.
    cbn [f_mtime f_xfl f_os f_extra f_name f_comment].
    repeat split; try lia; repeat constructor; lia.
  - reflexivity.
  - unfold is_byte. lia.
  - unfold is_byte. lia.
  - vm_compute. discriminate.
  - vm_compute. reflexivity.
Defined.

End RejectedHeader.

(** ** Members that are cut short *)

Section Truncated.
Import Bits Inflate.

Lemma dry_ret {A} (a : A) : dry (ret a).
Proof. intros s t H. discriminate. Qed.

Lemma dry_gets {A} (f : inflate_state -> A) : dry (gets f).
Proof. intros s t H. discriminate. Qed.

Lemma dry_modify g : dry (modify g).
Proof. intros s t H. discriminate. Qed.

Lemma dry_bad {A} : dry (@bad A).
Proof. intros s t H. discriminate. Qed.

Lemma dry_bytebits : dry bytebits.
Proof. intros s t H. discriminate. Qed.

Lemma dry_need_out : dry need_out.
Proof.
  intros s t. unfold need_out. destruct (left s <=? 0); discriminate.
Qed.

Lemma dry_emit b : dry (emit b).
Proof. intros s t. unfold emit. destruct (left s <=? 0); discriminate. Qed.

Lemma dry_take_byte : dry take_byte.
Proof.
  intros s t. unfold take_byte. destruct (next s) eqn:E; [|discriminate].
  intros H. inversion H; subst. exact E.
Qed.

Lemma dry_atomic {A} (m : M A) : dry (atomic m).
Proof.
  intros s t. unfold atomic. destruct (m s) as [a u|w u]; [discriminate|].
  destruct w; intros H; inversion H; subst. reflexivity.
Qed.

Lemma dry_bind {A B} (m : M A) (k : A -> M B) :
  dry m -> (forall a, dry (k a)) -> dry (bind m k).
Proof.
  intros Hm Hk s t H. apply bind_stop_inv in H as [H|(a & u & _ & H)].
  - exact (Hm _ _ H).
  - exact (Hk _ _ _ H).
Qed.

Local Ltac arid :=
  repeat first
    [ apply dry_ret | apply dry_bad | apply dry_gets | apply dry_modify
    | apply dry_bytebits | apply dry_need_out | apply dry_emit
    | apply dry_take_byte | apply dry_atomic
    | apply dry_bind; [|intros]
    | assumption
    | match goal with
      | |- dry (if ?c then _ else _) => destruct c
      end ].

Lemma dry_skip_extra n : dry (skip_extra n).
Proof. induction n; simpl; arid. Qed.

Lemma dry_copy_stored n : dry (copy_stored n).
Proof. induction n; simpl; arid. Qed.

Lemma dry_copy_match n : dry (copy_match n).
Proof. induction n; simpl; arid. Qed.

(** Every state of [inflate] that stops for lack of input has taken all
    of it. *)
Lemma dry_step m : dry (step m).
Proof.
  destruct m; simpl;
    unfold step_HEAD, step_FLAGS, step_TIME, step_OS, step_EXLEN, step_EXTRA,
      step_NAME, step_COMMENT, step_HCRC, step_TYPE, step_STORED, step_COPY,
      step_TABLE, step_LEN, step_LIT, step_MATCH, step_CHECK, step_LENGTH;
    arid; auto using dry_skip_extra, dry_copy_stored, dry_copy_match.
Qed.

Lemma run_dry fl : forall n s t,
  run n fl s = (Halted NeedInput, t) -> next t = [].
Proof.
  induction n as [|n IH]; intros s t H; [discriminate|].
  destruct (leaves_dec fl s) as [L|L].
  - rewrite run_leaves in H by assumption. destruct (mode s); discriminate.
  - rewrite run_turn in H by assumption.
    destruct (step (mode s) s) as [u s'|w s'] eqn:E.
    + exact (IH _ _ H).
    + inversion H; subst. exact (dry_step _ _ _ E).
Qed.

(** A member without its last bytes: the decoder takes all there is and
    stops for lack of input. *)
Lemma cut_run m1 m2 size B :
  gzip_member (m1 ++ m2) size -> size <= B -> m2 <> [] ->
  exists t,
    run (enough (member_start m1 B)) Z_NO_FLUSH (member_start m1 B)
      = (Halted NeedInput, t) /\
    next t = [].
Proof.
  intros Hm Hfit Hne.
  destruct (run_fits (m1 ++ m2) [] size B Hm Hfit) as (T & HT & Hn & _).
  rewrite app_nil_r in HT.
  set (S1 := member_start m1 B) in *.
  destruct (run (enough S1) Z_NO_FLUSH S1) as [l t] eqn:E.
  pose proof (run_no_turns _ _ _ _ _ (enough_phi S1) E) as Hl.
  assert (Hlast : lasting m2 0 l -> False).
  { intros Hla.
    pose proof (run_lift Z_NO_FLUSH m2 0 ltac:(lia) _ _ _ _ E Hla) as E'.
    unfold S1 in E'. rewrite start_lift, Z.add_0_r in E'.
    assert (Hlt : lift m2 0 t = T /\ l = AtDone).
    { pose proof (run_more Z_NO_FLUSH _ _ _ _ E' Hl
                    (enough (member_start (m1 ++ m2) B))
                    (enough_start_le m1 m2 B B)) as E2.
      rewrite HT in E2. inversion E2; subst. auto. }
    destruct Hlt as (Ht & _). rewrite <- Ht in Hn. cbn [lift next] in Hn.
    apply app_eq_nil in Hn as [_ Hn]. contradiction. }
  destruct l as [| | |w|]; try (exfalso; apply Hlast; exact I).
  destruct w; try (exfalso; apply Hlast; reflexivity).
  exists t. split; [reflexivity|]. exact (run_dry _ _ _ _ E).
Qed.

(** The two calls of [inflate] on a member that is cut behind its
    header: both return [Z_OK], and all the input is taken. *)
Lemma two_calls_cut filesize inbuf s1 T :
  run (enough (member_start inbuf (to_uInt (OUTBUF_MULT * filesize))))
    Z_NO_FLUSH (member_start inbuf (to_uInt (OUTBUF_MULT * filesize)))
    = (Halted NeedInput, T) ->
  run (enough (member_start inbuf (to_uInt (OUTBUF_MULT * filesize))))
    Z_BLOCK (member_start inbuf (to_uInt (OUTBUF_MULT * filesize)))
    = (AtBlock, s1) ->
  next T = [] -> next s1 <> [] ->
  exists zs1 zs2,
    inflate (open_stream filesize inbuf) Z_BLOCK = (Z_OK, zs1) /\
    state zs1 = s1 /\
    inflate zs1 Z_NO_FLUSH = (Z_OK, zs2) /\
    total_in zs2 = zlen inbuf.
Proof.
  set (B := to_uInt (OUTBUF_MULT * filesize)).
  set (S0 := member_start inbuf B).
  intros H H1 HnT Hn1.
  destruct (run_split _ S0 _ _ eq_refl H ltac:(discriminate))
    as [(s1' & H1' & Hm1 & H2)|(H1' & _)]; [|congruence].
  rewrite H1 in H1'. inversion H1'; subst s1'. clear H1'.
  destruct (run_result _ _ _ _ _ H1) as (Hs1 & _).
  pose proof (run_head_consumes _ _ _ _ _ H1 eq_refl (or_intror eq_refl)) as Hc.
  assert (Hin1 : 1 <= zlen (next S0) - zlen (next s1)).
  { pose proof (suffix_length _ _ Hs1). unfold bits_left in Hc.
    change (hold S0) with (@nil bool) in Hc. simpl length in Hc.
    change (next S0) with inbuf in *. unfold zlen. lia. }
  assert (E1 : inflate (open_stream filesize inbuf) Z_BLOCK =
               (Z_OK, mkStream (next s1) (zlen (next s1)) (left s1)
                        (zlen (next S0) - zlen (next s1)) (B - left s1) s1)).
  { unfold inflate. cbv zeta. rewrite loaded_open. fold B. fold S0.
    rewrite H1. cbn [ret_code open_stream total_in total_out next_in avail_out].
    fold B. pose proof (suffix_skipn _ _ Hs1) as Hsk.
    change (next S0) with inbuf in Hsk at 2. rewrite Hsk.
    destruct (zlen (next S0) - zlen (next s1) =? 0) eqn:E0;
      [apply Z.eqb_eq in E0; lia|].
    cbn [andb]. now rewrite !Z.add_0_l. }
  assert (L1 : loaded (mkStream (next s1) (zlen (next s1)) (left s1)
                 (zlen (next S0) - zlen (next s1)) (B - left s1) s1) = s1).
  { unfold loaded. cbn [avail_out avail_in next_in state].
    rewrite zlen_firstn_all. apply reload. }
  assert (H2' : run (enough s1) Z_NO_FLUSH s1 = (Halted NeedInput, T)).
  { rewrite <- H2. symmetry. apply run_enough.
    destruct (run_result _ _ _ _ _ H1) as (_ & _ & _ & Hb). unfold enough. lia. }
  eexists. eexists. split; [exact E1|]. split; [reflexivity|].
  assert (Hpos : 0 < zlen (next s1)).
  { destruct (next s1); [congruence|]. unfold zlen. simpl length. lia. }
  split.
  - unfold inflate. cbv zeta. rewrite L1, H2'. cbn [ret_code].
    rewrite HnT. change (zlen (@nil Z)) with 0.
    destruct (zlen (next s1) - 0 =? 0) eqn:E0; [apply Z.eqb_eq in E0; lia|].
    cbn [andb]. reflexivity.
  - cbn [total_in]. change (next S0) with inbuf. ring.
Qed.

(** The call for a member that is cut somewhere behind the first byte of
    its body returns like the call for a whole member: all the bytes that
    are left of the file count as the member. *)
Lemma cut_member_call h b1 b2 size pre n :
  well_formed_header h ->
  gzip_member (encode_header h ++ b1 ++ b2) size ->
  b1 <> [] -> b2 <> [] ->
  zlen (pre ++ encode_header h ++ b1) < 2 ^ 31 ->
  size <= to_uInt (OUTBUF_MULT * zlen (pre ++ encode_header h ++ b1)) ->
  result (get_header_for_zstream
            (at_offset (pre ++ encode_header h ++ b1) (zlen pre)) n
            (zlen (pre ++ encode_header h ++ b1)))
    = Return (zlen (encode_header h ++ b1)).
Proof.
  intros W Hm Hb1 Hb2 Hs Hfit.
  set (m := encode_header h ++ b1) in *.
  set (content := pre ++ m) in *.
  set (B := to_uInt (OUTBUF_MULT * zlen content)) in *.
  set (S0 := member_start m B).
  assert (Hne : m <> []).
  { unfold m. pose proof (encode_header_nonempty h).
    destruct (encode_header h); [congruence|discriminate]. }
  assert (H0 : hdr h HEAD [] (encode_header h ++ b1) S0).
  { unfold hdr. repeat split; intros; try congruence; reflexivity. }
  destruct (header_reaches h Z_BLOCK b1 S0 W H0)
    as (s1 & R & G1 & G2 & G3 & G4).
  pose proof (reaches_run Z_BLOCK S0 s1 R
                (or_intror (or_intror (conj G1 eq_refl)))
                (enough S0) (enough_phi S0)) as Hr.
  rewrite G1 in Hr.
  assert (Hm' : gzip_member (m ++ b2) size)
    by (unfold m; now rewrite <- app_assoc).
  destruct (cut_run m b2 size B Hm' Hfit Hb2) as (T & HT & HnT).
  destruct (two_calls_cut (zlen content) m s1 T HT Hr HnT
              ltac:(rewrite G3; exact Hb1))
    as (zs1 & zs2 & E1 & Hst & E2 & Hin).
  assert (Htm : h_time s1 <> None).
  { apply (run_block_timed _ S0 _ _ eq_refl) in Hr; auto. discriminate. }
  rewrite header_at by (auto using zlen_nonneg).
  unfold member_call, st_size. cbn [at_offset contents].
  fold (at_offset content (zlen pre)).
  pose proof (fread_member pre m [] Hne) as Hf.
  rewrite !app_nil_r in Hf. fold content in Hf. rewrite Hf.
  assert (Hz : (zlen m =? 0) = false).
  { apply Z.eqb_neq. destruct m; [congruence|].
    unfold zlen; simpl length; lia. }
  rewrite Hz, E1. change (negb (Z_OK =? Z_OK)) with false. cbv iota.
  rewrite Hst. destruct (h_time s1); [|congruence].
  rewrite E2. change (Z_OK <? 0) with false. cbv iota.
  cbn [result]. rewrite Hin, to_int_small; [reflexivity|].
  unfold content in Hs. rewrite zlen_app in Hs.
  pose proof (zlen_nonneg pre). pose proof (zlen_nonneg m). lia.
Qed.

(** The scan of a file whose last member takes all that is left. *)
Lemma trace_last content p n r lines o :
  scan_trace content p n r lines o ->
  0 <= p -> zlen content < 2 ^ 31 -> p <> zlen content ->
  result (get_header_for_zstream (at_offset content p) n (zlen content))
    = Return (zlen content - p) ->
  o = Return (Some (zlen content - p)) /\
  begins lines = [p] /\ ends lines = [zlen content - 1] /\
  numbers lines = [n].
Proof.
  destruct 1 as [| | |p n ret0 r rest o Hp Hr Hb Ht]; intros Hp0 Hs Hne Hres;
    [congruence..|].
  rewrite Hres in Hr. inversion Hr; subst r. clear Hr.
  destruct (trace_at_end _ _ _ _ _ _ Ht ltac:(lia)) as (-> & ->).
  rewrite header_at by assumption.
  destruct (member_call_marks (at_offset content p) n) as (Mb & Me).
  destruct (member_call_report (at_offset content p) n) as (Mn & _).
  destruct (block_marks _ n p (p + (zlen content - p) - 1) [] Mb Me)
    as (B1 & B2).
  destruct (block_report _ n p (p + (zlen content - p) - 1) [] Mn)
    as (B3 & _).
  rewrite B1, B2, B3. cbn [begins ends numbers].
  replace (p + (zlen content - p) - 1) with (zlen content - 1) by ring.
  repeat split.
Qed.

(** **** X9.  A file that ends in the middle of a member: complete
    members that fit the output buffer, then a member with a well-formed
    header that is cut somewhere behind the first byte of its body.  The
    program reports the cut member like a whole one, ending at the last
    byte of the file, and the scan ends normally: [main] returns the number
    of bytes that were left of the member, and no error is raised. *)
Theorem X9_cut_member_reported_as_whole mss h b1 b2 size :
  Forall (fitting (zlen (file_of mss ++ encode_header h ++ b1))) mss ->
  well_formed_header h ->
  gzip_member (encode_header h ++ b1 ++ b2) size ->
  b1 <> [] -> b2 <> [] ->
  zlen (file_of mss ++ encode_header h ++ b1) < 2 ^ 31 ->
  size <= to_uInt (OUTBUF_MULT * zlen (file_of mss ++ encode_header h ++ b1)) ->
  snd (main (Some (file_of mss ++ encode_header h ++ b1)))
    = Return (Some (zlen (encode_header h ++ b1))) /\
  begins (fst (main (Some (file_of mss ++ encode_header h ++ b1))))
    = starts 0 (map fst mss) ++ [zlen (file_of mss)] /\
  ends (fst (main (Some (file_of mss ++ encode_header h ++ b1))))
    = stops 0 (map fst mss)
      ++ [zlen (file_of mss ++ encode_header h ++ b1) - 1] /\
  numbers (fst (main (Some (file_of mss ++ encode_header h ++ b1))))
    = count_from 1 (length mss) ++ [1 + zlen mss].
Proof.
  intros Hf W Hm Hb1 Hb2 Hs Hfit.
  set (content := file_of mss ++ encode_header h ++ b1) in *.
  destruct (trace_members content (encode_header h ++ b1) Hs mss [] 1 None _ _
              eq_refl Hf (main_trace content Hs))
    as (l1 & l2 & Hl & Ht & Hb & He & _ & Hn).
  cbn [app] in Ht.
  pose proof (cut_member_call h b1 b2 size (file_of mss) (1 + zlen mss)
                W Hm Hb1 Hb2 Hs Hfit) as Hr.
  fold content in Hr.
  assert (Hlen : zlen content - zlen (file_of mss) = zlen (encode_header h ++ b1))
    by (unfold content; rewrite (zlen_app (file_of mss)); ring).
  assert (Hpos : 0 < zlen (encode_header h ++ b1)).
  { rewrite zlen_app. pose proof (zlen_nonneg b1).
    pose proof (encode_header_nonempty h).
    destruct (encode_header h); [congruence|].
    unfold zlen in *. simpl length. lia. }
  rewrite <- Hlen in Hr.
  destruct (trace_last _ _ _ _ _ _ Ht (zlen_nonneg _) Hs ltac:(lia) Hr)
    as (Ho & Hb2' & He2 & Hn2).
  rewrite Hl, begins_app, ends_app, numbers_app.
  rewrite Hb, He, Hn, Hb2', He2, Hn2, Ho, Hlen. repeat split.
Qed.

(** [hello_gz] without its last thirteen bytes. *)
Lemma X9_cut_hello_witness :
  snd (main (Some (file_of [] ++ encode_header hello_header
                   ++ [203; 72; 205; 201; 201])))
    = Return (Some 21) /\
  begins (fst (main (Some (file_of [] ++ encode_header hello_header
                           ++ [203; 72; 205; 201; 201]))))
    = [0] /\
  ends (fst (main (Some (file_of [] ++ encode_header hello_header
                         ++ [203; 72; 205; 201; 201]))))
    = [20] /\
  numbers (fst (main (Some (file_of [] ++ encode_header hello_header
                            ++ [203; 72; 205; 201; 201]))))
    = [1].
Proof.
  apply (X9_cut_member_reported_as_whole [] hello_header
           [203; 72; 205; 201; 201]
           [87; 200; 64; 144; 0; 128; 136; 249; 229; 17; 0; 0; 0] 17).
  - constructor.
  - unfold well_formed_header, is_byte, text_ok, hello_header.
    cbn [f_mtime f_xfl f_os f_extra f_name f_comment].
    repeat split; try lia; repeat constructor; lia.
  - apply is_gzip_member_true. vm_compute. reflexivity.
  - discriminate.
  - discriminate.
  - vm_compute. reflexivity.
  - vm_compute. discriminate.
Defined.

(** With no byte of the body at hand, the second call of [inflate]
    makes no progress. *)
Lemma starved_call zs1 s1 :
  loaded zs1 = s1 -> avail_out zs1 = left s1 ->
  mode s1 = TYPE -> hold s1 = [] -> next s1 = [] -> last s1 = false ->
  fst (inflate zs1 Z_NO_FLUSH) = Z_BUF_ERROR.
Proof.
  intros Hl Ho Hm Hh Hn Hla.
  assert (E : step (mode s1) s1 = Stop NeedInput (slurp s1)).
  { rewrite Hm. cbn [step]. unfold step_TYPE, bind at 1, gets. rewrite Hla.
    assert (G : getbits 1 s1 = Stop NeedInput s1)
      by (cbn [getbits]; unfold bind, getbit; rewrite Hh, Hn; reflexivity).
    unfold atomic. now rewrite (bind_stop _ _ _ _ _ G). }
  unfold inflate. cbv zeta. rewrite Hl.
  destruct (enough s1) eqn:En; [unfold enough in En; lia|].
  rewrite run_turn
    by (intros [C|[C|[_ C]]]; try discriminate; rewrite Hm in C; discriminate).
  rewrite E. cbn [fst ret_code]. rewrite Ho.
  unfold slurp. cbn [next left set_hold set_next]. rewrite Hn.
  change (zlen (@nil Z)) with 0. rewrite !Z.sub_diag.
  reflexivity.
Qed.

(** A call that exits ends the scan behind what it printed. *)
Lemma trace_exits content p n r lines o at_ code :
  scan_trace content p n r lines o ->
  p <> zlen content ->
  result (get_header_for_zstream (at_offset content p) n (zlen content))
    = Exit at_ code ->
  lines = [Separator; MemberBegin n p]
          ++ printed (get_header_for_zstream (at_offset content p) n
                        (zlen content)) /\
  o = Exit at_ code.
Proof.
  destruct 1; intros Hp Hr; [congruence| |congruence..].
  split; [reflexivity|congruence].
Qed.

(** **** X10.  A file that ends right behind a well-formed gzip header:
    [main] prints the begin line of member 1 and the header report, with
    the time and the name of the header and the header marked complete,
    and then exits with [Z_BUF_ERROR] from the call of [inflate] in the
    boundary loop; neither the decompressed size nor the end line is
    printed. *)
Theorem X10_header_without_body h :
  well_formed_header h ->
  zlen (encode_header h) < 2 ^ 31 ->
  main (Some (encode_header h)) =
    ([Separator; MemberBegin 1 0; HeaderTitle 1;
      TimeField (Some (to_int (f_mtime h))); NameField (reported_name h);
      DoneField 1 HeaderComplete],
     Exit BodyInflateFailed Z_BUF_ERROR).
Proof.
  intros W Hs.
  set (content := encode_header h) in *.
  set (B := to_uInt (OUTBUF_MULT * zlen content)).
  pose proof (encode_header_nonempty h) as Hne. fold content in Hne.
  assert (Hpos : 0 < zlen content).
  { destruct content; [congruence|]. unfold zlen. simpl length. lia. }
  destruct (header_report h [] B W) as (s1 & R & Hm & Hn & Hd & Hv & Hh & Hla).
  rewrite app_nil_r in R. fold content in R.
  destruct (block_call (zlen content) content s1 R Hm
              ltac:(rewrite Hn; exact Hpos))
    as (zs1 & E1 & Hst & Hl & Ho).
  pose proof (starved_call zs1 s1 Hl Ho Hm Hh Hn Hla) as E2.
  unfold report_view in Hv. inversion Hv as [[Hti Hnm]].
  assert (Hc : get_header_for_zstream (at_offset content 0) 1 (zlen content) =
               mkCall (header_lines 1 (f_mtime h) s1)
                 (mkFile content (0 + zlen content)
                    (zlen content <? zlen content) false)
                 (Exit BodyInflateFailed Z_BUF_ERROR)).
  { rewrite header_at by lia.
    unfold member_call, st_size. cbn [at_offset contents].
    fold (at_offset content 0).
    pose proof (fread_member [] content [] Hne) as Hf.
    rewrite !app_nil_r in Hf. cbn [app] in Hf.
    change (zlen (@nil Z)) with 0 in Hf. rewrite Hf.
    destruct (zlen content =? 0) eqn:E0; [apply Z.eqb_eq in E0; lia|].
    rewrite E1. change (negb (Z_OK =? Z_OK)) with false. cbv iota.
    rewrite Hst, Hti.
    destruct (inflate zs1 Z_NO_FLUSH) as [r2 zs2]. cbn [fst] in E2. subst r2.
    change (Z_BUF_ERROR <? 0) with true. cbv iota. reflexivity. }
  pose proof (main_trace content Hs) as Ht.
  assert (Hx : result (get_header_for_zstream (at_offset content 0) 1
                         (zlen content)) = Exit BodyInflateFailed Z_BUF_ERROR)
    by (rewrite Hc; reflexivity).
  destruct (trace_exits _ _ _ _ _ _ _ _ Ht ltac:(lia) Hx) as (Hl' & Ho').
  rewrite (surjective_pairing (main _)), Hl', Ho', Hc.
  cbn [printed app]. unfold header_lines.
  rewrite Hd, Hnm. reflexivity.
Qed.

Lemma X10_hello_header_witness :
  main (Some (encode_header hello_header)) =
    ([Separator; MemberBegin 1 0; HeaderTitle 1;
      TimeField (Some (to_int (f_mtime hello_header)));
      NameField (reported_name hello_header);
      DoneField 1 HeaderComplete],
     Exit BodyInflateFailed Z_BUF_ERROR).
Proof.
  apply (X10_header_without_body hello_header).
  - unfold well_formed_header, is_byte, text_ok, hello_header.
    cbn [f_mtime f_xfl f_os f_extra f_name f_comment].
    repeat split; try lia; repeat constructor; lia.
  - vm_compute. reflexivity.
Defined.

End Truncated.

(** ** The scan of any file *)

Section AnyFile.

(** The ranges that a scan from the cursor [p] reports. *)
Lemma trace_tiled content :
  zlen content < 2 ^ 31 ->
  forall p n r lines o,
  scan_trace content p n r lines o -> 0 <= p ->
  tiled (zlen content) p (begins lines) (ends lines) /\
  (forall v, o = Return v -> covered (zlen content) p (ends lines)).
Proof.
  intros Hs p n r lines o H.
  induction H as [p n ret0 Hp|p n ret0 at_ code Hp Hr|p n ret0 Hp Hr
                  |p n ret0 r rest o Hp Hr Hb Ht IH]; intros H0.
  - split; [reflexivity|]. intros v _. exact Hp.
  - rewrite header_at by assumption.
    destruct (member_call_marks (at_offset content p) n) as (Mb & Me).
    rewrite begins_app, ends_app, Mb, Me. cbn [begins ends app tiled].
    split; [auto|]. intros v C. discriminate.
  - rewrite header_at by assumption.
    destruct (member_call_marks (at_offset content p) n) as (Mb & Me).
    rewrite begins_app, ends_app, Mb, Me. cbn [begins ends app tiled].
    split; [auto|]. intros v C. discriminate.
  - rewrite header_at by assumption.
    destruct (member_call_marks (at_offset content p) n) as (Mb & Me).
    destruct (block_marks _ n p (p + r - 1) rest Mb Me) as (B1 & B2).
    rewrite B1, B2.
    destruct (IH ltac:(lia)) as (IH1 & IH2).
    split.
    + cbn [tiled]. split; [reflexivity|]. split; [lia|].
      replace (p + r - 1 + 1) with (p + r) by ring. exact IH1.
    + intros v Ho. specialize (IH2 v Ho). unfold covered in *.
      cbn [rev]. destruct (rev (ends rest)) as [|e l]; cbn [app]; [lia|].
      exact IH2.
Qed.

(** **** X11.  Whatever the file holds, the ranges that [main] reports
    lie side by side: the first member begins at byte 0, every member ends
    on one of its own bytes within the file, and the next one begins on the
    byte behind it.  When [main] returns, the ranges reach the end of the
    file (an empty file has none). *)
Theorem X11_reported_ranges_tile_the_file content :
  zlen content < 2 ^ 31 ->
  tiled (zlen content) 0 (begins (fst (main (Some content))))
    (ends (fst (main (Some content)))) /\
  (forall v, snd (main (Some content)) = Return v ->
   covered (zlen content) 0 (ends (fst (main (Some content))))).
Proof.
  intros Hs.
  exact (trace_tiled content Hs 0 1 None _ _ (main_trace content Hs)
           ltac:(lia)).
Qed.

Lemma X11_two_members_witness :
  tiled (zlen (hello_gz ++ zeros_gz)) 0
    (begins (fst (main (Some (hello_gz ++ zeros_gz)))))
    (ends (fst (main (Some (hello_gz ++ zeros_gz))))) /\
  (forall v, snd (main (Some (hello_gz ++ zeros_gz))) = Return v ->
   covered (zlen (hello_gz ++ zeros_gz)) 0
     (ends (fst (main (Some (hello_gz ++ zeros_gz)))))).
Proof.
  apply (X11_reported_ranges_tile_the_file (hello_gz ++ zeros_gz)).
  vm_compute. reflexivity.
Defined.

(** With the cursor before the end of the file, the first read of a
    call delivers data. *)
Lemma call_has_data content p n code :
  0 <= p < zlen content -> zlen content < 2 ^ 31 ->
  result (get_header_for_zstream (at_offset content p) n (zlen content))
    <> Exit NoData code.
Proof.
  intros Hp Hs. rewrite header_at by lia.
  unfold member_call, st_size, fread. cbn [at_offset contents eof pos err orb].
  destruct (zlen content <=? 0) eqn:E; [apply Z.leb_le in E; lia|].
  set (data := firstn _ _).
  assert (Hd : (zlen data =? 0) = false).
  { apply Z.eqb_neq. unfold data, zlen in *.
    rewrite length_firstn, length_skipn. lia. }
  rewrite Hd.
  destruct (inflate _ Z_BLOCK) as [r1 zs1].
  destruct (negb (r1 =? Z_OK)); [discriminate|].
  destruct (h_time (state zs1)); [|discriminate].
  destruct (inflate zs1 Z_NO_FLUSH) as [r2 zs2].
  destruct (r2 <? 0); discriminate.
Qed.

Lemma trace_has_data content :
  zlen content < 2 ^ 31 ->
  forall p n r lines o,
  scan_trace content p n r lines o -> 0 <= p <= zlen content ->
  forall code, o <> Exit NoData code.
Proof.
  intros Hs p n r lines o H.
  induction H as [p n ret0 Hp|p n ret0 at_ code Hp Hr|p n ret0 Hp Hr
                  |p n ret0 r rest o Hp Hr Hb Ht IH]; intros H0 c.
  - discriminate.
  - intros C. inversion C; subst.
    exact (call_has_data content p n c ltac:(lia) Hs Hr).
  - discriminate.
  - apply IH. lia.
Qed.

(** **** X12.  On a file of fewer than 2^31 bytes, [main] does not take
    the exit of [get_header_for_zstream] for a first [fread] that delivers
    nothing: the loop calls the function only with the cursor before the
    end of the file, so the read delivers between 1 and 2^31 - 1 bytes, a
    count that [zs.avail_in], an [uInt], holds as it is.  (The bound
    matters: a count of 2^32 bytes would be stored as 0.) *)
Theorem X12_no_data_exit_below_2G content code :
  zlen content < 2 ^ 31 ->
  snd (main (Some content)) <> Exit NoData code.
Proof.
  intros Hs.
  exact (trace_has_data content Hs 0 1 None _ _ (main_trace content Hs)
           ltac:(pose proof (zlen_nonneg content); lia) code).
Qed.

Lemma X12_hello_witness :
  snd (main (Some hello_gz)) <> Exit NoData Z_DATA_ERROR.
Proof.
  apply (X12_no_data_exit_below_2G hello_gz Z_DATA_ERROR).
  vm_compute. reflexivity.
Defined.

(** **** X14.  The boundary loop never takes a second turn.  The first
    [fread] of [get_header_for_zstream] asks for as many bytes as the file
    has, so the [fread] in the loop delivers nothing: whatever the stream
    holds, the loop calls [inflate] once and is left, by the exit on a
    negative [ret] or by the [break]; the statements that reset the input
    and output buffers for a further turn are never reached. *)
Theorem X14_boundary_loop_takes_one_turn f zs k :
  0 <= pos f -> err f = false ->
  boundary_loop (S k) (st_size f) zs (snd (fread (st_size f) f)) =
    (let '(r, zs') := inflate zs Z_NO_FLUSH in
     if r <? 0
     then (zs', snd (fread (st_size f) f), Exit BodyInflateFailed r)
     else (set_avail_in 0 zs',
           snd (fread (st_size f) (snd (fread (st_size f) f))),
           Return r)).
Proof.
  intros Hp He. apply boundary_loop_once.
  - now apply fread_again.
  - destruct (fread_fields (st_size f) f) as (_ & E). now rewrite E.
Qed.

Lemma X14_hello_witness :
  boundary_loop 1 (st_size (at_offset hello_gz 0))
    (open_stream (zlen hello_gz) hello_gz)
    (snd (fread (st_size (at_offset hello_gz 0)) (at_offset hello_gz 0))) =
    (let '(r, zs') := inflate (open_stream (zlen hello_gz) hello_gz) Z_NO_FLUSH in
     if r <? 0
     then (zs', snd (fread (st_size (at_offset hello_gz 0)) (at_offset hello_gz 0)),
           Exit BodyInflateFailed r)
     else (set_avail_in 0 zs',
           snd (fread (st_size (at_offset hello_gz 0))
                  (snd (fread (st_size (at_offset hello_gz 0))
                          (at_offset hello_gz 0)))),
           Return r)).
Proof.
  apply (X14_boundary_loop_takes_one_turn (at_offset hello_gz 0)
           (open_stream (zlen hello_gz) hello_gz) 0).
  - simpl. lia.
  - reflexivity.
Defined.

End AnyFile.

(** ** Headers that are cut short *)

Section CutHeader.
Import Bits Inflate.

Local Opaque Crc32.update.

Lemma slurp_slurp s : slurp (slurp s) = slurp s.
Proof.
  unfold slurp. cbn [hold next set_hold set_next of_bytes flat_map].
  now rewrite app_nil_r.
Qed.

Lemma slurp_empty s : hold s = [] -> next s = [] -> slurp s = s.
Proof. intros Hh Hn. destruct s; simpl in *. subst. reflexivity. Qed.

(** A bit that is there is still there, and the same, after [NEEDBITS]
    has pulled all the input. *)
Lemma getbit_slurp s b s1 :
  getbit s = Ok b s1 -> getbit (slurp s) = Ok b (slurp s1).
Proof.
  unfold getbit. destruct (hold s) as [|c h] eqn:Eh.
  - destruct (next s) as [|x n] eqn:En; [discriminate|].
    intros H. inversion H; subst. clear H.
    unfold slurp. rewrite Eh, En.
    cbn [hold next set_hold set_next of_bytes flat_map of_byte map app].
    reflexivity.
  - intros H. inversion H; subst. clear H.
    unfold slurp. rewrite Eh.
    cbn [hold next set_hold set_next app]. reflexivity.
Qed.

(** Bits that are missing are still missing. *)
Lemma getbits_slurp k : forall s u,
  getbits k s = Stop NeedInput u ->
  exists u', getbits k (slurp s) = Stop NeedInput u'.
Proof.
  induction k as [|k IH]; intros s u H; [discriminate|].
  cbn [getbits] in *.
  apply bind_stop_inv in H as [H|(b & s1 & E & H)].
  - unfold getbit in H. destruct (hold s) eqn:Eh; [|discriminate].
    destruct (next s) eqn:En; [|discriminate].
    rewrite (slurp_empty s Eh En). exists s.
    apply bind_stop. unfold getbit. now rewrite Eh, En.
  - apply bind_stop_inv in H as [H|(v & s2 & _ & H)]; [|discriminate].
    destruct (IH _ _ H) as (u' & H').
    exists u'. rewrite (bind_ok _ _ _ _ _ (getbit_slurp _ _ _ E)).
    now apply bind_stop.
Qed.

Lemma sated_ret {A} (a : A) : sated (ret a).
Proof. intros s t H. discriminate. Qed.

Lemma sated_gets {A} (f : inflate_state -> A) : sated (gets f).
Proof. intros s t H. discriminate. Qed.

Lemma sated_modify g : sated (modify g).
Proof. intros s t H. discriminate. Qed.

Lemma sated_bad {A} : sated (@bad A).
Proof. intros s t H. discriminate. Qed.

Lemma sated_bind {A B} (m : M A) (k : A -> M B) :
  sated m -> (forall a, sated (k a)) -> sated (bind m k).
Proof.
  intros Hm Hk s t H. apply bind_stop_inv in H as [H|(a & u & _ & H)].
  - exact (Hm _ _ H).
  - exact (Hk _ _ _ H).
Qed.

(** A state that needs [k] bits at once and has stopped for lack of them
    stops again when it is entered with no more input. *)
Lemma atomic_stuck {A} k (F : Z -> M A) s t :
  (forall v, sated (F v)) ->
  atomic (bind (getbits k) F) s = Stop NeedInput t ->
  t = slurp s /\
  atomic (bind (getbits k) F) t = Stop NeedInput t.
Proof.
  intros HF H. unfold atomic in H.
  destruct (bind (getbits k) F s) as [a u|w u] eqn:E; [discriminate|].
  destruct w; inversion H; subst. clear H.
  split; [reflexivity|].
  apply bind_stop_inv in E as [E|(v & s1 & _ & E)];
    [|destruct (HF _ _ _ E)].
  destruct (getbits_slurp _ _ _ E) as (u' & E').
  unfold atomic. rewrite (bind_stop _ _ _ _ _ E'). now rewrite slurp_slurp.
Qed.

Local Ltac full :=
  intros;
  repeat first
    [ apply sated_ret | apply sated_gets | apply sated_modify | apply sated_bad
    | apply sated_bind; [|intros]
    | match goal with
      | |- sated (if ?c then _ else _) => destruct c
      end ].

(** The extra field, cut: the bytes that are left to skip are counted
    in [length], and the state waits for them. *)
Lemma skip_extra_stuck : forall n s t,
  skip_extra n s = Stop NeedInput t -> length_ s = Z.of_nat n ->
  mode t = mode s /\ h_done t = h_done s /\ flags t = flags s /\
  skip_extra (Z.to_nat (length_ t)) t = Stop NeedInput t.
Proof.
  induction n as [|n IH]; intros s t H Hl; [discriminate|].
  cbn [skip_extra] in H.
  apply bind_stop_inv in H as [H|(b & s1 & T & H)].
  - assert (t = s).
    { unfold take_byte in H. destruct (next s); [|discriminate].
      now inversion H. }
    subst t. repeat split. rewrite Hl, Nat2Z.id. cbn [skip_extra].
    now apply bind_stop.
  - apply bind_stop_inv in H as [H|([] & s2 & Hm & H)]; [discriminate|].
    inversion Hm; subst s2. clear Hm.
    unfold take_byte in T. destruct (next s) as [|x l]; [discriminate|].
    inversion T; subst. clear T.
    set (s2 := crc_header [b] (set_length (length_ (set_next l s) - 1)
                                 (set_next l s))) in *.
    destruct (crc_header_keeps [b] (set_length (length_ (set_next l s) - 1)
                                     (set_next l s)))
      as (K1 & _ & _ & K4 & K5).
    destruct (crc_header_view [b] (set_length (length_ (set_next l s) - 1)
                                     (set_next l s)))
      as (_ & _ & V3).
    fold s2 in K1, K4, K5, V3.
    destruct (IH s2 t H) as (I1 & I2 & I3 & I4).
    { rewrite V3. cbn [length_ set_length set_next]. lia. }
    rewrite I1, I2, I3, K1, K4, K5. repeat split. exact I4.
Qed.

(** A state of the header that has stopped for lack of input has
    changed neither the mode nor the [done] mark, and stops again when it
    is entered with no more input. *)
Lemma header_starved m s t :
  hmode m = true -> m <> TYPE -> m <> BAD ->
  step m s = Stop NeedInput t ->
  mode t = mode s /\ h_done t = h_done s /\
  exists u, step m t = Stop NeedInput u.
Proof.
  intros H1 H2 H3 H.
  destruct m; try discriminate; try congruence; cbn [step] in *.
  - unfold step_HEAD in *.
    apply atomic_stuck in H; [|solve [full]]; destruct H as (-> & E). eauto.
  - unfold step_FLAGS in *.
    apply atomic_stuck in H; [|solve [full]]; destruct H as (-> & E). eauto.
  - unfold step_TIME in *.
    apply atomic_stuck in H; [|solve [full]]; destruct H as (-> & E). eauto.
  - unfold step_OS in *.
    apply atomic_stuck in H; [|solve [full]]; destruct H as (-> & E). eauto.
  - unfold step_EXLEN, bind at 1, gets in H.
    destruct (Z.testbit (flags s) 10) eqn:Eb; [|discriminate].
    apply atomic_stuck in H; [|solve [full]]; destruct H as (-> & E).
    repeat split. eexists. unfold step_EXLEN, bind at 1, gets.
    change (flags (slurp s)) with (flags s). rewrite Eb. exact E.
  - unfold step_EXTRA, bind at 1, gets in H.
    apply bind_stop_inv in H as [H|(a & s1 & _ & H)]; [|discriminate].
    destruct (Z.testbit (flags s) 10) eqn:Eb; [|discriminate].
    unfold bind at 1, gets in H.
    destruct (Z.to_nat (length_ s)) as [|n] eqn:En; [discriminate|].
    destruct (skip_extra_stuck _ _ _ H ltac:(lia)) as (I1 & I2 & I3 & I4).
    repeat split; auto. exists t.
    unfold step_EXTRA, bind at 1, gets. rewrite I3, Eb.
    apply bind_stop. unfold bind at 1, gets. exact I4.
  - unfold step_NAME, bind at 1, gets in H.
    destruct (Z.testbit (flags s) 11) eqn:Eb; [|discriminate].
    apply bind_stop_inv in H as [H|(b & s1 & _ & H)].
    + assert (t = s).
      { unfold take_byte in H. destruct (next s); [|discriminate].
        now inversion H. }
      subst t. repeat split. exists s.
      unfold step_NAME, bind at 1, gets. rewrite Eb. now apply bind_stop.
    + apply bind_stop_inv in H as [H|(a & s2 & _ & H)]; [discriminate|].
      destruct (b =? 0); discriminate.
  - unfold step_COMMENT, bind at 1, gets in H.
    destruct (Z.testbit (flags s) 12) eqn:Eb; [|discriminate].
    apply bind_stop_inv in H as [H|(b & s1 & _ & H)].
    + assert (t = s).
      { unfold take_byte in H. destruct (next s); [|discriminate].
        now inversion H. }
      subst t. repeat split. exists s.
      unfold step_COMMENT, bind at 1, gets. rewrite Eb. now apply bind_stop.
    + apply bind_stop_inv in H as [H|(a & s2 & _ & H)]; [discriminate|].
      destruct (b =? 0); discriminate.
  - unfold step_HCRC, bind at 1, gets in H.
    destruct (Z.testbit (flags s) 9) eqn:Eb; [|discriminate].
    apply atomic_stuck in H; [|solve [full]]; destruct H as (-> & E).
    repeat split. eexists. unfold step_HCRC, bind at 1, gets.
    change (flags (slurp s)) with (flags s). rewrite Eb. exact E.
Qed.

(** A first call that stops within the header for lack of input: the
    header is not marked complete, and the state it stopped in stops again
    when it is entered with no more input. *)
Lemma starved_run : forall n s t,
  run n Z_BLOCK s = (Halted NeedInput, t) ->
  hmode (mode s) = true -> h_done s = 0 ->
  h_done t = 0 /\ hmode (mode t) = true /\ mode t <> TYPE /\ mode t <> BAD /\
  exists u, step (mode t) t = Stop NeedInput u.
Proof.
  induction n as [|n IH]; intros s t H Hm Hd; [discriminate|].
  destruct (leaves_dec Z_BLOCK s) as [L|L].
  - rewrite run_leaves in H by assumption. destruct (mode s); discriminate.
  - rewrite run_turn in H by assumption.
    assert (H2 : mode s <> TYPE) by (intros C; apply L; right; right; auto).
    assert (H3 : mode s <> BAD) by (intros C; apply L; right; left; auto).
    destruct (step (mode s) s) as [u s'|w s'] eqn:E.
    + destruct (quiet_header _ Hm H2 H3 s s') as (_ & _ & Hh); [eauto|].
      assert (Hn : mode s' <> TYPE).
      { intros C. destruct n; [discriminate|].
        rewrite run_leaves in H by (right; right; auto).
        rewrite C in H. discriminate. }
      apply (IH s' t H (Hh Hm)).
      rewrite (step_keeps_done _ _ _ _ Hm H2 H3 E Hn). exact Hd.
    + inversion H; subst.
      destruct (header_starved _ _ _ Hm H2 H3 E) as (M1 & D1 & U1).
      rewrite M1, D1. auto.
Qed.

(** The first call of [inflate] when the input ends within the header:
    it has taken all the input and returns [Z_OK]. *)
Lemma starved_block_call filesize inbuf t :
  run (enough (member_start inbuf (to_uInt (OUTBUF_MULT * filesize)))) Z_BLOCK
    (member_start inbuf (to_uInt (OUTBUF_MULT * filesize)))
    = (Halted NeedInput, t) ->
  inbuf <> [] ->
  exists zs1,
    inflate (open_stream filesize inbuf) Z_BLOCK = (Z_OK, zs1) /\
    state zs1 = t /\ loaded zs1 = t /\ avail_out zs1 = left t.
Proof.
  intros H Hne.
  pose proof (run_dry _ _ _ _ H) as Hn.
  assert (Hpos : 0 < zlen inbuf).
  { destruct inbuf; [congruence|]. unfold zlen. simpl length. lia. }
  eexists. split.
  - unfold inflate. cbv zeta. rewrite loaded_open, H. cbn [ret_code].
    change (next (member_start inbuf _)) with inbuf. rewrite Hn.
    change (zlen (@nil Z)) with 0.
    destruct (zlen inbuf - 0 =? 0) eqn:E0; [apply Z.eqb_eq in E0; lia|].
    cbn [andb]. reflexivity.
  - split; [reflexivity|]. split; [|reflexivity].
    unfold loaded. cbn [avail_out avail_in next_in state open_stream].
    cbn [firstn Z.to_nat]. rewrite <- Hn. apply reload.
Qed.

(** The second call then makes no progress. *)
Lemma starved_again zs1 t u :
  loaded zs1 = t -> avail_out zs1 = left t -> next t = [] ->
  hmode (mode t) = true -> mode t <> TYPE -> mode t <> BAD ->
  step (mode t) t = Stop NeedInput u ->
  fst (inflate zs1 Z_NO_FLUSH) = Z_BUF_ERROR.
Proof.
  intros Hl Ho Hn Hm H2 H3 E.
  destruct (quiet_header _ Hm H2 H3 t u) as (Hleft & _); [eauto|].
  pose proof (dry_step _ _ _ E) as Hnu.
  unfold inflate. cbv zeta. rewrite Hl.
  destruct (enough t) eqn:En; [unfold enough in En; lia|].
  rewrite run_turn
    by (intros [C|[C|[_ C]]]; try discriminate;
        rewrite C in Hm; try discriminate; congruence).
  rewrite E. cbn [fst ret_code]. rewrite Ho, Hn, Hnu, Hleft.
  rewrite !Z.sub_diag. reflexivity.
Qed.

(** On the first bytes of a header, short of its end, the decoder stops
    for lack of input. *)
Lemma cut_header_run h p q B :
  well_formed_header h -> encode_header h = p ++ q -> q <> [] ->
  exists t,
    run (enough (member_start p B)) Z_BLOCK (member_start p B)
      = (Halted NeedInput, t).
Proof.
  intros W Heq Hq.
  assert (H0 : hdr h HEAD [] (encode_header h ++ [])
                 (member_start (encode_header h ++ []) B)).
  { unfold hdr. repeat split; intros; try congruence; reflexivity. }
  destruct (header_reaches h Z_BLOCK [] _ W H0) as (s1 & R & G1 & _ & G3 & _).
  pose proof (reaches_run Z_BLOCK _ s1 R
                (or_intror (or_intror (conj G1 eq_refl)))
                _ (enough_phi _)) as Hr.
  rewrite G1, app_nil_r, Heq in Hr.
  set (S0 := member_start p B).
  destruct (run (enough S0) Z_BLOCK S0) as [l t] eqn:E.
  pose proof (run_no_turns _ _ _ _ _ (enough_phi S0) E) as Hl.
  assert (Hlast : lasting q 0 l -> False).
  { intros Hla.
    pose proof (run_lift Z_BLOCK q 0 ltac:(lia) _ _ _ _ E Hla) as E'.
    unfold S0 in E'. rewrite start_lift, Z.add_0_r in E'.
    pose proof (run_more Z_BLOCK _ _ _ _ E' Hl
                  (enough (member_start (p ++ q) B))
                  (enough_start_le p q B B)) as E2.
    rewrite Hr in E2. inversion E2 as [[Hl' Ht]].
    rewrite Ht in G3. cbn [lift next] in G3.
    apply app_eq_nil in G3 as [_ G3]. contradiction. }
  destruct l as [| | |w|]; try (exfalso; apply Hlast; exact I).
  destruct w; try (exfalso; apply Hlast; reflexivity).
  exists t. reflexivity.
Qed.

(** The first eight bytes of a header: the magic bytes, the method,
    the flags and the time. *)
Lemma first_eight h p q :
  encode_header h = p ++ q -> 8 <= zlen p ->
  exists p',
    p = [31; 139] ++ [8; flag_byte h] ++ le_bytes 4 (f_mtime h) ++ p'.
Proof.
  intros Heq Hp. exists (skipn 8 p).
  assert (E : firstn 8 p = firstn 8 (encode_header h)).
  { rewrite Heq, firstn_app.
    replace (8 - length p)%nat with 0%nat by (unfold zlen in Hp; lia).
    cbn [firstn]. now rewrite app_nil_r. }
  rewrite <- (firstn_skipn 8 p) at 1. rewrite E.
  unfold encode_header, before_crc, fixed_part.
  cbn [le_bytes app firstn]. reflexivity.
Qed.

(** On input that holds the first eight bytes of a header, the first
    call of [inflate] writes the time, and leaves it written however it
    ends. *)
Lemma cut_time h p' B l t :
  well_formed_header h ->
  run (enough (member_start
                 ([31; 139] ++ [8; flag_byte h] ++ le_bytes 4 (f_mtime h) ++ p')
                 B))
    Z_BLOCK
    (member_start
       ([31; 139] ++ [8; flag_byte h] ++ le_bytes 4 (f_mtime h) ++ p') B)
    = (l, t) ->
  h_time t = Some (f_mtime h).
Proof.
  intros (Wt & _) H.
  set (S0 := member_start _ B) in *.
  assert (H0 : hdr h HEAD []
                 ([31; 139] ++ [8; flag_byte h] ++ le_bytes 4 (f_mtime h) ++ p')
                 S0).
  { unfold hdr. repeat split; intros; try congruence; reflexivity. }
  destruct (phase_HEAD _ _ _ H0) as (s1 & E1 & H1).
  destruct (phase_FLAGS _ _ _ H1) as (s2 & E2 & H2).
  destruct (phase_TIME _ _ _ _ Wt H2) as (s3 & E3 & H3).
  pose proof H1 as (M1 & _). pose proof H2 as (M2 & Hh2 & Hn2 & _).
  pose proof H3 as (M3 & _).
  pose proof (step_TIME_time s2 _ p' tt s3 Wt Hh2 Hn2 E3) as Ht3.
  destruct (enough S0) as [|[|[|k]]] eqn:En;
    try (unfold enough in En; lia).
  rewrite run_turn in H
    by (apply (header_mode_stays Z_BLOCK HEAD); auto; discriminate).
  change (mode S0) with HEAD in H. rewrite E1 in H.
  rewrite run_turn in H
    by (apply (header_mode_stays Z_BLOCK FLAGS); auto; discriminate).
  rewrite M1, E2 in H.
  rewrite run_turn in H
    by (apply (header_mode_stays Z_BLOCK TIME); auto; discriminate).
  rewrite M2, E3 in H.
  rewrite <- Ht3. apply (run_keeps_time k s3 l t); auto; now rewrite M3.
Qed.

(** **** X13.  A file that holds the first bytes of a well-formed gzip
    header, at least the eight up to the time and not all of them: [main]
    prints the begin line of member 1 and the header report, with the time
    of the header and with the header marked incomplete ([done = 0]), and
    then exits with [Z_BUF_ERROR] from the call of [inflate] in the
    boundary loop; neither the decompressed size nor the end line is
    printed. *)
Theorem X13_cut_header_reported_incomplete h p q :
  well_formed_header h -> encode_header h = p ++ q ->
  8 <= zlen p -> q <> [] -> zlen p < 2 ^ 31 ->
  exists nm,
    main (Some p) =
      ([Separator; MemberBegin 1 0; HeaderTitle 1;
        TimeField (Some (to_int (f_mtime h))); NameField nm;
        DoneField 0 HeaderIncomplete],
       Exit BodyInflateFailed Z_BUF_ERROR).
Proof.
  intros W Heq Hp8 Hq Hs.
  assert (Hp : p <> []).
  { intros ->. change (zlen (@nil Z)) with 0 in Hp8. lia. }
  set (B := to_uInt (OUTBUF_MULT * zlen p)).
  destruct (cut_header_run h p q B W Heq Hq) as (t & Hr).
  destruct (starved_run _ _ _ Hr eq_refl eq_refl)
    as (Hd & Hm & H2 & H3 & u & Eu).
  pose proof (run_dry _ _ _ _ Hr) as Hn.
  assert (Hti : h_time t = Some (f_mtime h)).
  { destruct (first_eight h p q Heq Hp8) as (p' & Ep).
    revert Hr. rewrite Ep. apply cut_time. exact W. }
  destruct (starved_block_call (zlen p) p t Hr Hp)
    as (zs1 & E1 & Hst & Hl & Ho).
  pose proof (starved_again zs1 t u Hl Ho Hn Hm H2 H3 Eu) as E2.
  assert (Hpos : 0 < zlen p) by lia.
  assert (Hc : get_header_for_zstream (at_offset p 0) 1 (zlen p) =
               mkCall (header_lines 1 (f_mtime h) t)
                 (mkFile p (0 + zlen p) (zlen p <? zlen p) false)
                 (Exit BodyInflateFailed Z_BUF_ERROR)).
  { rewrite header_at by lia.
    unfold member_call, st_size. cbn [at_offset contents].
    fold (at_offset p 0).
    pose proof (fread_member [] p [] Hp) as Hf.
    rewrite !app_nil_r in Hf. cbn [app] in Hf.
    change (zlen (@nil Z)) with 0 in Hf. rewrite Hf.
    destruct (zlen p =? 0) eqn:E0; [apply Z.eqb_eq in E0; lia|].
    rewrite E1. change (negb (Z_OK =? Z_OK)) with false. cbv iota.
    rewrite Hst, Hti.
    destruct (inflate zs1 Z_NO_FLUSH) as [r2 zs2]. cbn [fst] in E2. subst r2.
    change (Z_BUF_ERROR <? 0) with true. cbv iota. reflexivity. }
  pose proof (main_trace p Hs) as Ht.
  assert (Hx : result (get_header_for_zstream (at_offset p 0) 1 (zlen p))
               = Exit BodyInflateFailed Z_BUF_ERROR)
    by (rewrite Hc; reflexivity).
  destruct (trace_exits _ _ _ _ _ _ _ _ Ht ltac:(lia) Hx) as (Hl' & Ho').
  exists (if h_name t then NameAt (zname t) else NullName).
  rewrite (surjective_pairing (main _)), Hl', Ho', Hc.
  cbn [printed app]. unfold header_lines. rewrite Hd. reflexivity.
Qed.

(** The first twelve bytes of [hello_gz]: the header is cut within the
    name. *)
Lemma X13_cut_in_name_witness :
  exists nm,
    main (Some (firstn 12 hello_gz)) =
      ([Separator; MemberBegin 1 0; HeaderTitle 1;
        TimeField (Some (to_int (f_mtime hello_header))); NameField nm;
        DoneField 0 HeaderIncomplete],
       Exit BodyInflateFailed Z_BUF_ERROR).
Proof.
  apply (X13_cut_header_reported_incomplete hello_header
           (firstn 12 hello_gz) [116; 120; 116; 0]).
  - unfold well_formed_header, is_byte, text_ok, hello_header.
    cbn [f_mtime f_xfl f_os f_extra f_name f_comment].
    repeat split; try lia; repeat constructor; lia.
  - reflexivity.
  - vm_compute. discriminate.
  - discriminate.
  - vm_compute. reflexivity.
Defined.

End CutHeader.
